(** * inko-bot: the transaction executor, the precondition checks and the
      daily loop

    Embedded from [src/unnamed/part_000] (the continuous-mode script, which
    holds [checkAndMintIfNeeded] and [checkAndApproveIfNeeded]) and from
    [src/src/main.js] (the batch-mode script, which holds [runDailyCycle]
    and its [main]).  The two scripts share [getRandomTokenID],
    [initializeConnections] and [executeTransaction] verbatim, up to
    comments and the text of one log line.

    The program is asynchronous JavaScript with a single thread of control.
    It is embedded as a state-and-exception monad over the module-level
    variables of the script ([currentRpcIndex], [provider], [wallet],
    [mintContract], [wrapperContract]).  Everything the outside world
    decides (answers of the RPC node, [Math.random], [Date.now], the
    content of the ABI files, the private key, what the constructors of
    the ethers library accept) is read from an environment [Env]; the state
    keeps one cursor per kind of question and the chronological list of
    observable effects (console lines, sleeps, RPC calls).

    JavaScript numbers are IEEE 754 doubles: they are embedded as the
    rationals they denote, and every arithmetic operation rounds its exact
    result to the nearest double ([Double.round]). *)

From Stdlib Require Import ZArith NArith QArith Qround Qpower List String Ascii Bool Lia Lqa.
From Stdlib Require Import SpecFloat.
From Stdlib Require Import Decimal DecimalString DecimalFacts DecimalPos DecimalN DecimalZ.
Import ListNotations.
Open Scope string_scope.
Open Scope Z_scope.



(* ================================================================== *)
(** ** IEEE 754 binary64 rounding *)

Module Double.

(** [2^e], for any integer [e]. *)
Definition pow2 (e : Z) : Q := (2 ^ e)%Q.

(** [floor (log2 x)] for [x > 0]. *)
Definition ilog2 (x : Q) : Z :=
  let l := Z.log2 (Qnum x) - Z.log2 (Zpos (Qden x)) in
  if Qle_bool (pow2 l) x then l else l - 1.

(** Rounding to the nearest integer, ties to the even one. *)
Definition rne (x : Q) : Z :=
  let f := Qfloor x in
  match Qcompare (x - inject_Z f) (1 # 2) with
  | Lt => f
  | Gt => f + 1
  | Eq => if Z.even f then f else f + 1
  end.

(** The exponent of the last place of the double nearest to [x > 0]:
    53 significant bits, and no exponent below that of the subnormals. *)
Definition exponent (x : Q) : Z := Z.max (ilog2 x - 52) (-1074).

Definition round_pos (x : Q) : Q :=
  let e := exponent x in (inject_Z (rne (x * pow2 (- e))) * pow2 e)%Q.

(** The double nearest to [x], ties to even.  (Overflow to infinity, from
    2^1024 on, is not modelled: the numbers of the scripts are timestamps,
    delays and digit indices.) *)
Definition round (x : Q) : Q :=
  match Qcompare x 0 with
  | Eq => 0%Q
  | Gt => round_pos x
  | Lt => (- round_pos (- x))%Q
  end.

(** The largest double below 1, [1 - 2^-53]. *)
Definition below_one : Q := 9007199254740991 # 9007199254740992.

(** The rational a finite float of the Standard Library's specification of
    binary64 denotes (used to compare [round] with that specification). *)
Definition of_spec (f : spec_float) : Q :=
  match f with
  | S754_finite s m e =>
      ((if s then -1 else 1) * inject_Z (Zpos m) * pow2 e)%Q
  | _ => 0%Q
  end.

End Double.

(* ================================================================== *)
(** ** JavaScript values used by the scripts *)

Module Js.

(** [a * b], [a + b] and [a - b] on numbers: the exact result, rounded to
    the nearest double. *)
Definition times (a b : Q) : Q := Double.round (a * b).
Definition plus (a b : Q) : Q := Double.round (a + b).
Definition minus (a b : Q) : Q := Double.round (a - b).

(** [String.prototype.toLowerCase], on the ASCII range (messages of RPC
    errors are ASCII; the needle searched for afterwards is ASCII too). *)
Definition lower_char (c : ascii) : ascii :=
  let n := nat_of_ascii c in
  if ((65 <=? n)%nat && (n <=? 90)%nat)%bool then ascii_of_nat (n + 32) else c.

Fixpoint toLowerCase (s : string) : string :=
  match s with
  | EmptyString => EmptyString
  | String c s' => String (lower_char c) (toLowerCase s')
  end.

(** [String.prototype.includes(needle)]. *)
Fixpoint includes (s needle : string) : bool :=
  if String.prefix needle s then true
  else match s with
       | EmptyString => false
       | String _ s' => includes s' needle
       end.

(** [String.prototype.charAt(i)]: the empty string out of range. *)
Definition charAt (s : string) (i : Z) : string :=
  if i <? 0 then EmptyString
  else match String.get (Z.to_nat i) s with
       | Some c => String c EmptyString
       | None => EmptyString
       end.

(** [String.prototype.slice(-n)] for [n > 0]: the last [n] characters, or
    the whole string when it is shorter. *)
Definition slice_last (n : nat) (s : string) : string :=
  String.substring (String.length s - n) n s.

(** [Number.prototype.toString()] / [BigInt.prototype.toString()] on an
    integer: minimal decimal form, ["-"] in front of a negative one. *)
Definition toString (z : Z) : string :=
  NilZero.string_of_int (Z.to_int z).

(** Truthiness of a string ([""] is falsy). *)
Definition truthy (s : string) : bool :=
  match s with EmptyString => false | _ => true end.

(** The [code] property of a thrown error: absent, a JSON-RPC number or
    an ethers code string. *)
Inductive Code :=
| CodeAbsent
| CodeNumber (n : Z)
| CodeString (s : string).

(** A thrown [Error] object, as ethers and the runtime raise them:
    [message] is a string when present.  (Throwing [null], [undefined] or
    an object whose [message] is not a string is not modelled.) *)
Record Error := mkError {
  code : Code;
  message : option string;
  reason : option string
}.

Definition TypeError (msg : string) : Error :=
  mkError CodeAbsent (Some msg) None.

Definition SyntaxError (msg : string) : Error :=
  mkError CodeAbsent (Some msg) None.

(** [error.code === n] for a number literal [n]. *)
Definition code_is_number (c : Code) (n : Z) : bool :=
  match c with CodeNumber m => m =? n | _ => false end.

(** [list.includes(error.code)] for a list of string literals. *)
Definition code_in (l : list string) (c : Code) : bool :=
  match c with
  | CodeString s => existsb (String.eqb s) l
  | _ => false
  end.

(** [a || b] on optional strings, as used for [error.reason || error.message]. *)
Definition or_else (a b : option string) : option string :=
  match a with
  | Some s => if truthy s then a else b
  | None => b
  end.

(** [BigInt(s)] on the strings the script builds: decimal digits with an
    optional sign in front; [""] is [0n]; anything else is a SyntaxError.
    (Hexadecimal and white-space forms cannot be produced by the callers.) *)
Definition digits_value (s : string) : option Z :=
  option_map Z.of_uint (NilEmpty.uint_of_string s).

Definition parseBigInt (s : string) : option Z :=
  match s with
  | String "-"%char (String c r) => option_map Z.opp (digits_value (String c r))
  | String "+"%char (String c r) => digits_value (String c r)
  | _ => digits_value s
  end.

End Js.

(* ================================================================== *)
(** ** Configuration constants *)

Definition RPC_URLS : list string :=
  [ "https://sepolia.base.org";
    "https://base-sepolia.drpc.org";
    "https://base-sepolia.therpc.io" ].

Definition MAX_RETRIES : Z := 5.

Definition MINT_CONTRACT_ADDRESS : string := "0xAF33ADd7918F685B2A82C1077bd8c07d220FFA04".
Definition WRAPPER_CONTRACT_ADDRESS : string := "0xA449bc031fA0b815cA14fAFD0c5EdB75ccD9c80f".

(** [ethers.parseUnits("100", 18)], [ethers.parseUnits("1000000", 18)],
    [ethers.MaxUint256]. *)
Definition MINT_AMOUNT : Z := 100 * 10 ^ 18.
Definition SUFFICIENT_ALLOWANCE : Z := 1000000 * 10 ^ 18.
Definition MaxUint256 : Z := 2 ^ 256 - 1.

(** [RPC_URLS.length] and [RPC_URLS[i]] ([undefined] out of range). *)
Definition RPC_URLS_length : Z := Z.of_nat (List.length RPC_URLS).

Definition RPC_URLS_at (i : Z) : option string :=
  if i <? 0 then None else nth_error RPC_URLS (Z.to_nat i).

(* ================================================================== *)
(** ** Handles, actions, console lines and effects *)

Definition Abi := string.

Record Provider := { providerUrl : option string }.
Record Wallet := { walletProvider : Provider }.
Record Contract := { contractAddress : string; contractAbi : Abi; contractRunner : Wallet }.

Record Tx := { hash : string }.
Record Receipt := { blockNumber : Z }.

(** The closures handed to [executeTransaction]: each call site passes
    [(overrides) => contract.method(args, overrides)] for one of four
    contract methods. *)
Inductive Action :=
| Mint (amount : Z)                       (* mintContract.mint(wallet.address, amount, o) *)
| Approve (spender : string) (amount : Z) (* mintContract.approve(spender, amount, o) *)
| Wrap (id : Z)                           (* wrapperContract.wrap(id, o) *)
| Unwrap (id : Z).                        (* wrapperContract.unwrap(id, o) *)

Inductive View := BalanceOf | Allowance.

Inductive Level := LOG | WARN | ERROR.

(** Console lines, one constructor per message template of the scripts. *)
Inductive Line :=
| SetupConnecting (url : option string)
| SetupConnected
| TxSent (actionName : string) (h : string)
| TxConfirmed (actionName : string) (block : Z)
| RateLimitOnAttempt (attempt : Z) (budget : Z)
| WaitingBeforeRetry (backoffTime : Z)
| RateLimitGiveUp (budget : Z)
| NetworkIssue (url : option string)
| FatalDuring (actionName : string) (text : option string)
| CheckingBalance
| CurrentBalance (balance : Z)
| BalanceEmpty
| BalanceSufficient
| BalanceCheckFailed (msg : option string)
| CheckingAllowance
| CurrentAllowance (allowance : Z)
| AllowanceLow
| AllowanceSufficient
| AllowanceCheckFailed (msg : option string)
| Banner
| CycleStarting (now : Z)
| DailyGoal (txGoal pairGoal : Z)
| Phase (n : Z)
| PreparationFailed
| ExecutingPair (i goal : Z)
| ExecutionComplete (txCounter : Z)
| CycleConcluded
| CycleDuration (ms : Z)
| SleepingFor (ms : Z)
| NextCycleAround (at_ms : Z).

Inductive Event :=
| Console (lvl : Level) (l : Line)               (* console.log / warn / error *)
| Slept (ms : Z)                               (* await sleep(ms) *)
| FeeQueried (p : Provider)                    (* provider.getFeeData() *)
| Submitted (c : Contract) (a : Action) (gasPrice : Z)   (* fn({ gasPrice }) *)
| Awaited (t : Tx)                             (* tx.wait() *)
| Viewed (c : Contract) (v : View).            (* balanceOf / allowance *)

(* ================================================================== *)
(** ** The environment and the state of the script *)

Inductive result (A : Type) :=
| Ok (a : A)
| Throw (e : Js.Error).

Arguments Ok {A} a.
Arguments Throw {A} e.

(** What the outside world does during one iteration of the retry loop. *)
Record Attempt := {
  feeData : result (option Z);       (* getFeeData(): [gasPrice] may be null *)
  sent : result Tx;                  (* the promise returned by fn({gasPrice}) *)
  mined : result Receipt;            (* the promise returned by tx.wait() *)
  abiFiles : string -> result Abi    (* what loadJson finds, should this
                                        iteration rebuild the connection *)
}.

Record Env := {
  draws : nat -> Q;                  (* successive draws of Math.random() *)
  clock : nat -> Z;                  (* successive readings of the clock *)
  node : nat -> Attempt;             (* successive submission attempts *)
  chain : nat -> result Z;           (* successive balanceOf/allowance reads *)
  startupFiles : string -> result Abi;
  PRIVATE_KEY : option string;       (* process.env.PRIVATE_KEY *)
  ethers_Wallet : option string -> option Js.Error;
                                     (* what new ethers.Wallet(key, provider)
                                        throws, if it throws *)
  ethers_Contract : string -> Abi -> option Js.Error
                                     (* what new ethers.Contract(address, abi,
                                        wallet) throws, if it throws *)
}.

Record World := mkWorld {
  currentRpcIndex : Z;
  provider : option Provider;
  wallet : option Wallet;
  mintContract : option Contract;
  wrapperContract : option Contract;
  drawn : nat;                       (* Math.random() draws so far *)
  clockReads : nat;                  (* clock readings so far *)
  attempts : nat;                    (* retry-loop iterations so far *)
  reads : nat;                       (* contract reads so far *)
  trace : list Event                 (* observable effects, oldest first *)
}.

(** The module-level variables as the script declares them. *)
Definition boot : World :=
  mkWorld 0 None None None None 0 0 0 0 [].

Definition set_currentRpcIndex (i : Z) (w : World) : World :=
  mkWorld i (provider w) (wallet w) (mintContract w) (wrapperContract w)
          (drawn w) (clockReads w) (attempts w) (reads w) (trace w).
Definition set_provider (p : Provider) (w : World) : World :=
  mkWorld (currentRpcIndex w) (Some p) (wallet w) (mintContract w) (wrapperContract w)
          (drawn w) (clockReads w) (attempts w) (reads w) (trace w).
Definition set_wallet (x : Wallet) (w : World) : World :=
  mkWorld (currentRpcIndex w) (provider w) (Some x) (mintContract w) (wrapperContract w)
          (drawn w) (clockReads w) (attempts w) (reads w) (trace w).
Definition set_mintContract (c : Contract) (w : World) : World :=
  mkWorld (currentRpcIndex w) (provider w) (wallet w) (Some c) (wrapperContract w)
          (drawn w) (clockReads w) (attempts w) (reads w) (trace w).
Definition set_wrapperContract (c : Contract) (w : World) : World :=
  mkWorld (currentRpcIndex w) (provider w) (wallet w) (mintContract w) (Some c)
          (drawn w) (clockReads w) (attempts w) (reads w) (trace w).
Definition tick_drawn (w : World) : World :=
  mkWorld (currentRpcIndex w) (provider w) (wallet w) (mintContract w) (wrapperContract w)
          (S (drawn w)) (clockReads w) (attempts w) (reads w) (trace w).
Definition tick_clock (w : World) : World :=
  mkWorld (currentRpcIndex w) (provider w) (wallet w) (mintContract w) (wrapperContract w)
          (drawn w) (S (clockReads w)) (attempts w) (reads w) (trace w).
Definition tick_attempts (w : World) : World :=
  mkWorld (currentRpcIndex w) (provider w) (wallet w) (mintContract w) (wrapperContract w)
          (drawn w) (clockReads w) (S (attempts w)) (reads w) (trace w).
Definition tick_reads (w : World) : World :=
  mkWorld (currentRpcIndex w) (provider w) (wallet w) (mintContract w) (wrapperContract w)
          (drawn w) (clockReads w) (attempts w) (S (reads w)) (trace w).
Definition emit (e : Event) (w : World) : World :=
  mkWorld (currentRpcIndex w) (provider w) (wallet w) (mintContract w) (wrapperContract w)
          (drawn w) (clockReads w) (attempts w) (reads w) (trace w ++ [e]).

(* ================================================================== *)
(** ** The monad of the script: state and exceptions *)

Definition M (A : Type) : Type := World -> result A * World.

Definition ret {A} (a : A) : M A := fun w => (Ok a, w).

Definition throw {A} (e : Js.Error) : M A := fun w => (Throw e, w).

Definition bind {A B} (m : M A) (k : A -> M B) : M B :=
  fun w => match m w with
           | (Ok a, w') => k a w'
           | (Throw e, w') => (Throw e, w')
           end.

(** [try { body } catch (error) { handler }]. *)
Definition try_catch {A} (body : M A) (handler : Js.Error -> M A) : M A :=
  fun w => match body w with
           | (Ok a, w') => (Ok a, w')
           | (Throw e, w') => handler e w'
           end.

Definition get {A} (f : World -> A) : M A := fun w => (Ok (f w), w).
Definition modify (f : World -> World) : M unit := fun w => (Ok tt, f w).
Definition lift {A} (r : result A) : M A := fun w => (r, w).

Declare Scope js_scope.
Delimit Scope js_scope with js.
Notation "x <- m ;; k" := (bind m (fun x => k))
  (at level 100, m at next level, right associativity) : js_scope.
Notation "m ;; k" := (bind m (fun _ => k))
  (at level 100, right associativity) : js_scope.
Open Scope js_scope.

Definition print (lvl : Level) (l : Line) : M unit := modify (emit (Console lvl l)).

(** [const sleep = (ms) => new Promise(resolve => setTimeout(resolve, ms))]:
    awaited, it only lets time pass. *)
Definition sleep (ms : Z) : M unit := modify (emit (Slept ms)).

(** Reading an undefined module-level variable and using it as an object
    raises a TypeError. *)
Definition deref {A} (name : string) (f : World -> option A) : M A :=
  fun w => match f w with
           | Some a => (Ok a, w)
           | None => (Throw (Js.TypeError ("Cannot read properties of undefined: " ++ name)), w)
           end.

(* ================================================================== *)
(** ** Error classification (the two flags computed in the catch block) *)

Definition isRateLimitError (error : Js.Error) : bool :=
  Js.code_is_number (Js.code error) (-32029)
  || match Js.message error with
     | Some m => Js.truthy m && Js.includes (Js.toLowerCase m) "rate limit exceeded"
     | None => false
     end.

Definition isNetworkError (error : Js.Error) : bool :=
  Js.code_in ["SERVER_ERROR"; "NETWORK_ERROR"; "TIMEOUT"] (Js.code error)
  || match Js.message error with
     | Some m => Js.truthy m && Js.includes m "failed to detect network"
     | None => false
     end.

(** The outcome taxonomy of the specification. *)
Inductive Outcome := Confirmed | RateLimited | NetworkFailure | FatalError.

(** The branch the [if / else if / else] chain of the catch block takes. *)
Definition classify (error : Js.Error) : Outcome :=
  if isRateLimitError error then RateLimited
  else if isNetworkError error then NetworkFailure
  else FatalError.

(* ================================================================== *)
(** ** The scripts *)

Section Script.

Variable env : Env.

Definition Math_random : M Q :=
  fun w => (Ok (draws env (drawn w)), tick_drawn w).

(** [Date.now()], also the reading behind [new Date()]. *)
Definition Date_now : M Z :=
  fun w => (Ok (clock env (clockReads w)), tick_clock w).

(** [Math.floor(Math.random() * (max - min + 1) + min)], each operation in
    double precision; the arguments are integers (at every call site they
    are integer literals). *)
Definition randomDelay (min max : Z) : M Z :=
  r <- Math_random ;;
  ret (Qfloor (Js.plus (Js.times r (Js.plus (Js.minus (inject_Z max) (inject_Z min)) 1))
                       (inject_Z min))).

(** [getRandomTokenID(length = 18)]. *)
Definition characters : string := "0123456789".

Fixpoint random_digits (n : nat) (result : string) : M string :=
  match n with
  | O => ret result
  | S n' =>
      r <- Math_random ;;
      random_digits n'
        (result ++ Js.charAt characters
                     (Qfloor (Js.times r (inject_Z (Z.of_nat (String.length characters))))))
  end.

Definition getRandomTokenID (length : nat) : M Z :=
  result <- random_digits length "" ;;
  now <- Date_now ;;
  let result := result ++ Js.slice_last 5 (Js.toString now) in
  match Js.parseBigInt result with
  | Some id => ret id
  | None => throw (Js.SyntaxError ("Cannot convert " ++ result ++ " to a BigInt"))
  end.

(** [loadJson(filePath)]: [fs.readFileSync] then [JSON.parse]; either may throw. *)
Definition loadJson (files : string -> result Abi) (filePath : string) : M Abi :=
  lift (files filePath).

(** A constructor of the ethers library: it throws, or it returns the
    object. *)
Definition construct {A} (fault : option Js.Error) (object : A) : M A :=
  match fault with
  | Some e => throw e
  | None => ret object
  end.

(** [initializeConnections()]; [files] is the file system at call time.
    Each module-level variable is assigned when its right-hand side has
    been evaluated, so an exception leaves the later ones as they were. *)
Definition initializeConnections (files : string -> result Abi) : M unit :=
  idx <- get currentRpcIndex ;;
  let rpcUrl := RPC_URLS_at idx in
  print LOG (SetupConnecting rpcUrl) ;;
  let p := {| providerUrl := rpcUrl |} in
  modify (set_provider p) ;;
  wl <- construct (ethers_Wallet env (PRIVATE_KEY env)) {| walletProvider := p |} ;;
  modify (set_wallet wl) ;;
  mintContractABI <- loadJson files "./abi/mintContract.json" ;;
  wrapperContractABI <- loadJson files "./abi/wrapperContract.json" ;;
  c <- construct (ethers_Contract env MINT_CONTRACT_ADDRESS mintContractABI)
         {| contractAddress := MINT_CONTRACT_ADDRESS;
            contractAbi := mintContractABI; contractRunner := wl |} ;;
  modify (set_mintContract c) ;;
  c <- construct (ethers_Contract env WRAPPER_CONTRACT_ADDRESS wrapperContractABI)
         {| contractAddress := WRAPPER_CONTRACT_ADDRESS;
            contractAbi := wrapperContractABI; contractRunner := wl |} ;;
  modify (set_wrapperContract c) ;;
  print LOG SetupConnected.

(** Calling the closure [fn] with [{ gasPrice }]: the contract variables
    are read when the closure runs, so a rebuilt connection is used. *)
Definition call (fn : Action) (gasPrice : Z) (a : Attempt) : M Tx :=
  match fn with
  | Mint _ =>
      c <- deref "mintContract" mintContract ;;
      _ <- deref "wallet" wallet ;;
      modify (emit (Submitted c fn gasPrice)) ;;
      lift (sent a)
  | Approve _ _ =>
      c <- deref "mintContract" mintContract ;;
      modify (emit (Submitted c fn gasPrice)) ;;
      lift (sent a)
  | Wrap _ | Unwrap _ =>
      c <- deref "wrapperContract" wrapperContract ;;
      modify (emit (Submitted c fn gasPrice)) ;;
      lift (sent a)
  end.

(** The answers of the outside world for the iteration that starts now. *)
Definition next_attempt : M Attempt :=
  fun w => (Ok (node env (attempts w)), tick_attempts w).

(** The [try] block of one iteration; it ends in [return true]. *)
Definition submit_and_confirm (fn : Action) (actionName : string) (a : Attempt) : M bool :=
  p <- deref "provider" provider ;;
  modify (emit (FeeQueried p)) ;;
  fee <- lift (feeData a) ;;
  jitter <- randomDelay 1 100 ;;
  gasPrice <- match fee with
              | Some g => ret (g + jitter)
              | None => throw (Js.TypeError "Cannot mix BigInt and other types")
              end ;;
  tx <- call fn gasPrice a ;;
  print LOG (TxSent actionName (hash tx)) ;;
  modify (emit (Awaited tx)) ;;
  receipt <- lift (mined a) ;;
  print LOG (TxConfirmed actionName (blockNumber receipt)) ;;
  ret true.

(** The [catch] block: [Some b] is [return b], [None] is [continue]. *)
Definition on_error (attempt : Z) (actionName : string) (a : Attempt)
           (error : Js.Error) : M (option bool) :=
  if isRateLimitError error then
    print WARN (RateLimitOnAttempt attempt MAX_RETRIES) ;;
    if attempt <? MAX_RETRIES then
      backoffTime <- randomDelay 60000 120000 ;;
      print LOG (WaitingBeforeRetry backoffTime) ;;
      sleep backoffTime ;;
      ret None
    else
      print ERROR (RateLimitGiveUp MAX_RETRIES) ;;
      ret (Some false)
  else if isNetworkError error then
    idx <- get currentRpcIndex ;;
    print WARN (NetworkIssue (RPC_URLS_at idx)) ;;
    modify (set_currentRpcIndex (Z.rem (idx + 1) RPC_URLS_length)) ;;
    initializeConnections (abiFiles a) ;;
    sleep 2000 ;;
    ret None
  else
    print ERROR (FatalDuring actionName (Js.or_else (Js.reason error) (Js.message error))) ;;
    ret (Some false).

Definition iteration (attempt : Z) (fn : Action) (actionName : string) : M (option bool) :=
  a <- next_attempt ;;
  try_catch (b <- submit_and_confirm fn actionName a ;; ret (Some b))
            (on_error attempt actionName a).

(** [for (let attempt = ...; attempt <= MAX_RETRIES; attempt++) { ... } return false]. *)
Fixpoint attempt_loop (fuel : nat) (attempt : Z) (fn : Action) (actionName : string) : M bool :=
  match fuel with
  | O => ret false
  | S fuel' =>
      if attempt <=? MAX_RETRIES then
        r <- iteration attempt fn actionName ;;
        match r with
        | Some b => ret b
        | None => attempt_loop fuel' (attempt + 1) fn actionName
        end
      else ret false
  end.

Definition executeTransaction (fn : Action) (actionName : string) : M bool :=
  attempt_loop (Z.to_nat MAX_RETRIES) 1 fn actionName.

(** A contract read: [mintContract.balanceOf(wallet.address)] or
    [mintContract.allowance(wallet.address, WRAPPER_CONTRACT_ADDRESS)]. *)
Definition view (v : View) : M Z :=
  c <- deref "mintContract" mintContract ;;
  _ <- deref "wallet" wallet ;;
  modify (emit (Viewed c v)) ;;
  fun w => (chain env (reads w), tick_reads w).

Definition checkAndMintIfNeeded : M bool :=
  print LOG CheckingBalance ;;
  try_catch
    (balance <- view BalanceOf ;;
     print LOG (CurrentBalance balance) ;;
     if balance =? 0 then
       print LOG BalanceEmpty ;;
       executeTransaction (Mint MINT_AMOUNT) "Mint"
     else
       print LOG BalanceSufficient ;;
       ret true)
    (fun error =>
       print ERROR (BalanceCheckFailed (Js.message error)) ;;
       ret false).

Definition checkAndApproveIfNeeded : M bool :=
  print LOG CheckingAllowance ;;
  try_catch
    (allowance <- view Allowance ;;
     print LOG (CurrentAllowance allowance) ;;
     if allowance <? SUFFICIENT_ALLOWANCE then
       print LOG AllowanceLow ;;
       executeTransaction (Approve WRAPPER_CONTRACT_ADDRESS MaxUint256) "Approve"
     else
       print LOG AllowanceSufficient ;;
       ret true)
    (fun error =>
       print ERROR (AllowanceCheckFailed (Js.message error)) ;;
       ret false).

(** The pair loop of [runDailyCycle]. *)
Fixpoint pair_loop (fuel : nat) (i dailyPairGoal txCounter : Z) : M Z :=
  match fuel with
  | O => ret txCounter
  | S fuel' =>
      if i <=? dailyPairGoal then
        print LOG (ExecutingPair i dailyPairGoal) ;;
        randomID <- getRandomTokenID 18 ;;
        wrapSuccess <- executeTransaction (Wrap randomID) ("Wrap #" ++ Js.toString i) ;;
        let txCounter := if wrapSuccess : bool then txCounter + 1 else txCounter in
        txCounter <-
          (if wrapSuccess then
             d <- randomDelay 30000 60000 ;;
             sleep d ;;
             unwrapSuccess <- executeTransaction (Unwrap randomID) ("Unwrap #" ++ Js.toString i) ;;
             ret (if unwrapSuccess : bool then txCounter + 1 else txCounter)
           else ret txCounter) ;;
        (if i <? dailyPairGoal then
           d <- randomDelay 10000 20000 ;;
           sleep d
         else ret tt) ;;
        pair_loop fuel' (i + 1) dailyPairGoal txCounter
      else ret txCounter
  end.

Definition runDailyCycle : M unit :=
  print LOG Banner ;;
  now <- Date_now ;;
  print LOG (CycleStarting now) ;;
  print LOG Banner ;;
  dailyPairGoal <- randomDelay 25 50 ;;
  let dailyTxGoal := dailyPairGoal * 2 in
  print LOG (DailyGoal dailyTxGoal dailyPairGoal) ;;
  print LOG (Phase 1) ;;
  mintSuccess <- executeTransaction (Mint (100 * 10 ^ 18)) "Daily Mint" ;;
  approveSuccess <-
    executeTransaction (Approve WRAPPER_CONTRACT_ADDRESS MaxUint256) "Daily Approve" ;;
  if (negb mintSuccess || negb approveSuccess)%bool then
    print ERROR PreparationFailed
  else
    print LOG (Phase 2) ;;
    txCounter <- pair_loop (Z.to_nat dailyPairGoal) 1 dailyPairGoal 0 ;;
    print LOG (ExecutionComplete txCounter).

(** One turn of the [while (true)] loop of the batch-mode [main]. *)
Definition daily_iteration : M unit :=
  startTime <- Date_now ;;
  runDailyCycle ;;
  endTime <- Date_now ;;
  let cycleDuration := endTime - startTime in
  let oneDayInMs := 24 * 60 * 60 * 1000 in
  let sleepTime := Z.max 0 (oneDayInMs - cycleDuration) in
  print LOG Banner ;;
  print LOG CycleConcluded ;;
  print LOG (CycleDuration cycleDuration) ;;
  print LOG (SleepingFor sleepTime) ;;
  now <- Date_now ;;
  print LOG (NextCycleAround (now + sleepTime)) ;;
  print LOG Banner ;;
  sleep sleepTime.

(** The loop never exits; [days] turns of it are observed. *)
Fixpoint daily_loop (days : nat) : M unit :=
  match days with
  | O => ret tt
  | S days' => daily_iteration ;; daily_loop days'
  end.

Definition main (days : nat) : M unit :=
  initializeConnections (startupFiles env) ;;
  daily_loop days.

End Script.

(* ================================================================== *)
(** ** Concrete environments used to run the scripts *)

Module Demo.

Definition filesOk : string -> result Abi := fun _ => Ok "[]".

Definition filesGone : string -> result Abi :=
  fun filePath =>
    Throw (Js.mkError (Js.CodeString "ENOENT")
                      (Some ("ENOENT: no such file or directory, open " ++ filePath)) None).

Definition rateLimitError : Js.Error :=
  Js.mkError (Js.CodeNumber (-32029)) (Some "Too Many Requests") None.

Definition rateLimitText : Js.Error :=
  Js.mkError (Js.CodeString "UNKNOWN_ERROR") (Some "Rate Limit Exceeded: try later") None.

Definition networkError : Js.Error :=
  Js.mkError (Js.CodeString "NETWORK_ERROR") (Some "could not connect") None.

Definition revertError : Js.Error :=
  Js.mkError (Js.CodeString "CALL_EXCEPTION") (Some "execution reverted")
             (Some "ERC20: insufficient allowance").

(** An error meeting both the rate-limit and the network criteria. *)
Definition bothError : Js.Error :=
  Js.mkError (Js.CodeString "SERVER_ERROR") (Some "429: rate limit exceeded") None.

Definition succeeds : Attempt :=
  {| feeData := Ok (Some 1000000);
     sent := Ok {| hash := "0xabc" |};
     mined := Ok {| blockNumber := 42 |};
     abiFiles := filesOk |}.

(** The submission is rejected with [e]. *)
Definition rejected (e : Js.Error) (files : string -> result Abi) : Attempt :=
  {| feeData := Ok (Some 1000000);
     sent := Throw e;
     mined := Ok {| blockNumber := 42 |};
     abiFiles := files |}.

(** A key the wallet constructor accepts, and the placeholder of the
    README, which it rejects. *)
Definition goodKey : string :=
  "0x0123456789abcdef0123456789abcdef0123456789abcdef0123456789abcdef".
Definition placeholderKey : string := "0xYOUR_PRIVATE_KEY_HERE".

Definition invalidKey : Js.Error :=
  Js.mkError (Js.CodeString "INVALID_ARGUMENT") (Some "invalid private key") None.

Definition notIterable : Js.Error := Js.TypeError "abi is not iterable".

(** A stand-in for the library: the wallet constructor wants 32 bytes
    written as 0x and 64 characters; the contract constructor wants the
    ABI to be a JSON array. *)
Definition wallets (key : option string) : option Js.Error :=
  match key with
  | Some k => if (String.length k =? 66)%nat then None else Some invalidKey
  | None => Some invalidKey
  end.

Definition contracts (address : string) (abi : Abi) : option Js.Error :=
  if String.prefix "[" abi then None else Some notIterable.

(** The node answers the listed attempts, then accepts everything. *)
Definition scripted (l : list Attempt) (balance : result Z) : Env :=
  {| draws := fun _ => (1 # 2)%Q;
     clock := fun n => 1700000012345 + 1000 * Z.of_nat n;
     node := fun n => nth n l succeeds;
     chain := fun _ => balance;
     startupFiles := filesOk;
     PRIVATE_KEY := Some goodKey;
     ethers_Wallet := wallets;
     ethers_Contract := contracts |}.

(** Scenarios. *)
Definition calm : Env := scripted [] (Ok 0).
Definition funded : Env := scripted [] (Ok 250).
Definition approved : Env := scripted [] (Ok MaxUint256).
Definition unreachable : Env := scripted [] (Throw networkError).
Definition allRateLimited : Env :=
  scripted (repeat (rejected rateLimitError filesOk) 5) (Ok 0).
Definition fatalFirst : Env := scripted [rejected revertError filesOk] (Ok 0).
Definition twoFailovers : Env :=
  scripted [rejected networkError filesOk; rejected networkError filesOk] (Ok 0).
Definition fourthTime : Env :=
  scripted [rejected rateLimitText filesOk; rejected networkError filesOk;
            rejected rateLimitError filesOk] (Ok 0).
Definition mixedFailures : Env :=
  scripted [rejected networkError filesOk; rejected rateLimitError filesOk;
            rejected revertError filesOk] (Ok 0).
Definition brokenDisk : Env := scripted [rejected networkError filesGone] (Ok 0).

(** An ABI file that holds a JSON object instead of an array. *)
Definition filesObject : string -> result Abi := fun _ => Ok "{}".
Definition objectAbi : Env := scripted [rejected networkError filesObject] (Ok 0).

(** The key of the README's example, left as it is. *)
Definition placeholder : Env :=
  {| draws := fun _ => (1 # 2)%Q;
     clock := fun n => 1700000012345 + 1000 * Z.of_nat n;
     node := fun _ => succeeds;
     chain := fun _ => Ok 0;
     startupFiles := filesOk;
     PRIVATE_KEY := Some placeholderKey;
     ethers_Wallet := wallets;
     ethers_Contract := contracts |}.

(** No key in the environment of the process. *)
Definition keyless : Env :=
  {| draws := fun _ => (1 # 2)%Q;
     clock := fun n => 1700000012345 + 1000 * Z.of_nat n;
     node := fun _ => succeeds;
     chain := fun _ => Ok 0;
     startupFiles := filesOk;
     PRIVATE_KEY := None;
     ethers_Wallet := wallets;
     ethers_Contract := contracts |}.

(** Draws at the two ends of the range of [Math.random()]. *)
Definition highDraws : Env :=
  {| draws := fun _ => Double.below_one;
     clock := fun n => 1700000012345 + 1000 * Z.of_nat n;
     node := fun _ => rejected rateLimitError filesOk;
     chain := fun _ => Ok 0;
     startupFiles := filesOk;
     PRIVATE_KEY := Some goodKey;
     ethers_Wallet := wallets;
     ethers_Contract := contracts |}.

(** A run of draws whose first one falls below 1/10. *)
Definition leadingZero : Env :=
  {| draws := fun n => match n with O => (1 # 16)%Q | _ => (1 # 2)%Q end;
     clock := fun _ => 1700000012345;
     node := fun _ => succeeds;
     chain := fun _ => Ok 0;
     startupFiles := filesOk;
     PRIVATE_KEY := Some goodKey;
     ethers_Wallet := wallets;
     ethers_Contract := contracts |}.

(** A day on which the clock has moved by more than 24 hours between
    two readings. *)
Definition slowDay : Env :=
  {| draws := fun _ => (1 # 2)%Q;
     clock := fun n => 1700000012345 + 50000000 * Z.of_nat n;
     node := fun _ => succeeds;
     chain := fun _ => Ok 0;
     startupFiles := filesOk;
     PRIVATE_KEY := Some goodKey;
     ethers_Wallet := wallets;
     ethers_Contract := contracts |}.

(** The state after the [initializeConnections()] that opens [main]. *)
Definition ready : World := snd (initializeConnections calm filesOk boot).

End Demo.

(* ================================================================== *)
(** ** Notions used to state the properties *)

(** The error the [try] block of an iteration raises when the connection
    is in place ([None]: the transaction is submitted and confirmed). *)
Definition raised (a : Attempt) : option Js.Error :=
  match feeData a with
  | Throw e => Some e
  | Ok None => Some (Js.TypeError "Cannot mix BigInt and other types")
  | Ok (Some _) =>
      match sent a with
      | Throw e => Some e
      | Ok _ => match mined a with
                | Throw e => Some e
                | Ok _ => None
                end
      end
  end.

(** The Attempt Outcome of an iteration. *)
Definition outcome (a : Attempt) : Outcome :=
  match raised a with
  | None => Confirmed
  | Some e => classify e
  end.

(** The exception [initializeConnections] throws when it runs on the file
    system [files], if it throws: the wallet constructor comes first, then
    the two ABI files are loaded, then the two contracts are constructed.
    [None]: the connection is rebuilt and the call returns. *)
Definition rebuild_fault (env : Env) (files : string -> result Abi) : option Js.Error :=
  match ethers_Wallet env (PRIVATE_KEY env) with
  | Some e => Some e
  | None =>
      match files "./abi/mintContract.json" with
      | Throw e => Some e
      | Ok mintContractABI =>
          match files "./abi/wrapperContract.json" with
          | Throw e => Some e
          | Ok wrapperContractABI =>
              match ethers_Contract env MINT_CONTRACT_ADDRESS mintContractABI with
              | Some e => Some e
              | None => ethers_Contract env WRAPPER_CONTRACT_ADDRESS wrapperContractABI
              end
          end
      end
  end.

(** An iteration after which the loop goes round again: a rate limit, or
    a network failure whose rebuild of the connection returns. *)
Definition retriable (env : Env) (a : Attempt) : Prop :=
  outcome a = RateLimited
  \/ (outcome a = NetworkFailure /\ rebuild_fault env (abiFiles a) = None).

(** All four handles are defined (true from the first
    [initializeConnections()] on). *)
Definition connected (w : World) : Prop :=
  provider w <> None /\ wallet w <> None /\
  mintContract w <> None /\ wrapperContract w <> None.

(** The index designates an endpoint of the pool. *)
Definition valid_index (w : World) : Prop :=
  0 <= currentRpcIndex w < RPC_URLS_length.

(** Nothing but the trace and the cursor of random draws has moved. *)
Definition steady (w w' : World) : Prop :=
  currentRpcIndex w' = currentRpcIndex w /\
  provider w' = provider w /\ wallet w' = wallet w /\
  mintContract w' = mintContract w /\ wrapperContract w' = wrapperContract w /\
  attempts w' = attempts w /\ reads w' = reads w /\ clockReads w' = clockReads w.

(** Number of "Network issue ... Switching RPC" warnings in a trace. *)
Definition is_failover (e : Event) : bool :=
  match e with Console WARN (NetworkIssue _) => true | _ => false end.

Definition failovers (t : list Event) : Z :=
  Z.of_nat (List.length (filter is_failover t)).

(** The transactions submitted in a trace, oldest first. *)
Definition submitted (t : list Event) : list Action :=
  flat_map (fun e => match e with Submitted _ a _ => [a] | _ => [] end) t.

(** The console lines of a trace, oldest first. *)
Definition console (t : list Event) : list Line :=
  flat_map (fun e => match e with Console _ l => [l] | _ => [] end) t.

(** The branch of the catch block a console line belongs to. *)
Definition branch_of (l : Line) : option Outcome :=
  match l with
  | RateLimitOnAttempt _ _ => Some RateLimited
  | NetworkIssue _ => Some NetworkFailure
  | FatalDuring _ _ => Some FatalError
  | _ => None
  end.

(** The event a run appended first. *)
Definition first_new (w w' : World) : option Event :=
  nth_error (trace w') (List.length (trace w)).

(** [currentRpcIndex = (currentRpcIndex + 1) % RPC_URLS.length]. *)
Definition advance (i : Z) : Z := Z.rem (i + 1) RPC_URLS_length.

(** The index after [j] retriable attempts from [start] on: one step per
    NetworkFailure outcome. *)
Fixpoint index_after (env : Env) (start j : nat) (i : Z) : Z :=
  match j with
  | O => i
  | S j' =>
      index_after env (S start) j'
        (match outcome (node env start) with NetworkFailure => advance i | _ => i end)
  end.

(** Decimal digits, and strings made of them only. *)
Definition is_digit (c : ascii) : bool :=
  let n := nat_of_ascii c in ((48 <=? n)%nat && (n <=? 57)%nat)%bool.

Fixpoint all_digits (s : string) : bool :=
  match s with
  | EmptyString => true
  | String c s' => is_digit c && all_digits s'
  end.

(** The digits [getRandomTokenID] draws, as a function of the environment. *)
Fixpoint drawn_digits (env : Env) (start n : nat) : string :=
  match n with
  | O => ""
  | S n' =>
      Js.charAt characters
        (Qfloor (Js.times (draws env start) (inject_Z (Z.of_nat (String.length characters)))))
      ++ drawn_digits env (S start) n'
  end.

(** A number is a double when rounding leaves it as it is. *)
Definition is_double (r : Q) : Prop := (Double.round r == r)%Q.

(** A draw of [Math.random()] is a double in [0, 1). *)
Definition unit_draw (r : Q) : Prop := is_double r /\ (0 <= r)%Q /\ (r < 1)%Q.

(* ================================================================== *)
(** ** Further notions: what the executor may add to the trace *)

(** The value [randomDelay(min, max)] computes from one draw. *)
Definition delay_of (r : Q) (min max : Z) : Z :=
  Qfloor (Js.plus (Js.times r (Js.plus (Js.minus (inject_Z max) (inject_Z min)) 1))
                  (inject_Z min)).

(** The largest value [randomDelay(min, max)] takes: the one of the
    largest draw. *)
Definition delay_max (min max : Z) : Z := delay_of Double.below_one min max.

(** Every draw of the environment lies in [0, 1). *)
Definition fair (env : Env) : Prop := forall n, unit_draw (draws env n).

Definition is_confirmation (e : Event) : bool :=
  match e with Console LOG (TxConfirmed _ _) => true | _ => false end.

(** Number of "confirmed in block" lines in a trace. *)
Definition confirmations (t : list Event) : nat :=
  List.length (filter is_confirmation t).

(** What one iteration of the retry loop for [fn] may add to the trace
    while the node behaves as [a]: submissions of [fn] only, priced at the
    fee of [a] plus 1 to 100; sleeps of 2000 ms (failover) or of 60000 to
    120001 ms (back-off: in double precision the largest draw gives one
    more than the maximum asked for); no contract read. *)
Definition attempt_event (fn : Action) (a : Attempt) (e : Event) : Prop :=
  match e with
  | Submitted _ x gasPrice =>
      x = fn /\ exists g, feeData a = Ok (Some g) /\ g + 1 <= gasPrice <= g + 100
  | Slept ms => ms = 2000 \/ 60000 <= ms <= 120001
  | Viewed _ _ => False
  | _ => True
  end.

(** The same before anything is assumed about the draws: the price is the
    fee plus [randomDelay(1, 100)], a back-off is [randomDelay(60000, 120000)]. *)
Definition attempt_step (env : Env) (fn : Action) (a : Attempt) (e : Event) : Prop :=
  match e with
  | Submitted _ x gasPrice =>
      x = fn /\ exists g n, feeData a = Ok (Some g)
                            /\ gasPrice = g + delay_of (draws env n) 1 100
  | Slept ms => ms = 2000 \/ exists n, ms = delay_of (draws env n) 60000 120000
  | Viewed _ _ => False
  | _ => True
  end.

(** The same for a whole call whose attempts start at cursor [start]. *)
Definition executor_event (env : Env) (fn : Action) (start : nat) (e : Event) : Prop :=
  exists i, (i < Z.to_nat MAX_RETRIES)%nat /\ attempt_event fn (node env (start + i)) e.

Ltac run_frame :=
  cbv [bind ret throw lift get modify print sleep deref try_catch construct
       next_attempt loadJson
       emit tick_reads tick_clock tick_drawn tick_attempts
       set_currentRpcIndex set_provider set_wallet set_mintContract set_wrapperContract
       currentRpcIndex provider wallet mintContract wrapperContract
       drawn clockReads attempts reads trace fst snd] in *.

(** All four handles exist and are bound to the endpoint [url]: the
    provider connects to it, the wallet uses that provider, and both
    contracts (at their fixed addresses) sign with that wallet. *)
Definition bound_to (url : option string) (w : World) : Prop :=
  let p := {| providerUrl := url |} in
  let wl := {| walletProvider := p |} in
  provider w = Some p
  /\ wallet w = Some wl
  /\ (exists abi, mintContract w
                  = Some {| contractAddress := MINT_CONTRACT_ADDRESS;
                            contractAbi := abi; contractRunner := wl |})
  /\ (exists abi, wrapperContract w
                  = Some {| contractAddress := WRAPPER_CONTRACT_ADDRESS;
                            contractAbi := abi; contractRunner := wl |}).

(** The first exception [initializeConnections] meets while it loads the
    two ABI files, in the order of the source; the files are only loaded
    once the wallet has been built. *)
Definition load_failure (env : Env) (files : string -> result Abi) : option Js.Error :=
  match ethers_Wallet env (PRIVATE_KEY env) with
  | Some _ => None
  | None =>
      match files "./abi/mintContract.json" with
      | Throw e => Some e
      | Ok _ => match files "./abi/wrapperContract.json" with
                | Throw e => Some e
                | Ok _ => None
                end
      end
  end.

(** The number a string of decimal digits denotes (Horner scheme). *)
Fixpoint decimal_value (s : string) (acc : Z) : Z :=
  match s with
  | EmptyString => acc
  | String c s' => decimal_value s' (10 * acc + (Z.of_nat (nat_of_ascii c) - 48))
  end.

(** The same on [Decimal.uint], most significant digit first. *)
Fixpoint horner (d : uint) (acc : N) : N :=
  match d with
  | Nil => acc
  | D0 d => horner d (10 * acc)
  | D1 d => horner d (1 + 10 * acc)
  | D2 d => horner d (2 + 10 * acc)
  | D3 d => horner d (3 + 10 * acc)
  | D4 d => horner d (4 + 10 * acc)
  | D5 d => horner d (5 + 10 * acc)
  | D6 d => horner d (6 + 10 * acc)
  | D7 d => horner d (7 + 10 * acc)
  | D8 d => horner d (8 + 10 * acc)
  | D9 d => horner d (9 + 10 * acc)
  end%N.

(** The state of [runDailyCycle] when it reaches its first transaction:
    the opening lines are printed, the clock has been read once and the
    pair goal has been drawn. *)
Definition cycle_opened (env : Env) (w : World) : World :=
  let goal := delay_of (draws env (drawn w)) 25 50 in
  emit (Console LOG (Phase 1))
    (emit (Console LOG (DailyGoal (goal * 2) goal))
       (tick_drawn
          (emit (Console LOG Banner)
             (emit (Console LOG (CycleStarting (clock env (clockReads w))))
                (tick_clock (emit (Console LOG Banner) w)))))).

(* ================================================================== *)
(** ** The process: the [main] functions and their top-level handler *)

(** Console lines of the continuous-mode [main] and of the handler
    installed by [main().catch(...)], one constructor per message
    template.  They are kept in a journal of their own; each entry is
    stamped with the length of the trace when it was printed, so the order
    of journal entries and trace events is not lost. *)
Inductive Notice :=
| InitialSetup
| InitialApprovalFailed
| SetupComplete
| Rule
| StartingPair (n : Z) (now : Z)
| MintCheckFailed
| ExecutingPairFor (id : Z)
| WrapSuccessful (interTxDelay : Z)
| PairCompleted (n : Z)
| WaitingForNextPair (mainDelay : Z)
| UnwrapFailed
| WrapFailed
| UnexpectedError (error : Js.Error)
| MissingPrivateKey.

Record Entry := { stamp : nat; level : Level; notice : Notice }.

Record Session := { world : World; journal : list Entry }.

(** How a computation of the process ends: it returns, it throws (the
    promise is rejected), or the process has exited. *)
Inductive ending (A : Type) :=
| Returned (a : A)
| Raised (e : Js.Error)
| Exited (code : Z).

Arguments Returned {A} a.
Arguments Raised {A} e.
Arguments Exited {A} code.

Definition Proc (A : Type) : Type := Session -> ending A * Session.

Definition pret {A} (a : A) : Proc A := fun s => (Returned a, s).

Definition pbind {A B} (m : Proc A) (k : A -> Proc B) : Proc B :=
  fun s => match m s with
           | (Returned a, s') => k a s'
           | (Raised e, s') => (Raised e, s')
           | (Exited code, s') => (Exited code, s')
           end.

(** Running a function of the script inside the process. *)
Definition perform {A} (m : M A) : Proc A :=
  fun s => match m (world s) with
           | (Ok a, w) => (Returned a, {| world := w; journal := journal s |})
           | (Throw e, w) => (Raised e, {| world := w; journal := journal s |})
           end.

Definition note (lvl : Level) (n : Notice) : Proc unit :=
  fun s => (Returned tt,
            {| world := world s;
               journal := journal s
                          ++ [ {| stamp := List.length (trace (world s));
                                  level := lvl; notice := n |} ] |}).

(** [process.exit(code)]. *)
Definition process_exit {A} (code : Z) : Proc A := fun s => (Exited code, s).

(** [promise.catch(handler)]. *)
Definition on_rejection {A} (m : Proc A) (handler : Js.Error -> Proc A) : Proc A :=
  fun s => match m s with
           | (Raised e, s') => handler e s'
           | r => r
           end.

Notation "x <~ m ;; k" := (pbind m (fun x => k))
  (at level 100, m at next level, right associativity) : js_scope.
Notation "m >>> k" := (pbind m (fun _ => k))
  (at level 100, right associativity) : js_scope.

Section Process.

Variable env : Env.

(** One turn of the [while (true)] loop of the continuous-mode [main];
    the result is the new value of [successfulPairs]. *)
Definition pair_turn (successfulPairs : Z) : Proc Z :=
  note LOG Rule >>>
  now <~ perform (Date_now env) ;;
  note LOG (StartingPair (successfulPairs + 1) now) >>>
  note LOG Rule >>>
  readyToWrap <~ perform (checkAndMintIfNeeded env) ;;
  if negb readyToWrap then
    note WARN MintCheckFailed >>>
    perform (sleep 120000) >>>
    pret successfulPairs
  else
    randomID <~ perform (getRandomTokenID env 18) ;;
    note LOG (ExecutingPairFor randomID) >>>
    wrapSuccess <~ perform (executeTransaction env (Wrap randomID)
                              ("Wrap #" ++ Js.toString (successfulPairs + 1))) ;;
    if wrapSuccess : bool then
      interTxDelay <~ perform (randomDelay env 10000 30000) ;;
      note LOG (WrapSuccessful interTxDelay) >>>
      perform (sleep interTxDelay) >>>
      unwrapSuccess <~ perform (executeTransaction env (Unwrap randomID)
                                  ("Unwrap #" ++ Js.toString (successfulPairs + 1))) ;;
      if unwrapSuccess : bool then
        let successfulPairs := successfulPairs + 1 in
        note LOG (PairCompleted successfulPairs) >>>
        mainDelay <~ perform (randomDelay env (300 * 1000) (600 * 1000)) ;;
        note LOG (WaitingForNextPair mainDelay) >>>
        perform (sleep mainDelay) >>>
        pret successfulPairs
      else
        note ERROR UnwrapFailed >>>
        perform (sleep 60000) >>>
        pret successfulPairs
    else
      note ERROR WrapFailed >>>
      perform (sleep 60000) >>>
      pret successfulPairs.

(** The loop never exits; [turns] turns of it are observed. *)
Fixpoint pair_turns (turns : nat) (successfulPairs : Z) : Proc Z :=
  match turns with
  | O => pret successfulPairs
  | S turns' =>
      successfulPairs <~ pair_turn successfulPairs ;;
      pair_turns turns' successfulPairs
  end.

(** The continuous-mode [main]. *)
Definition continuous_main (turns : nat) : Proc Z :=
  perform (initializeConnections env (startupFiles env)) >>>
  note LOG InitialSetup >>>
  setupSuccess <~ perform (checkAndApproveIfNeeded env) ;;
  (if negb setupSuccess then
     note ERROR InitialApprovalFailed >>>
     perform (sleep 60000) >>>
     process_exit 1
   else pret tt) >>>
  note LOG SetupComplete >>>
  pair_turns turns 0.

(** The handler both scripts install on [main()]. *)
Definition fatal_handler {A} (error : Js.Error) : Proc A :=
  note ERROR (UnexpectedError error) >>>
  process_exit 1.

(** [main().catch(...)] of the continuous-mode script. *)
Definition continuous_entry (turns : nat) : Proc Z :=
  on_rejection (continuous_main turns) fatal_handler.

(** [main().catch(...)] of the batch-mode script. *)
Definition batch_entry (days : nat) : Proc unit :=
  on_rejection (perform (main env days)) fatal_handler.

(** [!PRIVATE_KEY]: the variable is undefined or the empty string. *)
Definition key_missing (key : option string) : bool :=
  match key with
  | Some k => negb (Js.truthy k)
  | None => true
  end.

(** The check both modules make while they are loaded, before anything
    else runs. *)
Definition configuration : Proc unit :=
  if key_missing (PRIVATE_KEY env) then
    note ERROR MissingPrivateKey >>>
    process_exit 1
  else pret tt.

(** The scripts from top to bottom: the configuration check, then
    [main().catch(...)]. *)
Definition continuous_script (turns : nat) : Proc Z :=
  configuration >>> continuous_entry turns.

Definition batch_script (days : nat) : Proc unit :=
  configuration >>> batch_entry days.

End Process.

(** The process as it starts: the module-level variables of the script
    and an empty journal. *)
Definition launch : Session := {| world := boot; journal := [] |}.

(* ================================================================== *)
(** ** What can end the scripts *)

(** [e] is the exception of an [initializeConnections()] that fails (the
    key is rejected, an ABI file cannot be read, or an ABI is rejected): at
    startup, or during some attempt, when a failover rebuilds the
    connection. *)
Definition connect_failure (env : Env) (e : Js.Error) : Prop :=
  rebuild_fault env (startupFiles env) = Some e
  \/ (exists i, outcome (node env i) = NetworkFailure
                /\ rebuild_fault env (abiFiles (node env i)) = Some e).

(** The clock shows a timestamp of at least five digits. *)
Definition timed (env : Env) : Prop := forall n, 10000 <= clock env n.

(** Every exception [m] can throw satisfies [P]. *)
Definition throws_only {A} (P : Js.Error -> Prop) (m : M A) : Prop :=
  forall w e w', m w = (Throw e, w') -> P e.

(** The same for a computation of the process, and for its exits. *)
Definition raises_only {A} (P : Js.Error -> Prop) (m : Proc A) : Prop :=
  forall s e s', m s = (Raised e, s') -> P e.

Definition exits_only {A} (Q : Z -> Session -> Prop) (m : Proc A) : Prop :=
  forall s code s', m s = (Exited code, s') -> Q code s'.

(** The process has just announced the failed initial approval and slept
    one minute. *)
Definition approval_failed (s : Session) : Prop :=
  exists pre t,
    journal s = (pre ++ [ {| stamp := List.length t; level := ERROR;
                             notice := InitialApprovalFailed |} ])%list
    /\ trace (world s) = (t ++ [Slept 60000])%list.

(** The notice the process has written last. *)
Definition last_notice (journal : list Entry) : option Notice :=
  match List.rev journal with
  | entry :: _ => Some (notice entry)
  | [] => None
  end.

(** The process has written that the private key is missing, and nothing
    else has happened since [s]. *)
Definition key_reported (s s' : Session) : Prop :=
  world s' = world s
  /\ journal s' = (journal s ++ [ {| stamp := List.length (trace (world s)); level := ERROR;
                                     notice := MissingPrivateKey |} ])%list.

(** The last thing the process has written is the report of the uncaught
    exception [e]. *)
Definition reported (e : Js.Error) (s : Session) : Prop :=
  exists pre,
    journal s = (pre ++ [ {| stamp := List.length (trace (world s)); level := ERROR;
                             notice := UnexpectedError e |} ])%list.

(** Hints for showing that a computation throws, raises or exits only in
    given ways. *)
Create HintDb quiet.

(** From a comparison of rationals to the order it decides. *)
Ltac qcmp H :=
  match type of H with
  | Qcompare _ _ = Eq => apply Qeq_alt in H
  | Qcompare _ _ = Lt => apply Qlt_alt in H
  | Qcompare _ _ = Gt => apply Qgt_alt in H
  end.

(** Case analysis on the next call of a run known to return. *)
Ltac next_call H :=
  match type of H with
  | context [match ?x with pair _ _ => _ end] =>
      lazymatch x with
      | context [match _ with pair _ _ => _ end] => fail
      | _ =>
          let r := fresh "r" in
          let w := fresh "w" in
          let E := fresh "E" in
          destruct x as [[r|r] w] eqn:E; [|discriminate H]
      end
  end.

(* ================================================================== *)
(** ** Tactics that run the monad *)

Ltac run :=
  cbv [bind ret throw lift get modify print sleep deref try_catch construct
       Math_random Date_now randomDelay next_attempt loadJson] in *.

Ltac run_world :=
  cbv [bind ret throw lift get modify print sleep deref try_catch construct
       Math_random Date_now randomDelay next_attempt loadJson view
       emit tick_reads tick_clock tick_drawn tick_attempts
       set_currentRpcIndex set_provider set_wallet set_mintContract set_wrapperContract
       currentRpcIndex provider wallet mintContract wrapperContract
       drawn clockReads attempts reads trace fst snd] in *.

(** The five places where [initializeConnections], run on the files of
    [a], may throw, in the order of the source. *)
Ltac rebuild_cases env files :=
  destruct (ethers_Wallet env (PRIVATE_KEY env)); cbv beta iota;
  [| destruct (files "./abi/mintContract.json"); cbv beta iota;
     [ destruct (files "./abi/wrapperContract.json"); cbv beta iota;
       [ destruct (ethers_Contract env MINT_CONTRACT_ADDRESS _); cbv beta iota;
         [| destruct (ethers_Contract env WRAPPER_CONTRACT_ADDRESS _); cbv beta iota ]
       | ]
     | ] ].

(** Splitting a connected world into its fields. *)
Ltac open_connected w H :=
  let i := fresh "idx" in
  destruct w as [i [?|] [?|] [?|] [?|] ? ? ? ? ?];
  try (exfalso; unfold connected in H; simpl in H; tauto).

(* ================================================================== *)
(** ** Rounding to the nearest double *)

Module DoubleFacts.
Import Double.
Local Open Scope Q_scope.

Lemma pow2_pos e : 0 < pow2 e.
Proof. apply Qpower_0_lt. reflexivity. Qed.

Lemma pow2_add a b : pow2 (a + b) == pow2 a * pow2 b.
Proof. apply Qpower_plus. discriminate. Qed.

Lemma pow2_le a b : (a <= b)%Z -> pow2 a <= pow2 b.
Proof. intros H. apply Qpower_le_compat_l; [exact H | discriminate]. Qed.

Lemma pow2_lt a b : (a < b)%Z -> pow2 a < pow2 b.
Proof. intros H. apply Qpower_lt_compat_l; [exact H | reflexivity]. Qed.

Lemma pow2_lt_inv a b : pow2 a < pow2 b -> (a < b)%Z.
Proof. intros H. apply (Qpower_lt_compat_l_inv 2); [exact H | reflexivity]. Qed.

Lemma pow2_Z e : (0 <= e)%Z -> pow2 e == inject_Z (2 ^ e).
Proof. intros H. unfold pow2. rewrite Zpower_Qpower by exact H. reflexivity. Qed.

Lemma pow2_cancel e : pow2 (- e) * pow2 e == 1.
Proof. rewrite <- pow2_add. replace (- e + e)%Z with 0%Z by lia. reflexivity. Qed.

Lemma pow2_cancel' e : pow2 e * pow2 (- e) == 1.
Proof. rewrite Qmult_comm. apply pow2_cancel. Qed.


Lemma pow2_succ e : pow2 (e + 1) == 2 * pow2 e.
Proof. rewrite pow2_add. change (pow2 1) with 2. ring. Qed.

Lemma log2_bounds (n : Z) :
  (0 < n)%Z -> pow2 (Z.log2 n) <= inject_Z n /\ inject_Z n < pow2 (Z.log2 n + 1).
Proof.
  intros H. destruct (Z.log2_spec n H) as [H1 H2].
  pose proof (Z.log2_nonneg n) as Hn.
  rewrite !pow2_Z by lia. rewrite <- Zle_Qle, <- Zlt_Qlt.
  split; [exact H1 | exact H2].
Qed.

Lemma ilog2_candidates (x : Q) :
  0 < x ->
  let l := (Z.log2 (Qnum x) - Z.log2 (Zpos (Qden x)))%Z in
  pow2 (l - 1) <= x /\ x < pow2 (l + 1).
Proof.
  intros Hx l. destruct x as [n d].
  assert (Hn : (0 < n)%Z) by (unfold Qlt in Hx; simpl in Hx; lia).
  destruct (log2_bounds n Hn) as [Ha1 Ha2].
  destruct (log2_bounds (Zpos d) eq_refl) as [Hb1 Hb2].
  cbn [Qnum Qden] in l.
  set (a := Z.log2 n) in *. set (b := Z.log2 (Zpos d)) in *.
  assert (HN : inject_Z n == (n # d) * inject_Z (Zpos d)).
  { unfold Qeq, Qmult, inject_Z. cbn [Qnum Qden]. rewrite Pos.mul_1_r. ring. }
  set (X := n # d) in *. set (D := inject_Z (Zpos d)) in *. set (N := inject_Z n) in *.
  assert (HT : pow2 (a - b) * pow2 b == pow2 a).
  { rewrite <- pow2_add. replace (a - b + b)%Z with a by lia. reflexivity. }
  pose proof (pow2_pos (a - b)) as HTp. pose proof (pow2_pos b) as HPp.
  rewrite pow2_succ in Ha2, Hb2.
  subst l.
  replace (a - b - 1)%Z with (a - b + -1)%Z by lia.
  rewrite pow2_add, pow2_succ. change (pow2 (-1)) with (1 # 2).
  set (T := pow2 (a - b)) in *. set (P := pow2 b) in *. set (A := pow2 a) in *.
  split.
  - apply Qnot_lt_le. intros Hc.
    assert (X * D < T * P); [|lra].
    apply Qlt_le_trans with ((T * (1 # 2)) * D).
    + apply Qmult_lt_compat_r; [lra | exact Hc].
    + setoid_replace (T * (1 # 2) * D) with (T * ((1 # 2) * D)) by ring.
      apply Qmult_le_l; [exact HTp | lra].
  - apply Qnot_le_lt. intros Hc.
    assert (2 * (T * P) <= X * D); [|lra].
    apply Qle_trans with ((2 * T) * P); [ring_simplify; apply Qle_refl|].
    apply Qle_trans with ((2 * T) * D).
    + apply Qmult_le_l; [lra | exact Hb1].
    + apply Qmult_le_compat_r; [exact Hc | lra].
Qed.

Lemma ilog2_spec x : 0 < x -> pow2 (ilog2 x) <= x /\ x < pow2 (ilog2 x + 1).
Proof.
  intros Hx. destruct (ilog2_candidates x Hx) as [Hlo Hhi]. unfold ilog2.
  set (l := (Z.log2 (Qnum x) - Z.log2 (Zpos (Qden x)))%Z) in *.
  destruct (Qle_bool (pow2 l) x) eqn:E.
  - apply Qle_bool_iff in E. split; assumption.
  - split; [exact Hlo|]. replace (l - 1 + 1)%Z with l by lia.
    apply Qnot_le_lt. intros Hc. apply Qle_bool_iff in Hc. congruence.
Qed.

Lemma ilog2_unique x l : pow2 l <= x -> x < pow2 (l + 1) -> ilog2 x = l.
Proof.
  intros H1 H2.
  assert (Hx : 0 < x) by (pose proof (pow2_pos l); lra).
  destruct (ilog2_spec x Hx) as [H3 H4].
  assert (l < ilog2 x + 1)%Z by (apply pow2_lt_inv; lra).
  assert (ilog2 x < l + 1)%Z by (apply pow2_lt_inv; lra).
  lia.
Qed.

Lemma ilog2_mono x y : 0 < x -> x <= y -> (ilog2 x <= ilog2 y)%Z.
Proof.
  intros Hx Hxy.
  destruct (ilog2_spec x Hx) as [H1 _].
  destruct (ilog2_spec y ltac:(lra)) as [_ H2].
  assert (ilog2 x < ilog2 y + 1)%Z by (apply pow2_lt_inv; lra).
  lia.
Qed.

Lemma ilog2_comp x y : 0 < x -> x == y -> ilog2 x = ilog2 y.
Proof.
  intros Hx E. destruct (ilog2_spec x Hx) as [H1 H2].
  symmetry. apply ilog2_unique; lra.
Qed.


Lemma rne_cases x :
  rne x = Qfloor x \/ rne x = (Qfloor x + 1)%Z.
Proof.
  unfold rne. destruct (Qcompare _ _); [destruct (Z.even _)| |]; auto.
Qed.

Lemma rne_comp x y : x == y -> rne x = rne y.
Proof.
  intros E. unfold rne. rewrite (Qfloor_comp _ _ E).
  rewrite (Qcompare_comp _ _ (ltac:(rewrite E; reflexivity) : x - inject_Z (Qfloor y) == y - inject_Z (Qfloor y))
             (1 # 2) (1 # 2) (Qeq_refl _)).
  reflexivity.
Qed.

Lemma rne_Z z : rne (inject_Z z) = z.
Proof.
  unfold rne. rewrite Qfloor_Z.
  assert (E : Qcompare (inject_Z z - inject_Z z) (1 # 2) = Lt).
  { rewrite <- Qlt_alt. lra. }
  rewrite E. reflexivity.
Qed.

Lemma rne_mono x y : x <= y -> (rne x <= rne y)%Z.
Proof.
  intros H. pose proof (Qfloor_resp_le _ _ H) as Hf.
  destruct (Z.eq_dec (Qfloor x) (Qfloor y)) as [E|NE].
  - unfold rne. rewrite <- E.
    destruct (Qcompare (x - inject_Z (Qfloor x)) (1 # 2)) eqn:Cx;
      destruct (Qcompare (y - inject_Z (Qfloor x)) (1 # 2)) eqn:Cy;
      try (destruct (Z.even (Qfloor x))); try lia; exfalso;
      qcmp Cx; qcmp Cy; lra.
  - destruct (rne_cases x) as [-> | ->]; destruct (rne_cases y) as [-> | ->]; lia.
Qed.

Lemma rne_ge z x : inject_Z z <= x -> (z <= rne x)%Z.
Proof. intros H. rewrite <- (rne_Z z). apply rne_mono. exact H. Qed.

Lemma rne_le z x : x <= inject_Z z -> (rne x <= z)%Z.
Proof. intros H. rewrite <- (rne_Z z). apply rne_mono. exact H. Qed.

Lemma exponent_mono x y : 0 < x -> x <= y -> (exponent x <= exponent y)%Z.
Proof. intros Hx H. unfold exponent. pose proof (ilog2_mono x y Hx H). lia. Qed.

(** Scaled by its exponent, a positive number is below 2^53; above the
    subnormal range it is at least 2^52. *)
Lemma scaled_lt x : 0 < x -> x * pow2 (- exponent x) < inject_Z (2 ^ 53).
Proof.
  intros Hx. destruct (ilog2_spec x Hx) as [_ H].
  rewrite <- (pow2_Z 53) by lia.
  assert (Hle : pow2 (ilog2 x + 1) <= pow2 (53 + exponent x))
    by (apply pow2_le; unfold exponent; lia).
  rewrite (pow2_add 53) in Hle.
  pose proof (pow2_cancel' (exponent x)) as Hc.
  pose proof (pow2_pos (- exponent x)) as Hp.
  apply Qlt_le_trans with (pow2 53 * pow2 (exponent x) * pow2 (- exponent x)).
  - apply Qmult_lt_compat_r; [exact Hp | eapply Qlt_le_trans; [exact H | exact Hle]].
  - rewrite <- Qmult_assoc, Hc, Qmult_1_r. apply Qle_refl.
Qed.

Lemma scaled_ge x :
  0 < x -> (-1074 < exponent x)%Z -> inject_Z (2 ^ 52) <= x * pow2 (- exponent x).
Proof.
  intros Hx He. destruct (ilog2_spec x Hx) as [H _].
  rewrite <- (pow2_Z 52) by lia.
  assert (E : ilog2 x = (52 + exponent x)%Z) by (unfold exponent in *; lia).
  rewrite E, (pow2_add 52) in H.
  pose proof (pow2_cancel' (exponent x)) as Hc.
  pose proof (pow2_pos (- exponent x)) as Hp.
  apply Qle_trans with (pow2 52 * pow2 (exponent x) * pow2 (- exponent x)).
  - rewrite <- Qmult_assoc, Hc, Qmult_1_r. apply Qle_refl.
  - apply Qmult_le_compat_r; [exact H | apply Qlt_le_weak; exact Hp].
Qed.

Lemma round_pos_mono x y : 0 < x -> x <= y -> round_pos x <= round_pos y.
Proof.
  intros Hx H. assert (Hy : 0 < y) by lra.
  pose proof (exponent_mono x y Hx H) as He.
  unfold round_pos. cbv zeta.
  destruct (Z.eq_dec (exponent x) (exponent y)) as [E|NE].
  - rewrite E. apply Qmult_le_compat_r; [|pose proof (pow2_pos (exponent y)); lra].
    rewrite <- Zle_Qle. apply rne_mono.
    apply Qmult_le_compat_r; [exact H | pose proof (pow2_pos (- exponent y)); lra].
  - assert (Hlt : (exponent x < exponent y)%Z) by lia.
    apply Qle_trans with (pow2 (52 + exponent y)).
    + apply Qle_trans with (pow2 (53 + exponent x)); [|apply pow2_le; lia].
      rewrite pow2_add. apply Qmult_le_compat_r; [|pose proof (pow2_pos (exponent x)); lra].
      rewrite (pow2_Z 53) by lia. rewrite <- Zle_Qle. apply rne_le.
      pose proof (scaled_lt x Hx). lra.
    + rewrite pow2_add. apply Qmult_le_compat_r; [|pose proof (pow2_pos (exponent y)); lra].
      rewrite (pow2_Z 52) by lia. rewrite <- Zle_Qle. apply rne_ge.
      apply scaled_ge; [exact Hy|]. unfold exponent in *. lia.
Qed.

Lemma round_pos_nonneg x : 0 < x -> 0 <= round_pos x.
Proof.
  intros Hx. unfold round_pos. cbv zeta.
  apply Qmult_le_0_compat; [|pose proof (pow2_pos (exponent x)); lra].
  change 0 with (inject_Z 0). rewrite <- Zle_Qle. apply rne_ge.
  apply Qmult_le_0_compat; [lra | pose proof (pow2_pos (- exponent x)); lra].
Qed.

Lemma round_mono x y : x <= y -> round x <= round y.
Proof.
  intros H. unfold round.
  destruct (Qcompare x 0) eqn:Cx; destruct (Qcompare y 0) eqn:Cy;
    qcmp Cx; qcmp Cy; try (exfalso; lra).
  - lra.
  - apply round_pos_nonneg. exact Cy.
  - pose proof (round_pos_nonneg (- x)). lra.
  - pose proof (round_pos_mono (- y) (- x)). lra.
  - pose proof (round_pos_nonneg (- x)). pose proof (round_pos_nonneg y). lra.
  - apply round_pos_mono; assumption.
Qed.

Lemma round_pos_comp x y : 0 < x -> x == y -> round_pos x == round_pos y.
Proof.
  intros Hx E. unfold round_pos, exponent. cbv zeta.
  rewrite (ilog2_comp x y Hx E).
  rewrite (rne_comp (x * pow2 (- Z.max (ilog2 y - 52) (-1074)))
                    (y * pow2 (- Z.max (ilog2 y - 52) (-1074)))) by (rewrite E; reflexivity).
  reflexivity.
Qed.

Lemma round_comp x y : x == y -> round x == round y.
Proof.
  intros E. unfold round. rewrite (Qcompare_comp x y E 0 0 (Qeq_refl 0)).
  destruct (Qcompare y 0) eqn:C.
  - reflexivity.
  - qcmp C. rewrite (round_pos_comp (- x) (- y)); [reflexivity | lra | rewrite E; reflexivity].
  - qcmp C. apply round_pos_comp; [lra | exact E].
Qed.


(** Integers below 2^53 in absolute value are doubles. *)
Lemma round_pos_Z z : (0 < z < 2 ^ 53)%Z -> round_pos (inject_Z z) == inject_Z z.
Proof.
  intros Hz. unfold round_pos, exponent. cbv zeta.
  assert (El : ilog2 (inject_Z z) = Z.log2 z).
  { destruct (log2_bounds z ltac:(lia)) as [H1 H2]. apply ilog2_unique; assumption. }
  rewrite El.
  assert (Hl : (0 <= Z.log2 z < 53)%Z).
  { split; [apply Z.log2_nonneg|]. apply Z.log2_lt_pow2; lia. }
  replace (Z.max (Z.log2 z - 52) (-1074)) with (Z.log2 z - 52)%Z by lia.
  set (k := (52 - Z.log2 z)%Z).
  replace (- (Z.log2 z - 52))%Z with k by lia.
  replace (Z.log2 z - 52)%Z with (- k)%Z by lia.
  rewrite (rne_comp (inject_Z z * pow2 k) (inject_Z (z * 2 ^ k))).
  2:{ rewrite inject_Z_mult, pow2_Z by lia. reflexivity. }
  rewrite rne_Z, inject_Z_mult, <- pow2_Z by lia.
  rewrite <- Qmult_assoc, pow2_cancel'. ring.
Qed.

Lemma round_Z z : (Z.abs z < 2 ^ 53)%Z -> round (inject_Z z) == inject_Z z.
Proof.
  intros Hz. unfold round.
  destruct (Qcompare (inject_Z z) 0) eqn:C.
  - qcmp C. rewrite C. reflexivity.
  - qcmp C. change 0 with (inject_Z 0) in C. rewrite <- Zlt_Qlt in C.
    rewrite <- inject_Z_opp, round_pos_Z by lia. rewrite inject_Z_opp. ring.
  - qcmp C. change 0 with (inject_Z 0) in C. rewrite <- Zlt_Qlt in C.
    apply round_pos_Z. lia.
Qed.

Lemma round_0 : round 0 == 0.
Proof. reflexivity. Qed.

Lemma round_nonneg x : 0 <= x -> 0 <= round x.
Proof. intros H. rewrite <- round_0. apply round_mono. exact H. Qed.

Lemma double_below_one r : round r == r -> r < 1 -> r <= below_one.
Proof.
  intros Hd H1. apply Qnot_lt_le. intros Hc. unfold below_one in Hc.
  assert (Hr : 0 < r) by lra.
  assert (El : ilog2 r = (-1)%Z).
  { apply ilog2_unique; [change (pow2 (-1)) with (1 # 2) | change (pow2 (-1 + 1)) with 1]; lra. }
  unfold round in Hd.
  assert (C : Qcompare r 0 = Gt) by (apply Qgt_alt; exact Hr).
  rewrite C in Hd. unfold round_pos, exponent in Hd. cbv zeta in Hd. rewrite El in Hd.
  change (Z.max (-1 - 52) (-1074)) with (-53)%Z in Hd.
  change (- -53)%Z with 53%Z in Hd.
  set (k := rne (r * pow2 53)) in *.
  change (pow2 (-53)) with (1 # 9007199254740992) in Hd.
  assert (Hk1 : inject_Z 9007199254740991 < inject_Z k).
  { change (inject_Z 9007199254740991) with (9007199254740991 # 1). lra. }
  assert (Hk2 : inject_Z k < inject_Z 9007199254740992).
  { change (inject_Z 9007199254740992) with (9007199254740992 # 1). lra. }
  rewrite <- Zlt_Qlt in Hk1, Hk2. lia.
Qed.

Lemma below_one_double : round below_one == below_one.
Proof. vm_compute. reflexivity. Qed.

End DoubleFacts.

#[global] Instance round_Proper : Proper (Qeq ==> Qeq) Double.round.
Proof. intros x y E. apply DoubleFacts.round_comp. exact E. Qed.

(* ================================================================== *)
(** ** Sample runs *)

(** [Double.round] against the Standard Library's specification of
    binary64 ([SFmul] and [SFadd] with 53 bits of precision): the products
    and sums [randomDelay] and [getRandomTokenID] form at the largest draw,
    at 0.3 and at 0.99. *)
Example round_agrees_with_binary64 :
  let mul a b := Double.of_spec (SFmul 53 1024 a b) in
  let add a b := Double.of_spec (SFadd 53 1024 a b) in
  let top := S754_finite false 9007199254740991 (-53) in
  let three_tenths := S754_finite false 5404319552844595 (-54) in
  let ninety_nine_hundredths := S754_finite false 8917127262193582 (-53) in
  let int n := S754_finite false n 0 in
  (mul top (int 60001%positive) == Js.times (Double.of_spec top) 60001
   /\ add (SFmul 53 1024 top (int 60001%positive)) (int 60000%positive)
      == Js.plus (Js.times (Double.of_spec top) 60001) 60000
   /\ add (SFmul 53 1024 top (int 300001%positive)) (int 300000%positive)
      == Js.plus (Js.times (Double.of_spec top) 300001) 300000
   /\ add (SFmul 53 1024 top (int 100%positive)) (int 1%positive)
      == Js.plus (Js.times (Double.of_spec top) 100) 1
   /\ mul top (int 10%positive) == Js.times (Double.of_spec top) 10
   /\ mul three_tenths (int 10%positive) == Js.times (Double.of_spec three_tenths) 10
   /\ add (SFmul 53 1024 ninety_nine_hundredths (int 100%positive)) (int 1%positive)
      == Js.plus (Js.times (Double.of_spec ninety_nine_hundredths) 100) 1)%Q.
Proof. cbv zeta. repeat split; unfold Qeq; vm_compute; reflexivity. Qed.

(** The doubles nearest to 0.3 and 0.99, and what the scripts compute from
    them: [floor (0.3 * 10)] is 3, and [randomDelay(1, 100)] at 0.99 is
    100. *)
Example rounded_draws :
  (Double.round (3 # 10) == 5404319552844595 # 18014398509481984)%Q
  /\ Qfloor (Js.times (Double.round (3 # 10)) 10) = 3
  /\ (Double.round (99 # 100) == 8917127262193582 # 9007199254740992)%Q
  /\ delay_of (Double.round (99 # 100)) 1 100 = 100.
Proof. repeat split; try (unfold Qeq); vm_compute; reflexivity. Qed.

Example includes_is_substring_search :
  Js.includes "HTTP 429: rate limit exceeded (retry later)" "rate limit exceeded" = true
  /\ Js.includes "rate limit" "rate limit exceeded" = false
  /\ Js.includes (Js.toLowerCase "Rate Limit Exceeded") "rate limit exceeded" = true
  /\ Js.includes "Rate Limit Exceeded" "rate limit exceeded" = false.
Proof. repeat split; reflexivity. Qed.

Example slice_and_parse :
  Js.slice_last 5 (Js.toString 1700000012345) = "12345"
  /\ Js.slice_last 5 "123" = "123"
  /\ Js.parseBigInt "00012345" = Some 12345
  /\ Js.parseBigInt "" = Some 0
  /\ Js.parseBigInt "12-3" = None.
Proof. repeat split; reflexivity. Qed.

Example boot_then_connect :
  currentRpcIndex Demo.ready = 0
  /\ provider Demo.ready = Some {| providerUrl := Some "https://sepolia.base.org" |}
  /\ console (trace Demo.ready)
     = [SetupConnecting (Some "https://sepolia.base.org"); SetupConnected].
Proof. repeat split; reflexivity. Qed.

(** Before the first [initializeConnections()] the executor fails at once:
    reading [provider] raises a TypeError, which the catch block treats as
    fatal. *)
Example unconnected_console :
  fst (executeTransaction Demo.calm (Wrap 7) "Wrap #1" boot) = Ok false
  /\ console (trace (snd (executeTransaction Demo.calm (Wrap 7) "Wrap #1" boot)))
     = [ FatalDuring "Wrap #1" (Some "Cannot read properties of undefined: provider") ].
Proof. split; vm_compute; reflexivity. Qed.

(** Five rate-limited attempts: four back-offs, then the give-up line. *)
Example rate_limited_console :
  fst (executeTransaction Demo.allRateLimited (Wrap 7) "Wrap #1" Demo.ready) = Ok false
  /\ skipn 2 (console (trace (snd (executeTransaction Demo.allRateLimited (Wrap 7) "Wrap #1"
                                                      Demo.ready))))
     = [ RateLimitOnAttempt 1 5; WaitingBeforeRetry 90000;
         RateLimitOnAttempt 2 5; WaitingBeforeRetry 90000;
         RateLimitOnAttempt 3 5; WaitingBeforeRetry 90000;
         RateLimitOnAttempt 4 5; WaitingBeforeRetry 90000;
         RateLimitOnAttempt 5 5; RateLimitGiveUp 5 ].
Proof. split; vm_compute; reflexivity. Qed.

(** A failover whose rebuild fails leaves the handles torn: the provider
    points at the new endpoint, the contracts still at the old one. *)
Example torn_after_failed_rebuild :
  let w := snd (executeTransaction Demo.brokenDisk (Wrap 7) "Wrap #1" Demo.ready) in
  currentRpcIndex w = 1
  /\ provider w = Some {| providerUrl := Some "https://base-sepolia.drpc.org" |}
  /\ option_map (fun c => providerUrl (walletProvider (contractRunner c))) (wrapperContract w)
     = Some (Some "https://sepolia.base.org").
Proof. repeat split; vm_compute; reflexivity. Qed.

(* ================================================================== *)
(** ** Traces and frames *)

Lemma failovers_snoc t e :
  failovers (t ++ [e]) = failovers t + (if is_failover e then 1 else 0).
Proof.
  unfold failovers. rewrite filter_app, length_app. simpl.
  destruct (is_failover e); simpl; lia.
Qed.

Lemma submitted_snoc t e :
  submitted (t ++ [e])
  = (submitted t ++ match e with Submitted _ a _ => [a] | _ => [] end)%list.
Proof. unfold submitted. rewrite flat_map_app. simpl. now rewrite List.app_nil_r. Qed.

Lemma steady_refl w : steady w w.
Proof. repeat split. Qed.

Lemma steady_trans w1 w2 w3 : steady w1 w2 -> steady w2 w3 -> steady w1 w3.
Proof. unfold steady. intuition congruence. Qed.

Lemma steady_connected w w' : steady w w' -> connected w -> connected w'.
Proof. unfold steady, connected. intros (_ & -> & -> & -> & -> & _). tauto. Qed.

Lemma steady_valid_index w w' : steady w w' -> valid_index w -> valid_index w'.
Proof. unfold steady, valid_index. intros (-> & _). tauto. Qed.

(* ================================================================== *)
(** ** One iteration of the retry loop *)

Section Executor.

Variable env : Env.

(** The [try] block touches neither the index nor the handles. *)
Lemma try_steady fn name a w :
  steady w (snd (submit_and_confirm env fn name a w)).
Proof.
  destruct w as [i [p|] [wl|] [mc|] [wc|] d c n r t];
    unfold submit_and_confirm, call; run; simpl;
    destruct (feeData a) as [[g|]|e]; simpl; try apply steady_refl;
    destruct fn; simpl; try (repeat split; fail);
    destruct (sent a); simpl; try (repeat split; fail);
    destruct (mined a); simpl; repeat split.
Qed.

Lemma try_failovers fn name a w :
  failovers (trace (snd (submit_and_confirm env fn name a w))) = failovers (trace w).
Proof.
  destruct w as [i [p|] [wl|] [mc|] [wc|] d c n r t];
    unfold submit_and_confirm, call; run; simpl;
    destruct (feeData a) as [[g|]|e]; simpl; rewrite ?failovers_snoc; simpl; try lia;
    destruct fn; simpl; rewrite ?failovers_snoc; simpl; try lia;
    destruct (sent a); simpl; rewrite ?failovers_snoc; simpl; try lia;
    destruct (mined a); simpl; rewrite ?failovers_snoc; simpl; lia.
Qed.

(** With the connection in place the [try] block raises exactly [raised a]. *)
Lemma try_result fn name a w :
  connected w ->
  fst (submit_and_confirm env fn name a w)
  = match raised a with None => Ok true | Some e => Throw e end.
Proof.
  intros H. open_connected w H.
  unfold submit_and_confirm, call, raised; run; simpl.
  destruct (feeData a) as [[g|]|e]; simpl; try reflexivity;
    destruct fn; simpl;
    destruct (sent a); simpl; try reflexivity;
    destruct (mined a); reflexivity.
Qed.

(** *** The catch block, branch by branch *)

Lemma on_error_rate_retry attempt name a e w :
  isRateLimitError e = true -> attempt < MAX_RETRIES ->
  exists w', on_error env attempt name a e w = (Ok None, w')
             /\ steady w w' /\ failovers (trace w') = failovers (trace w).
Proof.
  intros Hr Hlt. unfold on_error. rewrite Hr.
  apply Z.ltb_lt in Hlt. run. rewrite Hlt. simpl.
  eexists; split; [reflexivity|]. split; [repeat split|].
  simpl. rewrite !failovers_snoc. simpl. lia.
Qed.

Lemma on_error_rate_giveup attempt name a e w :
  isRateLimitError e = true -> MAX_RETRIES <= attempt ->
  exists w', on_error env attempt name a e w = (Ok (Some false), w')
             /\ steady w w' /\ failovers (trace w') = failovers (trace w).
Proof.
  intros Hr Hge. unfold on_error. rewrite Hr.
  apply Z.ltb_ge in Hge. run. rewrite Hge. simpl.
  eexists; split; [reflexivity|]. split; [repeat split|].
  simpl. rewrite !failovers_snoc. simpl. lia.
Qed.

Lemma on_error_fatal attempt name a e w :
  isRateLimitError e = false -> isNetworkError e = false ->
  exists w', on_error env attempt name a e w = (Ok (Some false), w')
             /\ steady w w' /\ failovers (trace w') = failovers (trace w).
Proof.
  intros Hr Hn. unfold on_error. rewrite Hr, Hn. run. simpl.
  eexists; split; [reflexivity|]. split; [repeat split|].
  simpl. rewrite !failovers_snoc. simpl. lia.
Qed.

(** The failover branch moves the index before it rebuilds the handles,
    so the index has advanced whether or not the rebuild throws. *)
Lemma on_error_network attempt name a e w :
  isRateLimitError e = false -> isNetworkError e = true ->
  let w' := snd (on_error env attempt name a e w) in
  currentRpcIndex w' = Z.rem (currentRpcIndex w + 1) RPC_URLS_length
  /\ attempts w' = attempts w
  /\ failovers (trace w') = failovers (trace w) + 1.
Proof.
  intros Hr Hn. unfold on_error, initializeConnections. rewrite Hr, Hn. run. simpl.
  rebuild_cases env (abiFiles a); simpl;
    rewrite ?failovers_snoc; simpl; repeat split; lia.
Qed.

Lemma on_error_network_ok attempt name a e w :
  isRateLimitError e = false -> isNetworkError e = true ->
  rebuild_fault env (abiFiles a) = None ->
  exists w', on_error env attempt name a e w = (Ok None, w') /\ connected w'
             /\ reads w' = reads w /\ clockReads w' = clockReads w.
Proof.
  intros Hr Hn Hf. unfold on_error, initializeConnections. rewrite Hr, Hn. run. simpl.
  unfold rebuild_fault in Hf.
  rebuild_cases env (abiFiles a); try discriminate Hf. simpl.
  eexists; split; [reflexivity|]. unfold connected; simpl.
  repeat split; discriminate.
Qed.

(** Unless rebuilding the connection throws, the catch block completes. *)
Lemma on_error_completes attempt name a e w :
  rebuild_fault env (abiFiles a) = None ->
  exists r w', on_error env attempt name a e w = (Ok r, w').
Proof.
  intros Hf.
  destruct (isRateLimitError e) eqn:Hr.
  - destruct (Z.lt_ge_cases attempt MAX_RETRIES) as [Hlt|Hge].
    + destruct (on_error_rate_retry attempt name a e w Hr Hlt) as (w' & -> & _); eauto.
    + destruct (on_error_rate_giveup attempt name a e w Hr Hge) as (w' & -> & _); eauto.
  - destruct (isNetworkError e) eqn:Hn.
    + destruct (on_error_network_ok attempt name a e w Hr Hn Hf) as (w' & -> & _); eauto.
    + destruct (on_error_fatal attempt name a e w Hr Hn) as (w' & -> & _); eauto.
Qed.

(** *** The whole iteration *)

Lemma iteration_unfold attempt fn name w :
  iteration env attempt fn name w
  = let a := node env (attempts w) in
    match submit_and_confirm env fn name a (tick_attempts w) with
    | (Ok b, w1) => (Ok (Some b), w1)
    | (Throw e, w1) => on_error env attempt name a e w1
    end.
Proof.
  unfold iteration. run.
  destruct (submit_and_confirm env fn name (node env (attempts w)) (tick_attempts w))
    as [[b|e] w1]; reflexivity.
Qed.

Lemma tick_attempts_steady w w1 :
  steady (tick_attempts w) w1 ->
  currentRpcIndex w1 = currentRpcIndex w /\ attempts w1 = S (attempts w)
  /\ reads w1 = reads w /\ clockReads w1 = clockReads w
  /\ (connected w -> connected w1).
Proof.
  unfold steady, connected. simpl. intros (-> & -> & -> & -> & -> & -> & -> & ->).
  repeat split; tauto.
Qed.

(** What one iteration does, by Attempt Outcome, when the handles exist. *)
Lemma iteration_confirmed attempt fn name w :
  connected w -> outcome (node env (attempts w)) = Confirmed ->
  exists w', iteration env attempt fn name w = (Ok (Some true), w')
             /\ currentRpcIndex w' = currentRpcIndex w
             /\ attempts w' = S (attempts w) /\ connected w'.
Proof.
  intros Hc Ho. rewrite iteration_unfold. cbv zeta.
  set (a := node env (attempts w)) in *.
  assert (Hc1 : connected (tick_attempts w)) by exact Hc.
  pose proof (try_result fn name a _ Hc1) as Hres.
  pose proof (try_steady fn name a (tick_attempts w)) as Hst.
  destruct (submit_and_confirm env fn name a (tick_attempts w)) as [r w1].
  simpl in Hres, Hst. apply tick_attempts_steady in Hst.
  unfold outcome in Ho. destruct (raised a) as [e|].
  - exfalso. unfold classify in Ho.
    destruct (isRateLimitError e); [discriminate|].
    destruct (isNetworkError e); discriminate.
  - subst r. exists w1. intuition.
Qed.

Lemma iteration_raises attempt fn name w :
  connected w ->
  forall e, raised (node env (attempts w)) = Some e ->
  exists w1, iteration env attempt fn name w
             = on_error env attempt name (node env (attempts w)) e w1
             /\ currentRpcIndex w1 = currentRpcIndex w
             /\ attempts w1 = S (attempts w)
             /\ reads w1 = reads w /\ clockReads w1 = clockReads w
             /\ connected w1
             /\ failovers (trace w1) = failovers (trace w).
Proof.
  intros Hc e He. rewrite iteration_unfold. cbv zeta.
  set (a := node env (attempts w)) in *.
  assert (Hc1 : connected (tick_attempts w)) by exact Hc.
  pose proof (try_result fn name a _ Hc1) as Hres.
  pose proof (try_steady fn name a (tick_attempts w)) as Hst.
  pose proof (try_failovers fn name a (tick_attempts w)) as Hfo.
  destruct (submit_and_confirm env fn name a (tick_attempts w)) as [r w1].
  simpl in Hres, Hst, Hfo. apply tick_attempts_steady in Hst.
  rewrite He in Hres. subst r. exists w1. intuition.
Qed.

(** *** The loop *)

Lemma attempt_loop_step fuel attempt fn name w :
  attempt <= MAX_RETRIES ->
  attempt_loop env (S fuel) attempt fn name w
  = match iteration env attempt fn name w with
    | (Ok (Some b), w') => (Ok b, w')
    | (Ok None, w') => attempt_loop env fuel (attempt + 1) fn name w'
    | (Throw e, w') => (Throw e, w')
    end.
Proof.
  intros H. apply Z.leb_le in H. simpl. rewrite H. unfold bind.
  destruct (iteration env attempt fn name w) as [[[b|]|e] w']; reflexivity.
Qed.

Lemma attempt_loop_over fuel attempt fn name w :
  MAX_RETRIES < attempt ->
  attempt_loop env fuel attempt fn name w = (Ok false, w).
Proof.
  intros H. destruct fuel; [reflexivity|]. simpl.
  apply Z.leb_gt in H. rewrite H. reflexivity.
Qed.

Lemma outcome_cases a :
  match outcome a with
  | Confirmed => raised a = None
  | RateLimited => exists e, raised a = Some e /\ isRateLimitError e = true
  | NetworkFailure =>
      exists e, raised a = Some e /\ isRateLimitError e = false /\ isNetworkError e = true
  | FatalError =>
      exists e, raised a = Some e /\ isRateLimitError e = false /\ isNetworkError e = false
  end.
Proof.
  unfold outcome, classify. destruct (raised a) as [e|]; [|reflexivity].
  destruct (isRateLimitError e) eqn:Hr; [eauto|].
  destruct (isNetworkError e) eqn:Hn; eauto.
Qed.

Lemma rem_advance i :
  0 <= i < RPC_URLS_length ->
  Z.rem (i + 1) RPC_URLS_length = (i + 1) mod RPC_URLS_length
  /\ 0 <= (i + 1) mod RPC_URLS_length < RPC_URLS_length.
Proof.
  change RPC_URLS_length with 3. intros H. split.
  - apply Z.rem_mod_nonneg; lia.
  - apply Z.mod_pos_bound; lia.
Qed.

(** A retriable iteration hands the loop over to the next attempt. *)
Lemma retriable_iteration attempt fn name w :
  connected w -> attempt < MAX_RETRIES ->
  retriable env (node env (attempts w)) ->
  exists w', iteration env attempt fn name w = (Ok None, w')
             /\ connected w'
             /\ attempts w' = S (attempts w)
             /\ currentRpcIndex w' = index_after env (attempts w) 1 (currentRpcIndex w).
Proof.
  intros Hc Hlt Hr. pose proof (outcome_cases (node env (attempts w))) as Ho.
  destruct Hr as [Hr|[Hr Hf]]; simpl; rewrite Hr in *.
  - destruct Ho as (e & He & Hrate).
    destruct (iteration_raises attempt fn name w Hc e He)
      as (w1 & -> & Hi & Ha & _ & _ & Hc1 & _).
    destruct (on_error_rate_retry attempt name (node env (attempts w)) e w1 Hrate Hlt)
      as (w' & -> & Hst & _).
    exists w'. split; [reflexivity|].
    pose proof Hst as (Hi' & _ & _ & _ & _ & Ha' & _).
    split; [apply (steady_connected w1 w' Hst Hc1)|]. split; congruence.
  - destruct Ho as (e & He & Hrate & Hnet).
    destruct (iteration_raises attempt fn name w Hc e He)
      as (w1 & -> & Hi & Ha & _ & _ & Hc1 & _).
    pose proof (on_error_network attempt name (node env (attempts w)) e w1 Hrate Hnet)
      as Hn. cbv zeta in Hn.
    destruct (on_error_network_ok attempt name (node env (attempts w)) e w1 Hrate Hnet Hf)
      as (w' & Heq & Hc' & _).
    rewrite Heq in *. simpl in Hn. destruct Hn as (Hi' & Ha' & _).
    exists w'. split; [reflexivity|]. split; [exact Hc'|].
    unfold advance. split; congruence.
Qed.

Lemma retries fn name :
  forall j fuel attempt w,
    connected w ->
    attempt + Z.of_nat j <= MAX_RETRIES ->
    (forall i, (i < j)%nat -> retriable env (node env (attempts w + i))) ->
    exists w',
      attempt_loop env (j + fuel) attempt fn name w
      = attempt_loop env fuel (attempt + Z.of_nat j) fn name w'
      /\ connected w'
      /\ attempts w' = (attempts w + j)%nat
      /\ currentRpcIndex w' = index_after env (attempts w) j (currentRpcIndex w).
Proof.
  induction j as [|j IH]; intros fuel attempt w Hc Hle Hall.
  - exists w. simpl. rewrite Z.add_0_r, Nat.add_0_r. auto.
  - assert (H0 : retriable env (node env (attempts w))).
    { specialize (Hall 0%nat). rewrite Nat.add_0_r in Hall. apply Hall. lia. }
    destruct (retriable_iteration attempt fn name w Hc ltac:(lia) H0)
      as (w1 & Hit & Hc1 & Ha1 & Hi1).
    destruct (IH fuel (attempt + 1) w1 Hc1 ltac:(lia)) as (w' & Hloop & Hc' & Ha' & Hi').
    { intros i Hi. rewrite Ha1. replace (S (attempts w) + i)%nat with (attempts w + S i)%nat by lia.
      apply Hall. lia. }
    exists w'. change (S j + fuel)%nat with (S (j + fuel)).
    rewrite attempt_loop_step by lia. rewrite Hit, Hloop.
    replace (attempt + 1 + Z.of_nat j) with (attempt + Z.of_nat (S j)) by lia.
    split; [reflexivity|]. split; [exact Hc'|]. split; [lia|].
    rewrite Hi', Hi1, Ha1. reflexivity.
Qed.

Lemma index_after_rate_limited :
  forall j start i,
    (forall k, (k < j)%nat -> outcome (node env (start + k)) = RateLimited) ->
    index_after env start j i = i.
Proof.
  induction j as [|j IH]; intros start i Hall; [reflexivity|].
  simpl. pose proof (Hall 0%nat ltac:(lia)) as H0. rewrite Nat.add_0_r in H0.
  rewrite H0. apply IH. intros k Hk.
  replace (S start + k)%nat with (start + S k)%nat by lia. apply Hall. lia.
Qed.

(** *** Facts that hold in every state *)

Lemma iteration_index attempt fn name w :
  valid_index w ->
  let w' := snd (iteration env attempt fn name w) in
  valid_index w' /\ attempts w' = S (attempts w)
  /\ ((currentRpcIndex w' = currentRpcIndex w
       /\ failovers (trace w') = failovers (trace w))
      \/ (currentRpcIndex w' = (currentRpcIndex w + 1) mod RPC_URLS_length
          /\ failovers (trace w') = failovers (trace w) + 1)).
Proof.
  intros Hv. rewrite iteration_unfold. cbv zeta.
  set (a := node env (attempts w)).
  pose proof (try_steady fn name a (tick_attempts w)) as Hst.
  pose proof (try_failovers fn name a (tick_attempts w)) as Hfo.
  destruct (submit_and_confirm env fn name a (tick_attempts w)) as [[b|e] w1];
    simpl in Hst, Hfo; apply tick_attempts_steady in Hst;
    destruct Hst as (Hi & Ha & _).
  - simpl. unfold valid_index. rewrite Hi. auto.
  - assert (Hv1 : valid_index w1) by (unfold valid_index; rewrite Hi; exact Hv).
    destruct (isRateLimitError e) eqn:Hr; [|destruct (isNetworkError e) eqn:Hn].
    + assert (exists r w', on_error env attempt name a e w1 = (Ok r, w')
                           /\ steady w1 w' /\ failovers (trace w') = failovers (trace w1))
        as (r & w' & -> & Hs & Hf).
      { destruct (Z.lt_ge_cases attempt MAX_RETRIES) as [Hlt|Hge].
        - destruct (on_error_rate_retry attempt name a e w1 Hr Hlt) as (w' & ? & ? & ?); eauto.
        - destruct (on_error_rate_giveup attempt name a e w1 Hr Hge) as (w' & ? & ? & ?); eauto. }
      simpl. pose proof Hs as (Hi' & _ & _ & _ & _ & Ha' & _).
      split; [apply (steady_valid_index w1 w' Hs Hv1)|]. split; [congruence|].
      left. split; congruence.
    + destruct (on_error_network attempt name a e w1 Hr Hn) as (Hi' & Ha' & Hf).
      destruct (rem_advance _ Hv1) as [Hrem Hrange].
      unfold valid_index. rewrite Hi', Hrem, Ha', Hf, Hi, Hfo, Ha in *.
      split; [exact Hrange|]. split; [reflexivity|]. right. auto.
    + destruct (on_error_fatal attempt name a e w1 Hr Hn) as (w' & -> & Hs & Hf).
      simpl. pose proof Hs as (Hi' & _ & _ & _ & _ & Ha' & _).
      split; [apply (steady_valid_index w1 w' Hs Hv1)|]. split; [congruence|].
      left. split; congruence.
Qed.

Lemma loop_index fn name :
  forall fuel attempt w,
    valid_index w ->
    let w' := snd (attempt_loop env fuel attempt fn name w) in
    valid_index w'
    /\ 0 <= failovers (trace w') - failovers (trace w)
    /\ currentRpcIndex w'
       = (currentRpcIndex w + (failovers (trace w') - failovers (trace w)))
         mod RPC_URLS_length.
Proof.
  assert (Hstay : forall w, valid_index w ->
            valid_index w /\ 0 <= failovers (trace w) - failovers (trace w)
            /\ currentRpcIndex w
               = (currentRpcIndex w + (failovers (trace w) - failovers (trace w)))
                 mod RPC_URLS_length).
  { intros w Hv. split; [exact Hv|]. split; [lia|].
    rewrite Z.sub_diag, Z.add_0_r, Z.mod_small; [reflexivity | exact Hv]. }
  induction fuel as [|fuel IH]; intros attempt w Hv; cbv zeta.
  - simpl. auto.
  - destruct (Z.le_gt_cases attempt MAX_RETRIES) as [Hle|Hgt].
    2:{ rewrite attempt_loop_over by lia. simpl. auto. }
    rewrite attempt_loop_step by exact Hle.
    pose proof (iteration_index attempt fn name w Hv) as Hit. cbv zeta in Hit.
    destruct (iteration env attempt fn name w) as [[[b|]|e] w1]; simpl in Hit |- *;
      destruct Hit as (Hv1 & _ & Hcase).
    2:{ specialize (IH (attempt + 1) w1 Hv1). cbv zeta in IH.
        destruct IH as (Hv' & Hge & Hi'). split; [exact Hv'|].
        destruct Hcase as [[Hi Hf]|[Hi Hf]]; rewrite Hi', Hi, Hf.
        - split; [lia|reflexivity].
        - split; [lia|]. rewrite Z.add_mod_idemp_l by (change RPC_URLS_length with 3; lia).
          f_equal. lia. }
    all: split; [exact Hv1|];
      destruct Hcase as [[Hi Hf]|[Hi Hf]]; rewrite Hi, Hf;
      (split; [lia|]); [rewrite Z.sub_diag, Z.add_0_r, Z.mod_small; [reflexivity|exact Hv]
                        | f_equal; lia].
Qed.

Lemma iteration_completes attempt fn name w :
  rebuild_fault env (abiFiles (node env (attempts w))) = None ->
  exists r w', iteration env attempt fn name w = (Ok r, w')
               /\ attempts w' = S (attempts w).
Proof.
  intros Hf. pose proof (iteration_index attempt fn name w) as Hidx.
  rewrite iteration_unfold in *. cbv zeta in *.
  set (a := node env (attempts w)) in *.
  assert (Hat : attempts (snd (match submit_and_confirm env fn name a (tick_attempts w) with
                               | (Ok b, w1) => (Ok (Some b), w1)
                               | (Throw e, w1) => on_error env attempt name a e w1
                               end)) = S (attempts w)).
  { pose proof (try_steady fn name a (tick_attempts w)) as Hst.
    destruct (submit_and_confirm env fn name a (tick_attempts w)) as [[b|e] w1];
      simpl in Hst; apply tick_attempts_steady in Hst; destruct Hst as (_ & Ha & _).
    - exact Ha.
    - destruct (isRateLimitError e) eqn:Hr; [|destruct (isNetworkError e) eqn:Hn].
      + destruct (Z.lt_ge_cases attempt MAX_RETRIES) as [Hlt|Hge].
        * destruct (on_error_rate_retry attempt name a e w1 Hr Hlt) as (w' & -> & Hs & _).
          simpl. destruct Hs as (_ & _ & _ & _ & _ & Ha' & _). congruence.
        * destruct (on_error_rate_giveup attempt name a e w1 Hr Hge) as (w' & -> & Hs & _).
          simpl. destruct Hs as (_ & _ & _ & _ & _ & Ha' & _). congruence.
      + destruct (on_error_network attempt name a e w1 Hr Hn) as (_ & Ha' & _). congruence.
      + destruct (on_error_fatal attempt name a e w1 Hr Hn) as (w' & -> & Hs & _).
        simpl. destruct Hs as (_ & _ & _ & _ & _ & Ha' & _). congruence. }
  clear Hidx.
  destruct (submit_and_confirm env fn name a (tick_attempts w)) as [[b|e] w1].
  - eauto.
  - destruct (on_error_completes attempt name a e w1 Hf) as (r & w' & Heq).
    rewrite Heq in *. eauto.
Qed.

Lemma loop_completes fn name :
  forall fuel attempt w,
    (forall i, (i < fuel)%nat -> rebuild_fault env (abiFiles (node env (attempts w + i))) = None) ->
    exists b w', attempt_loop env fuel attempt fn name w = (Ok b, w').
Proof.
  induction fuel as [|fuel IH]; intros attempt w Hall.
  - simpl. unfold ret. eauto.
  - destruct (Z.le_gt_cases attempt MAX_RETRIES) as [Hle|Hgt].
    2:{ rewrite attempt_loop_over by lia. eauto. }
    rewrite attempt_loop_step by exact Hle.
    destruct (iteration_completes attempt fn name w) as (r & w1 & -> & Ha).
    { specialize (Hall 0%nat). rewrite Nat.add_0_r in Hall. apply Hall. lia. }
    destruct r as [b|]; [eauto|].
    apply IH. intros i Hi. rewrite Ha.
    replace (S (attempts w) + i)%nat with (attempts w + S i)%nat by lia.
    apply Hall. lia.
Qed.

(** The fuel of [executeTransaction] is never what stops the loop: any
    larger amount gives the same run. *)
Lemma fuel_is_enough fn name :
  forall fuel attempt extra w,
    MAX_RETRIES < attempt + Z.of_nat fuel ->
    attempt_loop env (fuel + extra) attempt fn name w
    = attempt_loop env fuel attempt fn name w.
Proof.
  induction fuel as [|fuel IH]; intros attempt extra w H.
  - simpl. rewrite attempt_loop_over by lia. reflexivity.
  - destruct (Z.le_gt_cases attempt MAX_RETRIES) as [Hle|Hgt].
    2:{ rewrite !attempt_loop_over by lia. reflexivity. }
    change (S fuel + extra)%nat with (S (fuel + extra)).
    rewrite !attempt_loop_step by exact Hle.
    destruct (iteration env attempt fn name w) as [[[b|]|e] w1]; try reflexivity.
    apply IH. lia.
Qed.

End Executor.

(* ================================================================== *)
(** ** Error classification *)

Lemma nth_snoc_here {A} (t : list A) e : nth_error (t ++ [e]) (List.length t) = Some e.
Proof. rewrite nth_error_app2, Nat.sub_diag by lia. reflexivity. Qed.

Lemma nth_snoc_before {A} (t : list A) e n x :
  nth_error t n = Some x -> nth_error (t ++ [e]) n = Some x.
Proof.
  intros H. rewrite nth_error_app1; [exact H|].
  apply nth_error_Some. congruence.
Qed.

Lemma isRateLimitError_iff e :
  isRateLimitError e = true <->
  (Js.code e = Js.CodeNumber (-32029)
   \/ exists m, Js.message e = Some m
                /\ Js.includes (Js.toLowerCase m) "rate limit exceeded" = true).
Proof.
  unfold isRateLimitError. rewrite orb_true_iff. split.
  - intros [H|H].
    + left. destruct (Js.code e); simpl in H; try discriminate.
      apply Z.eqb_eq in H. now subst.
    + right. destruct (Js.message e) as [m|]; [|discriminate].
      apply andb_true_iff in H. exists m. tauto.
  - intros [H|(m & Hm & Hin)].
    + left. rewrite H. reflexivity.
    + right. rewrite Hm. destruct m; [discriminate Hin|]. exact Hin.
Qed.

Lemma isNetworkError_iff e :
  isNetworkError e = true <->
  ((exists s, Js.code e = Js.CodeString s
              /\ In s ["SERVER_ERROR"; "NETWORK_ERROR"; "TIMEOUT"])
   \/ exists m, Js.message e = Some m
                /\ Js.includes m "failed to detect network" = true).
Proof.
  unfold isNetworkError. rewrite orb_true_iff. split.
  - intros [H|H].
    + left. unfold Js.code_in in H. destruct (Js.code e) as [|n|s]; try discriminate.
      exists s. split; [reflexivity|].
      apply existsb_exists in H. destruct H as (x & Hin & Heq).
      apply String.eqb_eq in Heq. now subst.
    + right. destruct (Js.message e) as [m|]; [|discriminate].
      apply andb_true_iff in H. exists m. tauto.
  - intros [(s & Hs & Hin)|(m & Hm & Hin)].
    + left. rewrite Hs. unfold Js.code_in. apply existsb_exists.
      exists s. split; [exact Hin | apply String.eqb_refl].
    + right. rewrite Hm. destruct m; [discriminate Hin|]. exact Hin.
Qed.

(** C10: classification in the catch block is a total function with the
    rate-limit test first.  The two flags are exactly the criteria of the
    code (code -32029 or lower-cased message containing "rate limit
    exceeded"; code SERVER_ERROR / NETWORK_ERROR / TIMEOUT or message
    containing "failed to detect network"); an error meeting the rate-limit
    criteria is RateLimited whatever the network flag says; NetworkFailure is
    chosen only when the rate-limit flag is off; an error meeting neither is
    FatalError; and the branch the catch block enters (identified by the
    line it prints first) is the one [classify] names. *)
Theorem classification_total_prioritized (e : Js.Error) :
  (isRateLimitError e = true <->
     (Js.code e = Js.CodeNumber (-32029)
      \/ exists m, Js.message e = Some m
                   /\ Js.includes (Js.toLowerCase m) "rate limit exceeded" = true))
  /\ (isNetworkError e = true <->
        ((exists s, Js.code e = Js.CodeString s
                    /\ In s ["SERVER_ERROR"; "NETWORK_ERROR"; "TIMEOUT"])
         \/ exists m, Js.message e = Some m
                      /\ Js.includes m "failed to detect network" = true))
  /\ (isRateLimitError e = true -> classify e = RateLimited)
  /\ (isRateLimitError e = false -> isNetworkError e = true -> classify e = NetworkFailure)
  /\ (isRateLimitError e = false -> isNetworkError e = false -> classify e = FatalError)
  /\ classify e <> Confirmed
  /\ forall env attempt actionName a w,
       exists lvl line,
         first_new w (snd (on_error env attempt actionName a e w)) = Some (Console lvl line)
         /\ branch_of line = Some (classify e).
Proof.
  split; [apply isRateLimitError_iff|]. split; [apply isNetworkError_iff|].
  unfold classify.
  split; [intros ->; reflexivity|].
  split; [intros -> ->; reflexivity|].
  split; [intros -> ->; reflexivity|].
  split.
  { destruct (isRateLimitError e); [discriminate|].
    destruct (isNetworkError e); discriminate. }
  intros env attempt actionName a w. unfold first_new, on_error, initializeConnections.
  destruct (isRateLimitError e); [|destruct (isNetworkError e)]; run.
  - destruct (attempt <? MAX_RETRIES); simpl;
      do 2 eexists;
      (split; [repeat (first [apply nth_snoc_here | apply nth_snoc_before]) | reflexivity]).
  - simpl.
    rebuild_cases env (abiFiles a); simpl;
      do 2 eexists;
      (split; [repeat (first [apply nth_snoc_here | apply nth_snoc_before]) | reflexivity]).
  - simpl. do 2 eexists. split; [apply nth_snoc_here | reflexivity].
Qed.

Lemma classification_total_prioritized_witness :
  isRateLimitError Demo.bothError = true
  /\ isNetworkError Demo.bothError = true
  /\ classify Demo.bothError = RateLimited
  /\ classify Demo.networkError = NetworkFailure
  /\ classify Demo.revertError = FatalError.
Proof.
  split; [reflexivity|]. split; [reflexivity|].
  split; [apply (classification_total_prioritized Demo.bothError); reflexivity|].
  split; [apply (classification_total_prioritized Demo.networkError); reflexivity|].
  apply (classification_total_prioritized Demo.revertError); reflexivity.
Defined.

(* ================================================================== *)
(** ** The retry policy of [executeTransaction] *)

Lemma ready_connected : connected Demo.ready.
Proof. unfold connected. simpl. repeat split; discriminate. Qed.

Lemma ready_valid_index : valid_index Demo.ready.
Proof. unfold valid_index. simpl. change RPC_URLS_length with 3. lia. Qed.

(** C1: with the budget MAX_RETRIES = 5, a call whose every attempt raises
    a RateLimited error makes exactly five attempts (the attempt cursor
    moves by five, neither more nor fewer) and returns false; the endpoint
    index is untouched. *)
Theorem rate_limited_exhausts_budget env fn actionName w :
  connected w ->
  (forall i, (i < Z.to_nat MAX_RETRIES)%nat ->
             outcome (node env (attempts w + i)) = RateLimited) ->
  exists w',
    executeTransaction env fn actionName w = (Ok false, w')
    /\ attempts w' = (attempts w + Z.to_nat MAX_RETRIES)%nat
    /\ currentRpcIndex w' = currentRpcIndex w.
Proof.
  intros Hc Hall. unfold executeTransaction.
  change (Z.to_nat MAX_RETRIES) with (4 + 1)%nat in *.
  destruct (retries env fn actionName 4 1 1 w Hc) as (w4 & -> & Hc4 & Ha4 & Hi4).
  { unfold MAX_RETRIES. lia. }
  { intros i Hi. left. apply Hall. lia. }
  rewrite index_after_rate_limited in Hi4 by (intros k Hk; apply Hall; lia).
  change (1 + Z.of_nat 4) with 5.
  rewrite attempt_loop_step by (unfold MAX_RETRIES; lia).
  pose proof (Hall 4%nat ltac:(lia)) as H5. rewrite <- Ha4 in H5.
  pose proof (outcome_cases (node env (attempts w4))) as Ho. rewrite H5 in Ho.
  destruct Ho as (e & He & Hrate).
  destruct (iteration_raises env 5 fn actionName w4 Hc4 e He)
    as (w5 & -> & Hi5 & Ha5 & _).
  destruct (on_error_rate_giveup env 5 actionName (node env (attempts w4)) e w5 Hrate)
    as (w' & -> & Hst & _).
  { unfold MAX_RETRIES. lia. }
  destruct Hst as (Hi' & _ & _ & _ & _ & Ha' & _).
  exists w'. split; [reflexivity|]. split; [lia | congruence].
Qed.

Lemma rate_limited_exhausts_budget_witness :
  exists w',
    executeTransaction Demo.allRateLimited (Wrap 7) "Wrap #1" Demo.ready = (Ok false, w')
    /\ attempts w' = 5%nat
    /\ currentRpcIndex w' = 0.
Proof.
  apply (rate_limited_exhausts_budget Demo.allRateLimited (Wrap 7) "Wrap #1" Demo.ready
           ready_connected).
  intros i Hi. change (Z.to_nat MAX_RETRIES) with 5%nat in Hi.
  do 5 (destruct i as [|i]; [reflexivity|]). lia.
Defined.

(** C3: when the first attempt raises a FatalError (neither rate limit nor
    network), the call returns false after that single attempt and the
    endpoint index is unchanged. *)
Theorem fatal_error_aborts_at_once env fn actionName w :
  connected w ->
  outcome (node env (attempts w)) = FatalError ->
  exists w',
    executeTransaction env fn actionName w = (Ok false, w')
    /\ attempts w' = S (attempts w)
    /\ currentRpcIndex w' = currentRpcIndex w
    /\ failovers (trace w') = failovers (trace w).
Proof.
  intros Hc Hf. unfold executeTransaction.
  change (Z.to_nat MAX_RETRIES) with 5%nat.
  rewrite attempt_loop_step by (unfold MAX_RETRIES; lia).
  pose proof (outcome_cases (node env (attempts w))) as Ho. rewrite Hf in Ho.
  destruct Ho as (e & He & Hrate & Hnet).
  destruct (iteration_raises env 1 fn actionName w Hc e He)
    as (w1 & -> & Hi1 & Ha1 & _ & _ & _ & Hf1).
  destruct (on_error_fatal env 1 actionName (node env (attempts w)) e w1 Hrate Hnet)
    as (w' & -> & Hst & Hf').
  destruct Hst as (Hi' & _ & _ & _ & _ & Ha' & _).
  exists w'. split; [reflexivity|]. repeat split; congruence.
Qed.

Lemma fatal_error_aborts_at_once_witness :
  exists w',
    executeTransaction Demo.fatalFirst (Unwrap 7) "Unwrap #1" Demo.ready = (Ok false, w')
    /\ attempts w' = 1%nat
    /\ currentRpcIndex w' = 0
    /\ failovers (trace w') = 0.
Proof.
  apply (fatal_error_aborts_at_once Demo.fatalFirst (Unwrap 7) "Unwrap #1" Demo.ready
           ready_connected).
  reflexivity.
Defined.

(** C4: for every k with 1 <= k <= 5, when the first k-1 attempts fail
    retriably (rate limit, or network failure followed by a successful
    rebuild) and attempt k is submitted and confirmed, the call returns true
    right after attempt k: exactly k attempts are made. *)
Theorem success_on_attempt_k env fn actionName w (k : nat) :
  connected w ->
  (1 <= k)%nat -> Z.of_nat k <= MAX_RETRIES ->
  (forall i, (i < k - 1)%nat -> retriable env (node env (attempts w + i))) ->
  outcome (node env (attempts w + (k - 1))) = Confirmed ->
  exists w',
    executeTransaction env fn actionName w = (Ok true, w')
    /\ attempts w' = (attempts w + k)%nat.
Proof.
  intros Hc Hk1 Hk5 Hall Hok. unfold executeTransaction.
  assert (Hfuel : Z.to_nat MAX_RETRIES = ((k - 1) + S (5 - k))%nat)
    by (unfold MAX_RETRIES in *; lia).
  rewrite Hfuel.
  destruct (retries env fn actionName (k - 1) (S (5 - k)) 1 w Hc) as (w1 & -> & Hc1 & Ha1 & _).
  { lia. }
  { exact Hall. }
  rewrite attempt_loop_step by lia.
  rewrite <- Ha1 in Hok.
  destruct (iteration_confirmed env (1 + Z.of_nat (k - 1)) fn actionName w1 Hc1 Hok)
    as (w' & -> & _ & Ha' & _).
  exists w'. split; [reflexivity | lia].
Qed.

Lemma success_on_attempt_k_witness :
  exists w',
    executeTransaction Demo.fourthTime (Wrap 7) "Wrap #1" Demo.ready = (Ok true, w')
    /\ attempts w' = 4%nat.
Proof.
  apply (success_on_attempt_k Demo.fourthTime (Wrap 7) "Wrap #1" Demo.ready 4 ready_connected).
  - lia.
  - unfold MAX_RETRIES. lia.
  - intros i Hi. destruct i as [|[|[|i]]]; [left; reflexivity | right | left; reflexivity | lia].
    split; reflexivity.
  - reflexivity.
Defined.

Lemma advance_twice i :
  0 <= i < RPC_URLS_length ->
  advance (advance i) = (i + 2) mod RPC_URLS_length.
Proof.
  unfold advance. change RPC_URLS_length with 3. intros H.
  assert (Hi : i = 0 \/ i = 1 \/ i = 2) by lia.
  destruct Hi as [->|[->| ->]]; reflexivity.
Qed.

(** C2: every attempt classified NetworkFailure moves the endpoint index by
    exactly one step, [(index + 1) mod length], so it wraps to 0 after the
    last endpoint and stays a valid position.  For a whole call the index
    has moved by the number of network failovers it logged (mod length) and
    is still valid.  Scenario C: two NetworkFailure attempts (each followed
    by a successful rebuild) and a confirmed third attempt leave the index 2
    (mod length) further and the call returns true. *)
Theorem network_failure_advances_index env fn actionName w :
  valid_index w ->
  (let w' := snd (executeTransaction env fn actionName w) in
   valid_index w'
   /\ currentRpcIndex w'
      = (currentRpcIndex w + (failovers (trace w') - failovers (trace w)))
        mod RPC_URLS_length)
  /\ (forall attempt,
        connected w ->
        outcome (node env (attempts w)) = NetworkFailure ->
        let w1 := snd (iteration env attempt fn actionName w) in
        currentRpcIndex w1 = (currentRpcIndex w + 1) mod RPC_URLS_length
        /\ valid_index w1
        /\ (currentRpcIndex w = RPC_URLS_length - 1 -> currentRpcIndex w1 = 0)
        /\ failovers (trace w1) = failovers (trace w) + 1)
  /\ (connected w ->
      outcome (node env (attempts w)) = NetworkFailure ->
      rebuild_fault env (abiFiles (node env (attempts w))) = None ->
      outcome (node env (attempts w + 1)) = NetworkFailure ->
      rebuild_fault env (abiFiles (node env (attempts w + 1))) = None ->
      outcome (node env (attempts w + 2)) = Confirmed ->
      exists w',
        executeTransaction env fn actionName w = (Ok true, w')
        /\ currentRpcIndex w' = (currentRpcIndex w + 2) mod RPC_URLS_length
        /\ attempts w' = (attempts w + 3)%nat).
Proof.
  intros Hv. split; [|split].
  - pose proof (loop_index env fn actionName (Z.to_nat MAX_RETRIES) 1 w Hv) as H.
    cbv zeta in H |- *. unfold executeTransaction. tauto.
  - intros attempt Hc Hn. cbv zeta.
    pose proof (outcome_cases (node env (attempts w))) as Ho. rewrite Hn in Ho.
    destruct Ho as (e & He & Hrate & Hnet).
    destruct (iteration_raises env attempt fn actionName w Hc e He)
      as (w1 & -> & Hi1 & _ & _ & _ & _ & Hf1).
    destruct (on_error_network env attempt actionName (node env (attempts w)) e w1 Hrate Hnet)
      as (Hi' & _ & Hf').
    assert (Hv1 : 0 <= currentRpcIndex w1 < RPC_URLS_length) by (rewrite Hi1; exact Hv).
    destruct (rem_advance _ Hv1) as [Hrem Hrange].
    unfold valid_index. rewrite Hi', Hrem, Hf', Hf1, Hi1 in *.
    split; [reflexivity|]. split; [exact Hrange|]. split; [|reflexivity].
    intros ->. reflexivity.
  - intros Hc H0 Hf0 H1 Hf1 H2. unfold executeTransaction.
    change (Z.to_nat MAX_RETRIES) with (2 + 3)%nat.
    destruct (retries env fn actionName 2 3 1 w Hc) as (w2 & -> & Hc2 & Ha2 & Hi2).
    { unfold MAX_RETRIES. lia. }
    { intros i Hi. right. destruct i as [|[|i]]; [| |lia].
      - rewrite Nat.add_0_r. auto.
      - auto. }
    rewrite attempt_loop_step by (unfold MAX_RETRIES; simpl; lia).
    rewrite <- Ha2 in H2.
    destruct (iteration_confirmed env (1 + Z.of_nat 2) fn actionName w2 Hc2 H2)
      as (w' & -> & Hi' & Ha' & _).
    exists w'. split; [reflexivity|]. split; [|lia].
    rewrite Hi', Hi2. simpl. rewrite H0.
    replace (S (attempts w)) with (attempts w + 1)%nat by lia. rewrite H1.
    apply advance_twice. exact Hv.
Qed.

Lemma network_failure_advances_index_witness :
  valid_index Demo.ready
  /\ exists w',
       executeTransaction Demo.twoFailovers (Wrap 7) "Wrap #1" Demo.ready = (Ok true, w')
       /\ currentRpcIndex w' = 2
       /\ attempts w' = 3%nat.
Proof.
  split; [exact ready_valid_index|].
  apply (network_failure_advances_index Demo.twoFailovers (Wrap 7) "Wrap #1" Demo.ready
           ready_valid_index).
  - exact ready_connected.
  - reflexivity.
  - reflexivity.
  - reflexivity.
  - reflexivity.
  - reflexivity.
Defined.

(* ================================================================== *)
(** ** What escapes [executeTransaction] *)

(** What the [try] block throws is the error of the attempt, or the
    TypeError of an undefined handle, which the catch block treats as
    fatal. *)
Lemma try_throws env fn name a w e w1 :
  submit_and_confirm env fn name a w = (Throw e, w1) ->
  raised a = Some e \/ classify e = FatalError.
Proof.
  destruct w as [i [p|] [wl|] [mc|] [wc|] d c n r t];
    unfold submit_and_confirm, call, raised; run; simpl;
    try (intros [= <- _]; right; reflexivity);
    destruct (feeData a) as [[g|]|e0]; simpl;
    try (intros [= <- _]; left; reflexivity);
    destruct fn; simpl;
    try (intros [= <- _]; right; reflexivity);
    destruct (sent a); simpl;
    try (intros [= <- _]; left; reflexivity);
    destruct (mined a); simpl;
    try (intros [= <- _]; left; reflexivity); discriminate.
Qed.

(** The catch block throws only from its failover branch, and what it
    throws is the exception of the rebuild. *)
Lemma on_error_throws env attempt name a e w e' w' :
  on_error env attempt name a e w = (Throw e', w') ->
  classify e = NetworkFailure /\ rebuild_fault env (abiFiles a) = Some e'.
Proof.
  unfold on_error, initializeConnections, classify, rebuild_fault.
  destruct (isRateLimitError e); [|destruct (isNetworkError e)]; run.
  - destruct (attempt <? MAX_RETRIES); simpl; discriminate.
  - simpl. rebuild_cases env (abiFiles a); simpl;
      try discriminate; intros [= <- _]; split; reflexivity.
  - simpl. discriminate.
Qed.

(** Conversely a failing rebuild always escapes from the failover branch. *)
Lemma on_error_rebuild_throws env attempt name a e w e' :
  isRateLimitError e = false -> isNetworkError e = true ->
  rebuild_fault env (abiFiles a) = Some e' ->
  exists w', on_error env attempt name a e w = (Throw e', w')
             /\ attempts w' = attempts w.
Proof.
  intros Hr Hn. unfold on_error, initializeConnections, rebuild_fault.
  rewrite Hr, Hn. run. simpl.
  rebuild_cases env (abiFiles a); simpl;
    try discriminate; intros [= <-]; eexists; split; reflexivity.
Qed.

Lemma iteration_throws env attempt fn name w e' w' :
  iteration env attempt fn name w = (Throw e', w') ->
  outcome (node env (attempts w)) = NetworkFailure
  /\ rebuild_fault env (abiFiles (node env (attempts w))) = Some e'.
Proof.
  rewrite iteration_unfold. cbv zeta.
  destruct (submit_and_confirm env fn name (node env (attempts w)) (tick_attempts w))
    as [[b|e] w1] eqn:Htry; [discriminate|].
  intros H. apply on_error_throws in H. destruct H as [Hcl Hf].
  split; [|exact Hf].
  destruct (try_throws _ _ _ _ _ _ _ Htry) as [Hr|Hfatal].
  - unfold outcome. rewrite Hr. exact Hcl.
  - congruence.
Qed.

Lemma loop_throws env fn name :
  forall fuel attempt w e' w',
    attempt_loop env fuel attempt fn name w = (Throw e', w') ->
    exists i,
      (i < fuel)%nat
      /\ outcome (node env (attempts w + i)) = NetworkFailure
      /\ rebuild_fault env (abiFiles (node env (attempts w + i))) = Some e'.
Proof.
  induction fuel as [|fuel IH]; intros attempt w e' w' H; [discriminate|].
  destruct (Z.le_gt_cases attempt MAX_RETRIES) as [Hle|Hgt].
  2:{ rewrite attempt_loop_over in H by lia. discriminate. }
  rewrite attempt_loop_step in H by exact Hle.
  pose proof (iteration_index env attempt fn name w) as Hidx.
  destruct (iteration env attempt fn name w) as [[[b|]|e] w1] eqn:Hit.
  - discriminate.
  - assert (Ha : attempts w1 = S (attempts w)).
    { pose proof (try_steady env fn name (node env (attempts w)) (tick_attempts w)) as Hst.
      rewrite iteration_unfold in Hit. cbv zeta in Hit.
      destruct (submit_and_confirm env fn name (node env (attempts w)) (tick_attempts w))
        as [[b|e] w0]; [discriminate|].
      simpl in Hst. apply tick_attempts_steady in Hst. destruct Hst as (_ & Ha0 & _).
      destruct (isRateLimitError e) eqn:Hr; [|destruct (isNetworkError e) eqn:Hn].
      - destruct (Z.lt_ge_cases attempt MAX_RETRIES) as [Hlt|Hge].
        + destruct (on_error_rate_retry env attempt name (node env (attempts w)) e w0 Hr Hlt)
            as (w2 & Heq & Hs & _).
          rewrite Heq in Hit. injection Hit as <-.
          destruct Hs as (_ & _ & _ & _ & _ & Ha' & _). congruence.
        + destruct (on_error_rate_giveup env attempt name (node env (attempts w)) e w0 Hr Hge)
            as (w2 & Heq & _). congruence.
      - pose proof (on_error_network env attempt name (node env (attempts w)) e w0 Hr Hn)
          as (_ & Ha' & _). rewrite Hit in Ha'. simpl in Ha'. congruence.
      - destruct (on_error_fatal env attempt name (node env (attempts w)) e w0 Hr Hn)
          as (w2 & Heq & _). congruence. }
    destruct (IH _ _ _ _ H) as (i & Hi & Ho & Hf).
    exists (S i). split; [lia|].
    rewrite Ha in Ho, Hf.
    replace (attempts w + S i)%nat with (S (attempts w) + i)%nat by lia.
    split; [exact Ho | exact Hf].
  - injection H as -> ->. apply iteration_throws in Hit.
    exists 0%nat. rewrite Nat.add_0_r. split; [lia | exact Hit].
Qed.

(** After retriable attempts, a network failure whose rebuild throws ends
    the call with that exception. *)
Lemma loop_escapes env fn name w (k : nat) e :
  connected w ->
  Z.of_nat k < MAX_RETRIES ->
  (forall i, (i < k)%nat -> retriable env (node env (attempts w + i))) ->
  outcome (node env (attempts w + k)) = NetworkFailure ->
  rebuild_fault env (abiFiles (node env (attempts w + k))) = Some e ->
  exists w',
    executeTransaction env fn name w = (Throw e, w')
    /\ attempts w' = (attempts w + k + 1)%nat.
Proof.
  intros Hc Hk Hall Hn Hf. unfold executeTransaction.
  assert (Hfuel : Z.to_nat MAX_RETRIES = (k + S (4 - k))%nat)
    by (unfold MAX_RETRIES in *; lia).
  rewrite Hfuel.
  destruct (retries env fn name k (S (4 - k)) 1 w Hc) as (w1 & -> & Hc1 & Ha1 & _).
  { lia. }
  { exact Hall. }
  rewrite attempt_loop_step by lia.
  rewrite <- Ha1 in Hn, Hf.
  pose proof (outcome_cases (node env (attempts w1))) as Ho. rewrite Hn in Ho.
  destruct Ho as (e0 & He0 & Hrate & Hnet).
  destruct (iteration_raises env (1 + Z.of_nat k) fn name w1 Hc1 e0 He0)
    as (w2 & -> & _ & Ha2 & _).
  destruct (on_error_rebuild_throws env (1 + Z.of_nat k) name _ e0 w2 e Hrate Hnet Hf)
    as (w' & -> & Ha').
  exists w'. split; [reflexivity | lia].
Qed.

(** C8, as the code has it: [executeTransaction] turns every error of an
    attempt into a boolean, with one exception: the failover branch of the
    catch block calls [initializeConnections()] unprotected.  (1) When no
    rebuild of the call's five attempts can fail, the call returns a
    boolean.  (2) Whatever escapes is the exception of such a rebuild (the
    wallet constructor rejecting the key, an ABI file that cannot be read,
    the contract constructor rejecting an ABI), made for an attempt that met
    a network failure.  (3) And it does escape: from a connected state, when
    the attempts before it are retriable, a network failure whose rebuild
    throws [e] makes the call throw [e] right there, without a further
    attempt. *)
Theorem executor_absorbs_unless_rebuild_throws env fn actionName w :
  ((forall i, (i < Z.to_nat MAX_RETRIES)%nat ->
              rebuild_fault env (abiFiles (node env (attempts w + i))) = None) ->
   exists b w', executeTransaction env fn actionName w = (Ok b, w'))
  /\ (forall e w',
        executeTransaction env fn actionName w = (Throw e, w') ->
        exists i,
          (i < Z.to_nat MAX_RETRIES)%nat
          /\ outcome (node env (attempts w + i)) = NetworkFailure
          /\ rebuild_fault env (abiFiles (node env (attempts w + i))) = Some e)
  /\ (forall (k : nat) e,
        connected w ->
        Z.of_nat k < MAX_RETRIES ->
        (forall i, (i < k)%nat -> retriable env (node env (attempts w + i))) ->
        outcome (node env (attempts w + k)) = NetworkFailure ->
        rebuild_fault env (abiFiles (node env (attempts w + k))) = Some e ->
        exists w',
          executeTransaction env fn actionName w = (Throw e, w')
          /\ attempts w' = (attempts w + k + 1)%nat).
Proof.
  split; [|split].
  - intros Hall. apply loop_completes. exact Hall.
  - intros e w' H. apply (loop_throws env fn actionName _ _ _ _ _ H).
  - intros k e. apply loop_escapes.
Qed.

Lemma executor_absorbs_unless_rebuild_throws_witness :
  (exists b w', executeTransaction Demo.mixedFailures (Wrap 7) "Wrap #1" Demo.ready = (Ok b, w'))
  /\ (exists w', executeTransaction Demo.objectAbi (Wrap 7) "Wrap #1" Demo.ready
                 = (Throw Demo.notIterable, w')
                 /\ attempts w' = 1%nat).
Proof.
  split.
  - apply (executor_absorbs_unless_rebuild_throws Demo.mixedFailures (Wrap 7) "Wrap #1"
             Demo.ready).
    intros i _. destruct i as [|[|[|[|n]]]]; reflexivity.
  - apply (proj2 (proj2 (executor_absorbs_unless_rebuild_throws Demo.objectAbi (Wrap 7)
                           "Wrap #1" Demo.ready)) 0%nat Demo.notIterable).
    + exact ready_connected.
    + reflexivity.
    + intros i Hi. lia.
    + reflexivity.
    + reflexivity.
Defined.

(** C8 as stated fails: the first attempt meets a network error, the
    failover rebuilds the connection, reading the ABI file throws ENOENT,
    and that exception leaves [executeTransaction]. *)
Lemma rebuild_exception_escapes :
  fst (executeTransaction Demo.brokenDisk (Wrap 7) "Wrap #1" Demo.ready)
  = Throw (Js.mkError (Js.CodeString "ENOENT")
                      (Some "ENOENT: no such file or directory, open ./abi/mintContract.json")
                      None)
  /\ ~ exists b w',
        executeTransaction Demo.brokenDisk (Wrap 7) "Wrap #1" Demo.ready = (Ok b, w').
Proof.
  split; [reflexivity|].
  intros (b & w' & H). apply (f_equal fst) in H. discriminate H.
Qed.

(* ================================================================== *)
(** ** Precondition checks *)

(** C5: [checkAndMintIfNeeded] reads the balance once.  A positive balance
    gives true with no attempt made and nothing submitted.  A balance of
    exactly zero hands one [Mint MINT_AMOUNT] action to [executeTransaction]
    and the boolean that call returns is returned (should that call throw,
    the surrounding catch turns it into false).  A failed read gives false
    with no attempt made and nothing submitted. *)
Theorem ensure_balance env w c :
  mintContract w = Some c -> wallet w <> None ->
  let w1 := tick_reads (emit (Viewed c BalanceOf) (emit (Console LOG CheckingBalance) w)) in
  (forall balance,
      chain env (reads w) = Ok balance -> 0 < balance ->
      exists w',
        checkAndMintIfNeeded env w = (Ok true, w')
        /\ attempts w' = attempts w
        /\ submitted (trace w') = submitted (trace w))
  /\ (chain env (reads w) = Ok 0 ->
      let w2 := emit (Console LOG BalanceEmpty) (emit (Console LOG (CurrentBalance 0)) w1) in
      attempts w2 = attempts w
      /\ submitted (trace w2) = submitted (trace w)
      /\ (forall b w',
            executeTransaction env (Mint MINT_AMOUNT) "Mint" w2 = (Ok b, w') ->
            checkAndMintIfNeeded env w = (Ok b, w'))
      /\ (forall e w',
            executeTransaction env (Mint MINT_AMOUNT) "Mint" w2 = (Throw e, w') ->
            checkAndMintIfNeeded env w
            = (Ok false, emit (Console ERROR (BalanceCheckFailed (Js.message e))) w')))
  /\ (forall e,
        chain env (reads w) = Throw e ->
        exists w',
          checkAndMintIfNeeded env w = (Ok false, w')
          /\ attempts w' = attempts w
          /\ submitted (trace w') = submitted (trace w)).
Proof.
  intros Hm Hw.
  destruct w as [i p [wl|] mc wc d k n r t]; [|exfalso; apply Hw; reflexivity].
  simpl in Hm. subst mc. cbv zeta. unfold checkAndMintIfNeeded.
  split; [|split].
  - intros balance Hb Hpos. run_world. rewrite Hb.
    assert (Hz : (balance =? 0) = false) by (apply Z.eqb_neq; lia). rewrite Hz.
    eexists. split; [reflexivity|]. split; [reflexivity|].
    rewrite !submitted_snoc. simpl. now rewrite !List.app_nil_r.
  - intros Hb. split; [reflexivity|]. split.
    { run_world. rewrite !submitted_snoc. simpl. now rewrite !List.app_nil_r. }
    split; intros x w' Hex; run_world; rewrite Hb; rewrite Z.eqb_refl;
      run_world; rewrite Hex; reflexivity.
  - intros e Hb. run_world. rewrite Hb.
    eexists. split; [reflexivity|]. split; [reflexivity|].
    rewrite !submitted_snoc. simpl. now rewrite !List.app_nil_r.
Qed.

Lemma ensure_balance_witness :
  (exists w', checkAndMintIfNeeded Demo.funded Demo.ready = (Ok true, w')
              /\ attempts w' = 0%nat /\ submitted (trace w') = [])
  /\ (exists w', checkAndMintIfNeeded Demo.calm Demo.ready = (Ok true, w')
                 /\ submitted (trace w') = [Mint MINT_AMOUNT])
  /\ (exists w', checkAndMintIfNeeded Demo.unreachable Demo.ready = (Ok false, w')
                 /\ attempts w' = 0%nat /\ submitted (trace w') = []).
Proof.
  assert (Hw : wallet Demo.ready <> None) by (simpl; discriminate).
  split; [|split].
  - destruct (ensure_balance Demo.funded Demo.ready _ eq_refl Hw) as (H & _).
    apply (H 250); [reflexivity | lia].
  - destruct (ensure_balance Demo.calm Demo.ready _ eq_refl Hw) as (_ & H & _).
    destruct (H eq_refl) as (_ & _ & Hret & _).
    exists (snd (checkAndMintIfNeeded Demo.calm Demo.ready)).
    split; [apply Hret; vm_compute; reflexivity | vm_compute; reflexivity].
  - destruct (ensure_balance Demo.unreachable Demo.ready _ eq_refl Hw) as (_ & _ & H).
    apply (H Demo.networkError). reflexivity.
Defined.

(** C6: [checkAndApproveIfNeeded] reads the allowance once.  An allowance of
    at least SUFFICIENT_ALLOWANCE gives true with no attempt made and
    nothing submitted.  A smaller one hands one
    [Approve WRAPPER_CONTRACT_ADDRESS MaxUint256] action, MaxUint256 being
    2^256 - 1, to [executeTransaction] and returns the boolean of that call
    (false should that call throw).  A failed read gives false with no
    attempt made and nothing submitted. *)
Theorem ensure_allowance env w c :
  mintContract w = Some c -> wallet w <> None ->
  let w1 := tick_reads (emit (Viewed c Allowance) (emit (Console LOG CheckingAllowance) w)) in
  MaxUint256 = 2 ^ 256 - 1
  /\ (forall allowance,
        chain env (reads w) = Ok allowance -> SUFFICIENT_ALLOWANCE <= allowance ->
        exists w',
          checkAndApproveIfNeeded env w = (Ok true, w')
          /\ attempts w' = attempts w
          /\ submitted (trace w') = submitted (trace w))
  /\ (forall allowance,
        chain env (reads w) = Ok allowance -> allowance < SUFFICIENT_ALLOWANCE ->
        let w2 := emit (Console LOG AllowanceLow)
                       (emit (Console LOG (CurrentAllowance allowance)) w1) in
        attempts w2 = attempts w
        /\ submitted (trace w2) = submitted (trace w)
        /\ (forall b w',
              executeTransaction env (Approve WRAPPER_CONTRACT_ADDRESS MaxUint256) "Approve" w2
              = (Ok b, w') ->
              checkAndApproveIfNeeded env w = (Ok b, w'))
        /\ (forall e w',
              executeTransaction env (Approve WRAPPER_CONTRACT_ADDRESS MaxUint256) "Approve" w2
              = (Throw e, w') ->
              checkAndApproveIfNeeded env w
              = (Ok false, emit (Console ERROR (AllowanceCheckFailed (Js.message e))) w')))
  /\ (forall e,
        chain env (reads w) = Throw e ->
        exists w',
          checkAndApproveIfNeeded env w = (Ok false, w')
          /\ attempts w' = attempts w
          /\ submitted (trace w') = submitted (trace w)).
Proof.
  intros Hm Hw.
  destruct w as [i p [wl|] mc wc d k n r t]; [|exfalso; apply Hw; reflexivity].
  simpl in Hm. subst mc. cbv zeta. unfold checkAndApproveIfNeeded.
  split; [reflexivity|]. split; [|split].
  - intros allowance Hb Hge. run_world. rewrite Hb.
    assert (Hz : (allowance <? SUFFICIENT_ALLOWANCE) = false) by (apply Z.ltb_ge; lia).
    rewrite Hz.
    eexists. split; [reflexivity|]. split; [reflexivity|].
    rewrite !submitted_snoc. simpl. now rewrite !List.app_nil_r.
  - intros allowance Hb Hlt. split; [reflexivity|]. split.
    { run_world. rewrite !submitted_snoc. simpl. now rewrite !List.app_nil_r. }
    assert (Hz : (allowance <? SUFFICIENT_ALLOWANCE) = true) by (apply Z.ltb_lt; lia).
    split; intros x w' Hex; run_world; rewrite Hb; rewrite Hz;
      run_world; rewrite Hex; reflexivity.
  - intros e Hb. run_world. rewrite Hb.
    eexists. split; [reflexivity|]. split; [reflexivity|].
    rewrite !submitted_snoc. simpl. now rewrite !List.app_nil_r.
Qed.

Lemma ensure_allowance_witness :
  (exists w', checkAndApproveIfNeeded Demo.approved Demo.ready = (Ok true, w')
              /\ attempts w' = 0%nat /\ submitted (trace w') = [])
  /\ (exists w', checkAndApproveIfNeeded Demo.calm Demo.ready = (Ok true, w')
                 /\ submitted (trace w') = [Approve WRAPPER_CONTRACT_ADDRESS MaxUint256])
  /\ (exists w', checkAndApproveIfNeeded Demo.unreachable Demo.ready = (Ok false, w')
                 /\ attempts w' = 0%nat /\ submitted (trace w') = []).
Proof.
  assert (Hw : wallet Demo.ready <> None) by (simpl; discriminate).
  split; [|split].
  - destruct (ensure_allowance Demo.approved Demo.ready _ eq_refl Hw) as (_ & H & _).
    apply (H MaxUint256); [reflexivity | vm_compute; discriminate].
  - destruct (ensure_allowance Demo.calm Demo.ready _ eq_refl Hw) as (_ & _ & H & _).
    destruct (H 0 eq_refl ltac:(vm_compute; reflexivity)) as (_ & _ & Hret & _).
    exists (snd (checkAndApproveIfNeeded Demo.calm Demo.ready)).
    split; [apply Hret; vm_compute; reflexivity | vm_compute; reflexivity].
  - destruct (ensure_allowance Demo.unreachable Demo.ready _ eq_refl Hw) as (_ & _ & _ & H).
    apply (H Demo.networkError). reflexivity.
Defined.

(* ================================================================== *)
(** ** Token identifiers *)

Lemma append_assoc (a b c : string) : (a ++ b) ++ c = a ++ (b ++ c).
Proof. induction a as [|x a IH]; simpl; [reflexivity | now rewrite IH]. Qed.

Lemma append_nil_r (a : string) : a ++ "" = a.
Proof. induction a as [|x a IH]; simpl; [reflexivity | now rewrite IH]. Qed.

Lemma length_append (a b : string) :
  String.length (a ++ b) = (String.length a + String.length b)%nat.
Proof. induction a as [|x a IH]; simpl; [reflexivity | now rewrite IH]. Qed.

Lemma all_digits_append (a b : string) :
  all_digits (a ++ b) = (all_digits a && all_digits b)%bool.
Proof.
  induction a as [|x a IH]; simpl; [reflexivity|].
  rewrite IH. now rewrite andb_assoc.
Qed.

Lemma substring_all (s : string) : String.substring 0 (String.length s) s = s.
Proof. induction s as [|x s IH]; simpl; [reflexivity | now rewrite IH]. Qed.

Lemma substring_append_r (a b : string) :
  String.substring (String.length a) (String.length b) (a ++ b) = b.
Proof. induction a as [|x a IH]; simpl; [apply substring_all | exact IH]. Qed.

Lemma length_substring (s : string) :
  forall n m, (n + m <= String.length s)%nat ->
              String.length (String.substring n m s) = m.
Proof.
  induction s as [|x s IH]; intros n m H; simpl in H.
  - assert (n = 0%nat) by lia. assert (m = 0%nat) by lia. subst. reflexivity.
  - destruct n as [|n]; simpl.
    + destruct m as [|m]; simpl; [reflexivity|]. rewrite IH by lia. reflexivity.
    + apply IH. lia.
Qed.

Lemma all_digits_substring (s : string) :
  all_digits s = true -> forall n m, all_digits (String.substring n m s) = true.
Proof.
  induction s as [|x s IH]; intros H n m; simpl in H.
  - destruct n, m; reflexivity.
  - apply andb_true_iff in H. destruct H as [Hx Hs].
    destruct n as [|n]; simpl.
    + destruct m as [|m]; simpl; [reflexivity|]. rewrite Hx. simpl. apply IH. exact Hs.
    + apply IH. exact Hs.
Qed.

(** *** The random digits *)

Section TokenId.

Variable env : Env.

Lemma drawn_digits_S start n :
  drawn_digits env start (S n)
  = Js.charAt characters
      (Qfloor (Js.times (draws env start) (inject_Z (Z.of_nat (String.length characters)))))
    ++ drawn_digits env (S start) n.
Proof. reflexivity. Qed.

Lemma random_digits_run :
  forall n result w,
    random_digits env n result w
    = (Ok (result ++ drawn_digits env (drawn w) n), Nat.iter n tick_drawn w).
Proof.
  induction n as [|n IH]; intros result w.
  - simpl. unfold ret. now rewrite append_nil_r.
  - simpl random_digits. unfold bind, Math_random. rewrite IH.
    simpl drawn. rewrite drawn_digits_S, append_assoc.
    f_equal. clear. revert w. induction n as [|n IHn]; intros w; [reflexivity|].
    simpl. rewrite IHn. destruct w; reflexivity.
Qed.

Lemma iter_tick_drawn n w :
  clockReads (Nat.iter n tick_drawn w) = clockReads w
  /\ attempts (Nat.iter n tick_drawn w) = attempts w
  /\ trace (Nat.iter n tick_drawn w) = trace w
  /\ drawn (Nat.iter n tick_drawn w) = (drawn w + n)%nat.
Proof.
  induction n as [|n IH]; simpl; [repeat split; lia|].
  destruct IH as (-> & -> & -> & ->). repeat split. lia.
Qed.

(** In double precision too the index stays below 10: the largest draw
    gives [floor (round (10 - 10 * 2^-53))], which is 9. *)
Lemma floor_digit r :
  unit_draw r -> 0 <= Qfloor (Js.times r (inject_Z 10)) < 10.
Proof.
  intros (Hd & H0 & H1). unfold Js.times.
  pose proof (DoubleFacts.double_below_one r Hd H1) as Hmax.
  split.
  - change 0 with (Qfloor 0). apply Qfloor_resp_le. apply DoubleFacts.round_nonneg.
    apply Qmult_le_0_compat; [exact H0 | discriminate].
  - assert (H9 : Qfloor (Double.round (r * inject_Z 10)) <= 9); [|lia].
    change 9 with (Qfloor (Double.round (Double.below_one * inject_Z 10))).
    apply Qfloor_resp_le, DoubleFacts.round_mono.
    apply Qmult_le_compat_r; [exact Hmax | discriminate].
Qed.

Lemma digit_of_draw r :
  unit_draw r ->
  exists c, Js.charAt characters
              (Qfloor (Js.times r (inject_Z (Z.of_nat (String.length characters)))))
            = String c "" /\ is_digit c = true.
Proof.
  intros H. apply floor_digit in H. change (Z.of_nat (String.length characters)) with 10.
  set (i := Qfloor (Js.times r (inject_Z 10))) in *.
  assert (Hi : i = 0 \/ i = 1 \/ i = 2 \/ i = 3 \/ i = 4 \/ i = 5 \/ i = 6 \/ i = 7
               \/ i = 8 \/ i = 9) by lia.
  clearbody i.
  repeat (destruct Hi as [->|Hi]; [eexists; split; reflexivity|]).
  subst i. eexists; split; reflexivity.
Qed.

Lemma drawn_digits_shape :
  forall n start,
    (forall i, (i < n)%nat -> unit_draw (draws env (start + i))) ->
    String.length (drawn_digits env start n) = n
    /\ all_digits (drawn_digits env start n) = true.
Proof.
  induction n as [|n IH]; intros start Hall; [split; reflexivity|].
  rewrite drawn_digits_S.
  destruct (digit_of_draw (draws env start)) as (c & -> & Hc).
  { specialize (Hall 0%nat). rewrite Nat.add_0_r in Hall. apply Hall. lia. }
  destruct (IH (S start)) as [Hlen Hdig].
  { intros i Hi. replace (S start + i)%nat with (start + S i)%nat by lia. apply Hall. lia. }
  simpl. rewrite Hlen, Hc, Hdig. split; reflexivity.
Qed.

End TokenId.

(** *** Decimal strings *)

Lemma length_string_of_uint d :
  String.length (NilEmpty.string_of_uint d) = nb_digits d.
Proof. induction d; simpl; congruence. Qed.

Lemma all_digits_string_of_uint d :
  all_digits (NilEmpty.string_of_uint d) = true.
Proof. induction d; simpl; auto. Qed.

Lemma digits_parse s :
  all_digits s = true ->
  exists d, NilEmpty.uint_of_string s = Some d /\ NilEmpty.string_of_uint d = s.
Proof.
  induction s as [|c s IH]; simpl; intros H.
  - exists Nil. split; reflexivity.
  - apply andb_true_iff in H. destruct H as [Hc Hs].
    destruct (IH Hs) as (d & Hd & Hsd). rewrite Hd.
    destruct c as [[] [] [] [] [] [] [] []]; try discriminate Hc;
      simpl; eexists; (split; [reflexivity | simpl; now rewrite Hsd]).
Qed.

Lemma parseBigInt_digits s :
  all_digits s = true -> Js.parseBigInt s = Js.digits_value s.
Proof.
  destruct s as [|c s]; [reflexivity|]. simpl all_digits. intros H.
  apply andb_true_iff in H. destruct H as [Hc _].
  destruct c as [[] [] [] [] [] [] [] []]; try discriminate Hc; reflexivity.
Qed.

Lemma toString_of_uint d :
  Js.toString (Z.of_uint d) = NilEmpty.string_of_uint (unorm d).
Proof.
  unfold Js.toString. change (Z.of_uint d) with (Z.of_int (Pos d)).
  rewrite DecimalZ.to_of. simpl norm. unfold NilZero.string_of_int, NilZero.string_of_uint.
  destruct (unorm d) eqn:E; try reflexivity.
  exfalso. exact (unorm_nonnil d E).
Qed.

Lemma leading_zero d :
  String.get 0 (NilEmpty.string_of_uint d) = Some "0"%char <-> exists d', d = D0 d'.
Proof.
  destruct d; simpl; split; intros H; try discriminate H; eauto;
    destruct H as (d' & H); discriminate H.
Qed.

Lemma unorm_keeps d :
  d <> Nil -> (forall d', d <> D0 d') -> unorm d = d.
Proof.
  intros Hn Hz. destruct d; try reflexivity.
  - contradiction.
  - exfalso. exact (Hz d eq_refl).
Qed.

Lemma unorm_drops d :
  d <> Nil -> (nb_digits (unorm (D0 d)) < nb_digits (D0 d))%nat.
Proof.
  intros Hn. rewrite unorm_D0. pose proof (nb_digits_unorm d Hn). simpl. lia.
Qed.

Lemma of_lu_bound d :
  (DecimalPos.Unsigned.of_lu d < 10 ^ N.of_nat (nb_digits d))%N.
Proof.
  induction d; cbn [DecimalPos.Unsigned.of_lu nb_digits]; [reflexivity| ..];
    rewrite Nat2N.inj_succ, N.pow_succ_r'; lia.
Qed.

Lemma string_of_pos p :
  NilZero.string_of_uint (Pos.to_uint p) = NilEmpty.string_of_uint (Pos.to_uint p).
Proof.
  pose proof (DecimalPos.Unsigned.to_uint_nonnil p) as Hnn.
  unfold NilZero.string_of_uint. destruct (Pos.to_uint p); [contradiction | reflexivity ..].
Qed.

Lemma digits_of_pos p :
  (10000 <= N.pos p)%N -> (5 <= nb_digits (Pos.to_uint p))%nat.
Proof.
  intros H.
  destruct (Nat.le_gt_cases 5 (nb_digits (Pos.to_uint p))) as [Hok|Hsmall]; [exact Hok|].
  exfalso.
  pose proof (of_lu_bound (rev (Pos.to_uint p))) as Hb.
  rewrite nb_digits_rev, <- DecimalPos.Unsigned.of_uint_alt, DecimalPos.Unsigned.of_to in Hb.
  assert (Hpow : (10 ^ N.of_nat (nb_digits (Pos.to_uint p)) <= 10 ^ 4)%N)
    by (apply N.pow_le_mono_r; [discriminate | lia]).
  change (10 ^ 4)%N with 10000%N in Hpow. lia.
Qed.

Lemma toString_timestamp now :
  10000 <= now ->
  all_digits (Js.toString now) = true /\ (5 <= String.length (Js.toString now))%nat.
Proof.
  intros H. destruct now as [|p|p]; try lia.
  unfold Js.toString. simpl Z.to_int. unfold NilZero.string_of_int.
  rewrite string_of_pos, length_string_of_uint.
  split; [apply all_digits_string_of_uint | apply digits_of_pos; lia].
Qed.

Lemma getRandomTokenID_unfold env n w :
  getRandomTokenID env n w
  = let text := drawn_digits env (drawn w) n
                ++ Js.slice_last 5 (Js.toString (clock env (clockReads w))) in
    let w' := tick_clock (Nat.iter n tick_drawn w) in
    match Js.parseBigInt text with
    | Some id => (Ok id, w')
    | None => (Throw (Js.SyntaxError ("Cannot convert " ++ text ++ " to a BigInt")), w')
    end.
Proof.
  unfold getRandomTokenID, bind. rewrite random_digits_run.
  unfold Date_now. destruct (iter_tick_drawn n w) as (-> & _). simpl append.
  cbv zeta. destruct (Js.parseBigInt _); reflexivity.
Qed.

(** *** The number a string of digits denotes *)

Lemma of_lu_revapp_horner d :
  forall d', DecimalPos.Unsigned.of_lu (revapp d d') = horner d (DecimalPos.Unsigned.of_lu d').
Proof.
  induction d; intros d'; cbn [revapp horner]; [reflexivity| ..];
    rewrite IHd; reflexivity.
Qed.

Lemma of_uint_horner d : Z.of_uint d = Z.of_N (horner d 0).
Proof.
  unfold Z.of_uint. f_equal.
  rewrite DecimalPos.Unsigned.of_uint_alt. unfold rev. apply of_lu_revapp_horner.
Qed.

Lemma horner_value s :
  forall d acc,
    NilEmpty.uint_of_string s = Some d ->
    Z.of_N (horner d acc) = decimal_value s (Z.of_N acc).
Proof.
  induction s as [|c s IH]; intros d acc H.
  - injection H as <-. reflexivity.
  - simpl in H. destruct (NilEmpty.uint_of_string s) as [d'|] eqn:Hs; [|discriminate H].
    apply uint_of_char_spec in H.
    cbn [decimal_value].
    repeat (destruct H as [[-> ->]|H];
            [cbn [horner]; rewrite (IH d' _ eq_refl); f_equal;
             rewrite ?N2Z.inj_add, N2Z.inj_mul;
             match goal with |- context [Z.of_nat (nat_of_ascii ?c)] =>
               let v := eval vm_compute in (Z.of_nat (nat_of_ascii c)) in
               change (Z.of_nat (nat_of_ascii c)) with v end; lia|]).
    destruct H as [-> ->]. cbn [horner]. rewrite (IH d' _ eq_refl). f_equal.
    rewrite ?N2Z.inj_add, N2Z.inj_mul.
    change (Z.of_nat (nat_of_ascii "9")) with 57. lia.
Qed.

Lemma digits_value_spec s :
  all_digits s = true -> Js.digits_value s = Some (decimal_value s 0).
Proof.
  intros H. destruct (digits_parse s H) as (d & Hd & _).
  unfold Js.digits_value. rewrite Hd. simpl. f_equal.
  rewrite of_uint_horner. apply (horner_value s d 0%N Hd).
Qed.

Lemma decimal_value_append a :
  forall b acc, decimal_value (a ++ b) acc = decimal_value b (decimal_value a acc).
Proof. induction a as [|c a IH]; intros b acc; simpl; [reflexivity | apply IH]. Qed.

Lemma decimal_value_shift s :
  forall acc,
    decimal_value s acc
    = acc * 10 ^ Z.of_nat (String.length s) + decimal_value s 0.
Proof.
  induction s as [|c s IH]; intros acc.
  - simpl. lia.
  - cbn [decimal_value String.length]. rewrite Nat2Z.inj_succ, Z.pow_succ_r by lia.
    rewrite (IH (10 * acc + _)), (IH (10 * 0 + _)). ring.
Qed.

Lemma is_digit_value c :
  is_digit c = true -> 0 <= Z.of_nat (nat_of_ascii c) - 48 <= 9.
Proof.
  unfold is_digit. intros H. apply andb_true_iff in H. destruct H as [H1 H2].
  apply Nat.leb_le in H1, H2. lia.
Qed.

Lemma decimal_value_bound s :
  all_digits s = true ->
  0 <= decimal_value s 0 < 10 ^ Z.of_nat (String.length s).
Proof.
  induction s as [|c s IH]; intros H.
  - simpl. lia.
  - simpl in H. apply andb_true_iff in H. destruct H as [Hc Hs].
    specialize (IH Hs). apply is_digit_value in Hc.
    cbn [decimal_value String.length]. rewrite Nat2Z.inj_succ, Z.pow_succ_r by lia.
    rewrite decimal_value_shift.
    assert (0 < 10 ^ Z.of_nat (String.length s)) by (apply Z.pow_pos_nonneg; lia).
    nia.
Qed.

Lemma substring_split s :
  forall n, (n <= String.length s)%nat ->
            s = String.substring 0 n s ++ String.substring n (String.length s - n) s.
Proof.
  induction s as [|c s IH]; intros n Hn.
  - destruct n; [reflexivity | simpl in Hn; lia].
  - destruct n as [|n].
    + simpl. now rewrite substring_all.
    + simpl. f_equal. apply IH. simpl in Hn. lia.
Qed.

Lemma toString_value now :
  0 <= now -> decimal_value (Js.toString now) 0 = now.
Proof.
  intros H. destruct now as [|p|p]; [reflexivity | | lia].
  unfold Js.toString. simpl Z.to_int. unfold NilZero.string_of_int.
  rewrite string_of_pos.
  pose proof (NilEmpty.usu (Pos.to_uint p)) as Hp.
  pose proof (horner_value _ _ 0%N Hp) as Hh. change (Z.of_N 0) with 0 in Hh.
  rewrite <- Hh, <- of_uint_horner.
  unfold Z.of_uint. now rewrite DecimalPos.Unsigned.of_to.
Qed.

(** The last five digits of a timestamp, as a number. *)
Lemma suffix_value now :
  10000 <= now ->
  decimal_value (Js.slice_last 5 (Js.toString now)) 0 = now mod 100000.
Proof.
  intros H. destruct (toString_timestamp now H) as [Hd H5].
  set (ts := Js.toString now) in *.
  pose proof (substring_split ts (String.length ts - 5) ltac:(lia)) as Hsplit.
  replace (String.length ts - (String.length ts - 5))%nat with 5%nat in Hsplit by lia.
  fold (Js.slice_last 5 ts) in Hsplit.
  set (hd := String.substring 0 (String.length ts - 5) ts) in *.
  set (tl := Js.slice_last 5 ts) in *.
  assert (Hl : String.length tl = 5%nat)
    by (unfold tl, Js.slice_last; apply length_substring; lia).
  assert (Hdt : all_digits tl = true)
    by (unfold tl, Js.slice_last; apply all_digits_substring; exact Hd).
  assert (Hdh : all_digits hd = true)
    by (unfold hd; apply all_digits_substring; exact Hd).
  pose proof (toString_value now ltac:(lia)) as Hv. fold ts in Hv.
  rewrite Hsplit, decimal_value_append, decimal_value_shift, Hl in Hv.
  pose proof (decimal_value_bound tl Hdt) as Hb. rewrite Hl in Hb.
  change (10 ^ Z.of_nat 5) with 100000 in *.
  rewrite <- Hv. rewrite Z.add_comm, Z.mod_add by lia.
  symmetry. apply Z.mod_small. exact Hb.
Qed.

(** The last five characters survive the removal of leading zeros, as
    long as five characters are left. *)
Lemma slice_last_cons c s :
  (5 <= String.length s)%nat -> Js.slice_last 5 (String c s) = Js.slice_last 5 s.
Proof.
  intros H. unfold Js.slice_last. cbn [String.length].
  replace (S (String.length s) - 5)%nat with (S (String.length s - 5)) by lia.
  reflexivity.
Qed.

Lemma slice_last_unorm d :
  (5 <= String.length (NilEmpty.string_of_uint (unorm d)))%nat ->
  Js.slice_last 5 (NilEmpty.string_of_uint (unorm d))
  = Js.slice_last 5 (NilEmpty.string_of_uint d).
Proof.
  induction d; intros H; try reflexivity.
  - simpl in H. lia.
  - change (unorm (D0 d)) with (unorm d) in *.
    rewrite (IHd H). cbn [NilEmpty.string_of_uint].
    symmetry. apply slice_last_cons.
    rewrite length_string_of_uint in *.
    destruct d; [simpl in H; lia | ..];
      (eapply Nat.le_trans; [exact H | apply nb_digits_unorm; discriminate]).
Qed.

(** Every draw of the scripted environments is one half, a double in
    [0, 1). *)
Lemma unit_draw_half : unit_draw (1 # 2).
Proof.
  split; [unfold is_double, Qeq; vm_compute; reflexivity|].
  split; [unfold Qle | unfold Qlt]; simpl; lia.
Qed.

(** C7, as the code has it: for the default length 18, draws in [0, 1) and
    a timestamp of at least five digits, the text handed to [BigInt] has
    exactly 23 decimal digits and ends with the last five digits of the
    timestamp; the returned value is the number that text denotes, below
    10^23.  The claim's second half holds of every value: it is congruent
    to the timestamp modulo 100000, and its decimal form ends with the last
    five digits of the timestamp as soon as it has five digits.  Only the
    digit count fails: leading zeros are not kept by [BigInt], so the
    decimal form has at most 23 digits, and exactly 23 precisely when the
    first random digit is not 0, in which case it is the text itself. *)
Theorem token_id_digits env w :
  (forall i, (i < 18)%nat -> unit_draw (draws env (drawn w + i))) ->
  10000 <= clock env (clockReads w) ->
  let now := clock env (clockReads w) in
  let text := drawn_digits env (drawn w) 18 ++ Js.slice_last 5 (Js.toString now) in
  String.length text = 23%nat
  /\ all_digits text = true
  /\ Js.slice_last 5 text = Js.slice_last 5 (Js.toString now)
  /\ exists id w',
       getRandomTokenID env 18 w = (Ok id, w')
       /\ Js.parseBigInt text = Some id
       /\ id = decimal_value text 0
       /\ 0 <= id < 10 ^ 23
       /\ id mod 100000 = now mod 100000
       /\ ((5 <= String.length (Js.toString id))%nat ->
           Js.slice_last 5 (Js.toString id) = Js.slice_last 5 (Js.toString now))
       /\ (String.length (Js.toString id) <= 23)%nat
       /\ (String.length (Js.toString id) = 23%nat <-> String.get 0 text <> Some "0"%char)
       /\ (String.get 0 text <> Some "0"%char -> Js.toString id = text).
Proof.
  intros Hdraws Hnow now text.
  destruct (drawn_digits_shape env 18 (drawn w) Hdraws) as [Hlen Hdig].
  destruct (toString_timestamp now Hnow) as [Hts Hts5].
  pose proof (suffix_value now Hnow) as Hsv.
  set (ds := drawn_digits env (drawn w) 18) in *.
  set (suffix := Js.slice_last 5 (Js.toString now)) in *.
  assert (Hsl : String.length suffix = 5%nat).
  { unfold suffix, Js.slice_last. apply length_substring. lia. }
  assert (Hsd : all_digits suffix = true).
  { unfold suffix, Js.slice_last. apply all_digits_substring. exact Hts. }
  assert (Htl : String.length text = 23%nat).
  { unfold text. rewrite length_append, Hlen, Hsl. reflexivity. }
  assert (Htd : all_digits text = true).
  { unfold text. rewrite all_digits_append, Hdig, Hsd. reflexivity. }
  assert (Hsuffix : Js.slice_last 5 text = suffix).
  { unfold Js.slice_last at 1. rewrite Htl. unfold text.
    change (23 - 5)%nat with 18%nat. rewrite <- Hlen at 1. rewrite <- Hsl at 1.
    apply substring_append_r. }
  split; [exact Htl|]. split; [exact Htd|]. split; [exact Hsuffix|].
  destruct (digits_parse text Htd) as (d & Hparse & Hprint).
  assert (Hnb : nb_digits d = 23%nat)
    by (rewrite <- length_string_of_uint, Hprint; exact Htl).
  assert (Hnn : d <> Nil) by (intros ->; discriminate Hnb).
  assert (Hbig : Js.parseBigInt text = Some (Z.of_uint d)).
  { rewrite parseBigInt_digits by exact Htd. unfold Js.digits_value. now rewrite Hparse. }
  assert (Hval : Z.of_uint d = decimal_value text 0).
  { pose proof (digits_value_spec text Htd) as Hv.
    rewrite <- parseBigInt_digits, Hbig in Hv by exact Htd. now injection Hv. }
  exists (Z.of_uint d), (tick_clock (Nat.iter 18 tick_drawn w)).
  split.
  { rewrite getRandomTokenID_unfold. cbv zeta. fold now. fold ds. fold suffix. fold text.
    rewrite Hbig. reflexivity. }
  split; [exact Hbig|]. split; [exact Hval|].
  split.
  { rewrite Hval. pose proof (decimal_value_bound text Htd) as Hb.
    rewrite Htl in Hb. exact Hb. }
  split.
  { rewrite Hval. unfold text.
    rewrite decimal_value_append, decimal_value_shift, Hsl, Hsv.
    change (10 ^ Z.of_nat 5) with 100000.
    rewrite Z.add_comm, Z.mod_add by lia. apply Z.mod_mod. lia. }
  rewrite toString_of_uint.
  split.
  { intros H5. rewrite (slice_last_unorm d H5), Hprint. exact Hsuffix. }
  rewrite length_string_of_uint.
  split; [rewrite <- Hnb; apply nb_digits_unorm; exact Hnn|].
  assert (Hkeep : String.get 0 text <> Some "0"%char -> unorm d = d).
  { intros Hz. apply unorm_keeps; [exact Hnn|].
    intros d' ->. apply Hz. rewrite <- Hprint. apply leading_zero. eauto. }
  split; [split|].
  - intros H23 Hz. rewrite <- Hprint in Hz. apply leading_zero in Hz.
    destruct Hz as (d' & ->).
    assert (Hd' : d' <> Nil) by (intros ->; discriminate Hnb).
    pose proof (unorm_drops d' Hd'). lia.
  - intros Hz. rewrite (Hkeep Hz). exact Hnb.
  - intros Hz. rewrite (Hkeep Hz). exact Hprint.
Qed.

Lemma token_id_digits_witness :
  exists id w',
    getRandomTokenID Demo.calm 18 Demo.ready = (Ok id, w')
    /\ String.length (Js.toString id) = 23%nat
    /\ Js.slice_last 5 (Js.toString id) = "12345"
    /\ id mod 100000 = 12345.
Proof.
  assert (H1 : forall i, (i < 18)%nat -> unit_draw (draws Demo.calm (drawn Demo.ready + i))).
  { intros i _. exact unit_draw_half. }
  assert (H2 : 10000 <= clock Demo.calm (clockReads Demo.ready)) by (simpl; lia).
  destruct (token_id_digits Demo.calm Demo.ready H1 H2)
    as (_ & _ & Hsuffix & id & w' & Hrun & _ & _ & _ & Hmod & _ & _ & Hiff & Hsame).
  assert (Hlead : String.get 0 (drawn_digits Demo.calm (drawn Demo.ready) 18
                                 ++ Js.slice_last 5
                                      (Js.toString (clock Demo.calm (clockReads Demo.ready))))
                  <> Some "0"%char)
    by (vm_compute; discriminate).
  exists id, w'. split; [exact Hrun|]. split; [apply Hiff; exact Hlead|].
  split; [rewrite (Hsame Hlead), Hsuffix; vm_compute; reflexivity | exact Hmod].
Defined.

(** C7 as stated fails: when the first random digit is 0 the value has
    fewer than 23 digits (its last five digits are still the timestamp's). *)
Lemma token_id_leading_zero :
  unit_draw (draws Demo.leadingZero (drawn Demo.ready))
  /\ fst (getRandomTokenID Demo.leadingZero 18 Demo.ready) = Ok 5555555555555555512345
  /\ Js.toString 5555555555555555512345 = "5555555555555555512345"
  /\ String.length (Js.toString 5555555555555555512345) = 22%nat
  /\ String.length (Js.toString 5555555555555555512345) <> 23%nat.
Proof.
  split.
  { split; [unfold is_double, Qeq; vm_compute; reflexivity|].
    split; [unfold Qle | unfold Qlt]; simpl; lia. }
  split; [vm_compute; reflexivity|]. split; [vm_compute; reflexivity|].
  split; [vm_compute; reflexivity | vm_compute; discriminate].
Qed.

(* ================================================================== *)
(** ** The daily loop of the batch mode *)

(** C9: in batch mode, once [runDailyCycle] has returned, the turn of the
    main loop ends with exactly one sleep, of
    [max(0, 24h - (endTime - startTime))] milliseconds: the remainder of the
    24-hour period, and zero when the cycle overran it.  The next turn of
    the loop starts from the state after that sleep. *)
Theorem daily_sleep_is_remainder env w w2 :
  runDailyCycle env (tick_clock w) = (Ok tt, w2) ->
  let startTime := clock env (clockReads w) in
  let endTime := clock env (clockReads w2) in
  let cycleDuration := endTime - startTime in
  let oneDayInMs := 24 * 60 * 60 * 1000 in
  let sleepTime := Z.max 0 (oneDayInMs - cycleDuration) in
  oneDayInMs = 86400000
  /\ (oneDayInMs <= cycleDuration -> sleepTime = 0)
  /\ (cycleDuration <= oneDayInMs -> sleepTime = oneDayInMs - cycleDuration)
  /\ exists w3,
       daily_iteration env w = (Ok tt, w3)
       /\ trace w3
          = (trace w2
             ++ [ Console LOG Banner; Console LOG CycleConcluded;
                  Console LOG (CycleDuration cycleDuration);
                  Console LOG (SleepingFor sleepTime);
                  Console LOG (NextCycleAround (clock env (clockReads w2 + 1) + sleepTime));
                  Console LOG Banner;
                  Slept sleepTime ])%list
       /\ forall days, daily_loop env (S days) w = daily_loop env days w3.
Proof.
  intros Hcycle. cbv zeta.
  split; [reflexivity|]. split; [lia|]. split; [lia|].
  assert (Hturn : exists w3,
             daily_iteration env w = (Ok tt, w3)
             /\ trace w3
                = (trace w2
                   ++ [ Console LOG Banner; Console LOG CycleConcluded;
                        Console LOG (CycleDuration (clock env (clockReads w2)
                                                  - clock env (clockReads w)));
                        Console LOG (SleepingFor
                                     (Z.max 0 (24 * 60 * 60 * 1000
                                               - (clock env (clockReads w2)
                                                  - clock env (clockReads w)))));
                        Console LOG (NextCycleAround
                                     (clock env (clockReads w2 + 1)
                                      + Z.max 0 (24 * 60 * 60 * 1000
                                                 - (clock env (clockReads w2)
                                                    - clock env (clockReads w)))));
                        Console LOG Banner;
                        Slept (Z.max 0 (24 * 60 * 60 * 1000
                                        - (clock env (clockReads w2)
                                           - clock env (clockReads w)))) ])%list).
  { unfold daily_iteration.
    destruct w as [i p wl mc wc d k n r t]. destruct w2 as [i2 p2 wl2 mc2 wc2 d2 k2 n2 r2 t2].
    run_world. rewrite Hcycle.
    eexists. split; [reflexivity|]. cbv [trace].
    rewrite <- !app_assoc. simpl app. replace (S k2) with (k2 + 1)%nat by lia. reflexivity. }
  destruct Hturn as (w3 & Hrun & Htrace).
  exists w3. split; [exact Hrun|]. split; [exact Htrace|].
  intros days. simpl daily_loop. unfold bind at 1. rewrite Hrun. reflexivity.
Qed.

Lemma daily_sleep_is_remainder_witness :
  (exists w3,
      daily_iteration Demo.calm Demo.ready = (Ok tt, w3)
      /\ List.last (trace w3) (Slept 0) = Slept 86360000)
  /\ (exists w3,
         daily_iteration Demo.slowDay Demo.ready = (Ok tt, w3)
         /\ List.last (trace w3) (Slept (-1)) = Slept 0).
Proof.
  split.
  - destruct (daily_sleep_is_remainder Demo.calm Demo.ready
                (snd (runDailyCycle Demo.calm (tick_clock Demo.ready))))
      as (_ & _ & _ & w3 & Hrun & _).
    { vm_compute. reflexivity. }
    exists w3. split; [exact Hrun|].
    replace w3 with (snd (daily_iteration Demo.calm Demo.ready))
      by (rewrite Hrun; reflexivity).
    vm_compute. reflexivity.
  - destruct (daily_sleep_is_remainder Demo.slowDay Demo.ready
                (snd (runDailyCycle Demo.slowDay (tick_clock Demo.ready))))
      as (_ & _ & _ & w3 & Hrun & _).
    { vm_compute. reflexivity. }
    exists w3. split; [exact Hrun|].
    replace w3 with (snd (daily_iteration Demo.slowDay Demo.ready))
      by (rewrite Hrun; reflexivity).
    vm_compute. reflexivity.
Defined.

(* ================================================================== *)
(** ** Random delays *)

(** The factor [max - min + 1] as the script computes it. *)
Lemma span_exact min max :
  min <= max -> - 2 ^ 51 <= min -> max <= 2 ^ 51 ->
  (Js.plus (Js.minus (inject_Z max) (inject_Z min)) 1 == inject_Z (max - min + 1))%Q.
Proof.
  intros Hle Hmin Hmax. unfold Js.plus, Js.minus.
  assert (E1 : (inject_Z max - inject_Z min == inject_Z (max - min))%Q)
    by (unfold Z.sub; rewrite inject_Z_plus, inject_Z_opp; reflexivity).
  rewrite (DoubleFacts.round_comp _ _ E1), (DoubleFacts.round_Z (max - min)) by lia.
  assert (E2 : (inject_Z (max - min) + 1 == inject_Z (max - min + 1))%Q)
    by (rewrite inject_Z_plus; reflexivity).
  rewrite (DoubleFacts.round_comp _ _ E2). apply DoubleFacts.round_Z. lia.
Qed.

Lemma span_nonneg min max :
  min <= max -> (0 <= Js.plus (Js.minus (inject_Z max) (inject_Z min)) 1)%Q.
Proof.
  intros Hle. unfold Js.plus, Js.minus. apply DoubleFacts.round_nonneg.
  assert (H : (0 <= Double.round (inject_Z max - inject_Z min))%Q).
  { apply DoubleFacts.round_nonneg.
    assert (H : (inject_Z min <= inject_Z max)%Q) by (rewrite <- Zle_Qle; exact Hle).
    lra. }
  lra.
Qed.

(** The value grows with the draw. *)
Lemma delay_of_mono r r' min max :
  (r <= r')%Q -> min <= max -> delay_of r min max <= delay_of r' min max.
Proof.
  intros Hr Hle. unfold delay_of, Js.plus at 1 3, Js.times.
  apply Qfloor_resp_le, DoubleFacts.round_mono.
  apply Qplus_le_compat; [|apply Qle_refl].
  apply DoubleFacts.round_mono.
  apply Qmult_le_compat_r; [exact Hr | apply span_nonneg; exact Hle].
Qed.

Lemma delay_of_zero min max :
  Z.abs min < 2 ^ 53 -> delay_of 0 min max = min.
Proof.
  intros Hmin. unfold delay_of, Js.plus at 1, Js.times.
  set (n := Js.plus (Js.minus (inject_Z max) (inject_Z min)) 1).
  assert (E1 : (0 * n == 0)%Q) by ring.
  assert (E2 : (Double.round (0 * n) + inject_Z min == inject_Z min)%Q).
  { rewrite (DoubleFacts.round_comp _ _ E1). change (Double.round 0) with 0%Q. ring. }
  rewrite (Qfloor_comp _ _ (DoubleFacts.round_comp _ _ E2)).
  rewrite (Qfloor_comp _ _ (DoubleFacts.round_Z min Hmin)). apply Qfloor_Z.
Qed.

(** The largest draw can give one more than [max], never more. *)
Lemma delay_max_le min max :
  min <= max -> - 2 ^ 51 <= min -> max <= 2 ^ 51 -> delay_max min max <= max + 1.
Proof.
  intros Hle Hmin Hmax. unfold delay_max, delay_of, Js.plus at 1, Js.times.
  pose proof (span_exact min max Hle Hmin Hmax) as Hspan.
  set (n := Js.plus (Js.minus (inject_Z max) (inject_Z min)) 1) in *.
  rewrite <- (Qfloor_Z (max + 1)).
  apply Qfloor_resp_le.
  rewrite <- (DoubleFacts.round_Z (max + 1)) by lia.
  apply DoubleFacts.round_mono.
  replace (max + 1) with ((max - min + 1) + min) by lia.
  rewrite inject_Z_plus.
  apply Qplus_le_compat; [|apply Qle_refl].
  rewrite <- (DoubleFacts.round_Z (max - min + 1)) by lia.
  apply DoubleFacts.round_mono. rewrite Hspan.
  assert (H0 : (0 <= inject_Z (max - min + 1))%Q)
    by (change 0%Q with (inject_Z 0); rewrite <- Zle_Qle; lia).
  assert (H1 : (Double.below_one <= 1)%Q) by (unfold Double.below_one, Qle; simpl; lia).
  setoid_replace (inject_Z (max - min + 1)) with (1 * inject_Z (max - min + 1))%Q at 2 by ring.
  apply Qmult_le_compat_r; assumption.
Qed.

Lemma delay_of_range r min max :
  unit_draw r -> min <= max -> - 2 ^ 51 <= min -> max <= 2 ^ 51 ->
  min <= delay_of r min max <= delay_max min max.
Proof.
  intros (Hd & H0 & H1) Hle Hmin Hmax. split.
  - rewrite <- (delay_of_zero min max) at 1 by lia. apply delay_of_mono; assumption.
  - apply delay_of_mono; [apply DoubleFacts.double_below_one; assumption | exact Hle].
Qed.

(** The range at a call site, from the value of the largest draw. *)
Lemma delay_site r min max top :
  unit_draw r -> min <= max -> - 2 ^ 51 <= min -> max <= 2 ^ 51 ->
  delay_max min max = top ->
  min <= delay_of r min max <= top.
Proof.
  intros Hr Hle Hmin Hmax <-. apply delay_of_range; assumption.
Qed.

(** The largest value at each call site of the two scripts. *)
Lemma delay_max_table :
  delay_max 1 100 = 100
  /\ delay_max 60000 120000 = 120001
  /\ delay_max 25 50 = 51
  /\ delay_max 30000 60000 = 60001
  /\ delay_max 10000 20000 = 20001
  /\ delay_max 10000 30000 = 30000
  /\ delay_max (300 * 1000) (600 * 1000) = 600001.
Proof. repeat split; vm_compute; reflexivity. Qed.

Lemma randomDelay_run env min max w :
  randomDelay env min max w = (Ok (delay_of (draws env (drawn w)) min max), tick_drawn w).
Proof. reflexivity. Qed.

(** X1: [randomDelay(min, max)] in double precision.  With a draw in
    [0, 1), [min <= max] and both within 2^51 in absolute value, the result
    is an integer between [min] and the value the largest draw gives,
    which is at most [max + 1]: the rounding of [r * (max - min + 1) + min]
    can reach [max + 1], so the result can exceed [max] by one (it does for
    (60000, 120000), not for (1, 100)).  The call consumes exactly one draw
    and does nothing else. *)
Theorem randomDelay_in_range env min max w :
  unit_draw (draws env (drawn w)) ->
  min <= max -> - 2 ^ 51 <= min -> max <= 2 ^ 51 ->
  exists d,
    randomDelay env min max w = (Ok d, tick_drawn w)
    /\ min <= d <= delay_max min max
    /\ delay_max min max <= max + 1.
Proof.
  intros Hr Hle Hmin Hmax. exists (delay_of (draws env (drawn w)) min max).
  split; [apply randomDelay_run|].
  split; [apply delay_of_range; assumption | apply delay_max_le; assumption].
Qed.

Lemma scripted_fair l balance : fair (Demo.scripted l balance).
Proof. intros n. exact unit_draw_half. Qed.

Lemma calm_fair : fair Demo.calm.
Proof. apply scripted_fair. Qed.

Lemma below_one_unit : unit_draw Double.below_one.
Proof.
  split; [exact DoubleFacts.below_one_double|].
  split; [unfold Qle | unfold Qlt]; simpl; lia.
Qed.

(** The largest draw makes the back-off one millisecond longer than the
    maximum asked for. *)
Example back_off_overshoots :
  randomDelay Demo.highDraws 60000 120000 Demo.ready = (Ok 120001, tick_drawn Demo.ready).
Proof. vm_compute. reflexivity. Qed.

Lemma randomDelay_in_range_witness :
  exists d,
    randomDelay Demo.highDraws 60000 120000 Demo.ready = (Ok d, tick_drawn Demo.ready)
    /\ 60000 <= d <= 120001.
Proof.
  destruct (randomDelay_in_range Demo.highDraws 60000 120000 Demo.ready below_one_unit)
    as (d & Hrun & Hd & Hmax); [lia | lia | lia |].
  exists d. split; [exact Hrun | lia].
Defined.

(* ================================================================== *)
(** ** What a call of the executor adds to the trace *)

Lemma confirmations_app t1 t2 :
  confirmations (t1 ++ t2) = (confirmations t1 + confirmations t2)%nat.
Proof. unfold confirmations. now rewrite filter_app, length_app. Qed.

Lemma submitted_app t1 t2 :
  submitted (t1 ++ t2) = (submitted t1 ++ submitted t2)%list.
Proof. unfold submitted. apply flat_map_app. Qed.

Section ExecutorTrace.

Variable env : Env.

(** The events of the [try] block. *)
Lemma try_trace fn name a w :
  exists delta,
    trace (snd (submit_and_confirm env fn name a w)) = (trace w ++ delta)%list
    /\ Forall (attempt_step env fn a) delta
    /\ confirmations delta
       = match fst (submit_and_confirm env fn name a w) with
         | Ok _ => 1%nat
         | Throw _ => 0%nat
         end
    /\ (exists k, (k <= 1)%nat /\ submitted delta = repeat fn k).
Proof.
  assert (Hev : forall g n c x,
             x = fn -> feeData a = Ok (Some g) ->
             attempt_step env fn a (Submitted c x (g + delay_of (draws env n) 1 100))).
  { intros g n c x -> Hg. simpl. split; [reflexivity|]. exists g, n.
    split; [exact Hg | reflexivity]. }
  destruct w as [i [p|] [wl|] [mc|] [wc|] d c n r t];
    unfold submit_and_confirm, call; run_frame; rewrite ?randomDelay_run; run_frame;
    try (exists []; rewrite List.app_nil_r; repeat split;
         [constructor | exists 0%nat; split; [lia|reflexivity]]; fail).
  all: destruct (feeData a) as [[g|]|e] eqn:Hfee; run_frame;
    rewrite ?randomDelay_run; run_frame.
  all: try (eexists; split; [rewrite <- ?app_assoc; cbn [app]; reflexivity|]; split;
            [repeat (apply Forall_cons; [exact I|]); apply Forall_nil
            | split; [reflexivity | exists 0%nat; split; [lia|reflexivity]]]; fail).
  all: destruct fn; run_frame;
    try (eexists; split; [rewrite <- ?app_assoc; cbn [app]; reflexivity|]; split;
         [repeat (apply Forall_cons; [exact I|]); apply Forall_nil
         | split; [reflexivity | exists 0%nat; split; [lia|reflexivity]]]; fail).
  all: destruct (sent a) as [tx|e]; run_frame; [destruct (mined a) as [rc|e]; run_frame|];
    (eexists; split; [rewrite <- ?app_assoc; cbn [app]; reflexivity|]; split;
     [repeat (apply Forall_cons;
              [first [exact I | apply Hev; [reflexivity | reflexivity]]|]);
      apply Forall_nil
     | split; [reflexivity | exists 1%nat; split; [lia|reflexivity]]]).
Qed.

(** The [try] block returns nothing but [true]. *)
Lemma try_result_true fn name a w b :
  fst (submit_and_confirm env fn name a w) = Ok b -> b = true.
Proof.
  destruct w as [i [p|] [wl|] [mc|] [wc|] d c n r t];
    unfold submit_and_confirm, call; run_frame; rewrite ?randomDelay_run; run_frame;
    try discriminate;
    destruct (feeData a) as [[g|]|e]; run_frame; rewrite ?randomDelay_run; run_frame;
    try discriminate;
    destruct fn; run_frame; try discriminate;
    destruct (sent a); run_frame; try discriminate;
    destruct (mined a); run_frame; try discriminate; intros [= <-]; reflexivity.
Qed.

(** The [catch] block never returns [true]. *)
Lemma on_error_flow attempt name a e w :
  fst (on_error env attempt name a e w) <> Ok (Some true).
Proof.
  destruct w as [i p wl mc wc d c n r t].
  unfold on_error, initializeConnections.
  destruct (isRateLimitError e); [|destruct (isNetworkError e)];
    run_frame; rewrite ?randomDelay_run; run_frame.
  - destruct (attempt <? MAX_RETRIES); run_frame; rewrite ?randomDelay_run; run_frame;
      discriminate.
  - rebuild_cases env (abiFiles a); run_frame; discriminate.
  - discriminate.
Qed.

(** The events of the [catch] block: console lines and at most one sleep. *)
Lemma on_error_trace fn attempt name a e w :
  exists delta,
    trace (snd (on_error env attempt name a e w)) = (trace w ++ delta)%list
    /\ Forall (attempt_step env fn a) delta
    /\ confirmations delta = 0%nat
    /\ submitted delta = []
    /\ reads (snd (on_error env attempt name a e w)) = reads w
    /\ clockReads (snd (on_error env attempt name a e w)) = clockReads w
    /\ attempts (snd (on_error env attempt name a e w)) = attempts w.
Proof.
  destruct w as [i p wl mc wc d c n r t].
  unfold on_error, initializeConnections.
  destruct (isRateLimitError e); [|destruct (isNetworkError e)];
    run_frame; rewrite ?randomDelay_run; run_frame.
  - destruct (attempt <? MAX_RETRIES); run_frame; rewrite ?randomDelay_run; run_frame;
      (eexists; split; [rewrite <- ?app_assoc; cbn [app]; reflexivity|]; split;
       [repeat (apply Forall_cons;
                [first [exact I | right; eexists; reflexivity]|]); apply Forall_nil
       | repeat split]).
  - rebuild_cases env (abiFiles a); run_frame;
      (eexists; split; [rewrite <- ?app_assoc; cbn [app]; reflexivity|]; split;
       [repeat (apply Forall_cons; [first [exact I | left; reflexivity]|]); apply Forall_nil
       | repeat split]).
  - eexists; split; [rewrite <- ?app_assoc; cbn [app]; reflexivity|]; split;
      [repeat (apply Forall_cons; [exact I|]); apply Forall_nil | repeat split].
Qed.

(** One iteration: events, outcome and cursors, in any state. *)
Lemma iteration_trace attempt fn name w :
  let r := iteration env attempt fn name w in
  exists delta,
    trace (snd r) = (trace w ++ delta)%list
    /\ Forall (attempt_step env fn (node env (attempts w))) delta
    /\ confirmations delta = match fst r with Ok (Some true) => 1%nat | _ => 0%nat end
    /\ (exists k, (k <= 1)%nat /\ submitted delta = repeat fn k)
    /\ reads (snd r) = reads w
    /\ clockReads (snd r) = clockReads w
    /\ attempts (snd r) = S (attempts w).
Proof.
  cbv zeta. rewrite iteration_unfold. cbv zeta.
  set (a := node env (attempts w)).
  destruct (try_trace fn name a (tick_attempts w)) as (d1 & Ht1 & Hf1 & Hc1 & Hs1).
  pose proof (try_steady env fn name a (tick_attempts w)) as Hst.
  pose proof (try_result_true fn name a (tick_attempts w)) as Htrue.
  destruct (submit_and_confirm env fn name a (tick_attempts w)) as [[b|e] w1];
    simpl in Ht1, Hc1, Hst, Htrue; apply tick_attempts_steady in Hst;
    destruct Hst as (_ & Ha & Hr & Hk & _).
  - exists d1. simpl. rewrite (Htrue b eq_refl). repeat split; auto.
  - destruct (on_error_trace fn attempt name a e w1)
      as (d2 & Ht2 & Hf2 & Hc2 & Hs2 & Hr2 & Hk2 & Ha2).
    exists (d1 ++ d2)%list. rewrite Ht2, Ht1, <- app_assoc.
    split; [reflexivity|]. split; [apply Forall_app; split; assumption|].
    rewrite confirmations_app, Hc1, Hc2, submitted_app, Hs2, List.app_nil_r, Hr2, Hk2, Ha2.
    pose proof (on_error_flow attempt name a e w1) as Hflow.
    destruct (fst (on_error env attempt name a e w1)) as [[[|]|]|e'] eqn:Hres;
      try (exfalso; exact (Hflow eq_refl));
      repeat split; auto.
Qed.

(** The whole loop. *)
Lemma loop_trace fn name :
  forall fuel attempt w,
    let r := attempt_loop env fuel attempt fn name w in
    exists delta,
      trace (snd r) = (trace w ++ delta)%list
      /\ Forall (fun e => exists i, (i < fuel)%nat
                                    /\ attempt_step env fn (node env (attempts w + i)) e) delta
      /\ confirmations delta = match fst r with Ok true => 1%nat | _ => 0%nat end
      /\ (exists k, (k <= attempts (snd r) - attempts w)%nat /\ submitted delta = repeat fn k)
      /\ reads (snd r) = reads w
      /\ clockReads (snd r) = clockReads w
      /\ (attempts w <= attempts (snd r) <= attempts w + fuel)%nat
      /\ ((0 < fuel)%nat -> attempt <= MAX_RETRIES -> (attempts w < attempts (snd r))%nat).
Proof.
  assert (Hnone : forall fuel attempt w,
             attempt_loop env fuel attempt fn name w = (Ok false, w) ->
             ((0 < fuel)%nat -> attempt <= MAX_RETRIES -> False) ->
             let r := attempt_loop env fuel attempt fn name w in
             exists delta,
               trace (snd r) = (trace w ++ delta)%list
               /\ Forall (fun e => exists i, (i < fuel)%nat
                            /\ attempt_step env fn (node env (attempts w + i)) e) delta
               /\ confirmations delta = match fst r with Ok true => 1%nat | _ => 0%nat end
               /\ (exists k, (k <= attempts (snd r) - attempts w)%nat
                             /\ submitted delta = repeat fn k)
               /\ reads (snd r) = reads w
               /\ clockReads (snd r) = clockReads w
               /\ (attempts w <= attempts (snd r) <= attempts w + fuel)%nat
               /\ ((0 < fuel)%nat -> attempt <= MAX_RETRIES
                   -> (attempts w < attempts (snd r))%nat)).
  { intros fuel attempt w Heq Hno. cbv zeta. rewrite Heq. exists []. simpl.
    rewrite List.app_nil_r.
    split; [reflexivity|]. split; [constructor|]. split; [reflexivity|].
    split; [exists 0%nat; split; [lia | reflexivity]|].
    split; [reflexivity|]. split; [reflexivity|]. split; [lia|].
    intros H1 H2. exfalso. exact (Hno H1 H2). }
  induction fuel as [|fuel IH]; intros attempt w.
  - apply Hnone; [reflexivity | lia].
  - destruct (Z.le_gt_cases attempt MAX_RETRIES) as [Hle|Hgt].
    2:{ apply Hnone; [apply attempt_loop_over; lia | lia]. }
    cbv zeta. rewrite attempt_loop_step by exact Hle.
    destruct (iteration_trace attempt fn name w)
      as (d1 & Ht1 & Hf1 & Hc1 & (k1 & Hk1 & Hs1) & Hr1 & Hc1' & Ha1).
    assert (Hf1' : Forall (fun e => exists i, (i < S fuel)%nat
                             /\ attempt_step env fn (node env (attempts w + i)) e) d1).
    { eapply Forall_impl; [|exact Hf1]. intros e He. exists 0%nat.
      rewrite Nat.add_0_r. split; [lia | exact He]. }
    destruct (iteration env attempt fn name w) as [[[b|]|e] w1];
      simpl in Ht1, Hc1, Hr1, Hc1', Ha1.
    + exists d1. simpl. split; [exact Ht1|]. split; [exact Hf1'|].
      split; [destruct b; exact Hc1|]. split; [exists k1; split; [lia|exact Hs1]|].
      repeat split; try lia; auto.
    + specialize (IH (attempt + 1) w1). cbv zeta in IH.
      destruct IH as (d2 & Ht2 & Hf2 & Hc2 & (k2 & Hk2 & Hs2) & Hr2 & Hc2' & Ha2 & _).
      exists (d1 ++ d2)%list. rewrite Ht2, Ht1, <- app_assoc.
      split; [reflexivity|]. split.
      { apply Forall_app. split; [exact Hf1'|].
        eapply Forall_impl; [|exact Hf2]. intros e (i & Hi & He). exists (S i).
        rewrite Ha1 in He. replace (attempts w + S i)%nat with (S (attempts w) + i)%nat by lia.
        split; [lia | exact He]. }
      rewrite confirmations_app, Hc1, Hc2, submitted_app, Hs1, Hs2, <- repeat_app.
      split; [reflexivity|]. split; [exists (k1 + k2)%nat; split; [lia|reflexivity]|].
      repeat split; try lia; congruence.
    + exists d1. simpl. split; [exact Ht1|]. split; [exact Hf1'|].
      split; [exact Hc1|]. split; [exists k1; split; [lia|exact Hs1]|].
      repeat split; try lia; auto.
Qed.

End ExecutorTrace.

Lemma attempt_step_fair env fn a e :
  fair env -> attempt_step env fn a e -> attempt_event fn a e.
Proof.
  intros Hfair. destruct e; cbn [attempt_step attempt_event]; auto.
  - intros [H|(n & ->)]; [left; exact H | right].
    apply (delay_site _ 60000 120000 120001);
      [apply Hfair | lia | lia | lia | vm_compute; reflexivity].
  - intros (-> & g & n & Hg & ->). split; [reflexivity|]. exists g.
    split; [exact Hg|].
    pose proof (delay_site (draws env n) 1 100 100 (Hfair n) ltac:(lia) ltac:(lia) ltac:(lia)
                  ltac:(vm_compute; reflexivity)).
    lia.
Qed.


Lemma executor_accounts env fn actionName w :
  let w' := snd (executeTransaction env fn actionName w) in
  (attempts w < attempts w' <= attempts w + Z.to_nat MAX_RETRIES)%nat
  /\ reads w' = reads w
  /\ clockReads w' = clockReads w
  /\ exists k, (k <= attempts w' - attempts w)%nat
               /\ submitted (trace w') = (submitted (trace w) ++ repeat fn k)%list.
Proof.
  cbv zeta. unfold executeTransaction.
  destruct (loop_trace env fn actionName (Z.to_nat MAX_RETRIES) 1 w)
    as (delta & Ht & _ & _ & (k & Hk & Hs) & Hr & Hc & Ha & Hpos).
  split; [split; [apply Hpos; [vm_compute; lia | unfold MAX_RETRIES; lia] | lia]|].
  split; [exact Hr|]. split; [exact Hc|].
  exists k. split; [exact Hk|]. rewrite Ht, submitted_app, Hs. reflexivity.
Qed.

(** X2: in any state and any environment a call of [executeTransaction]
    runs between one and MAX_RETRIES = 5 iterations.  It reads neither the
    chain nor the clock.  Everything it submits is the action it was given,
    at most once per iteration. *)
Theorem executor_budget env fn actionName w :
  let w' := snd (executeTransaction env fn actionName w) in
  (attempts w < attempts w' <= attempts w + Z.to_nat MAX_RETRIES)%nat
  /\ reads w' = reads w
  /\ clockReads w' = clockReads w
  /\ exists k, (k <= attempts w' - attempts w)%nat
               /\ submitted (trace w') = (submitted (trace w) ++ repeat fn k)%list.
Proof.
  cbv zeta. unfold executeTransaction.
  destruct (loop_trace env fn actionName (Z.to_nat MAX_RETRIES) 1 w)
    as (delta & Ht & _ & _ & (k & Hk & Hs) & Hr & Hc & Ha & Hpos).
  split; [split; [apply Hpos; [vm_compute; lia | unfold MAX_RETRIES; lia] | lia]|].
  split; [exact Hr|]. split; [exact Hc|].
  exists k. split; [exact Hk|]. rewrite Ht, submitted_app, Hs. reflexivity.
Qed.

Lemma executor_confirms env fn actionName w :
  confirmations (trace (snd (executeTransaction env fn actionName w)))
  = (confirmations (trace w)
     + match fst (executeTransaction env fn actionName w) with
       | Ok true => 1
       | _ => 0
       end)%nat.
Proof.
  unfold executeTransaction.
  destruct (loop_trace env fn actionName (Z.to_nat MAX_RETRIES) 1 w)
    as (delta & Ht & _ & Hc & _).
  rewrite Ht, confirmations_app, Hc. reflexivity.
Qed.

(** X3: [executeTransaction] returns true exactly when it has logged a
    confirmation during the call, and it logs at most one: the number of
    "confirmed in block" lines grows by one when the result is true and not
    at all otherwise (false, or an exception leaving the call). *)
Theorem true_means_confirmed env fn actionName w :
  confirmations (trace (snd (executeTransaction env fn actionName w)))
  = (confirmations (trace w)
     + match fst (executeTransaction env fn actionName w) with
       | Ok true => 1
       | _ => 0
       end)%nat.
Proof.
  unfold executeTransaction.
  destruct (loop_trace env fn actionName (Z.to_nat MAX_RETRIES) 1 w)
    as (delta & Ht & _ & Hc & _).
  rewrite Ht, confirmations_app, Hc. reflexivity.
Qed.

(** X4: when the draws are doubles in [0, 1), every transaction a call
    submits is the given action, priced at the fee the node quoted for that
    attempt plus 1 to 100; every sleep of the call lasts 2000 ms (failover)
    or between 60000 and 120001 ms (rate-limit back-off: in double
    precision [randomDelay(60000, 120000)] gives 120001 for the largest
    draw, while [randomDelay(1, 100)] stays within 100); and the call makes
    no contract read. *)
Theorem executor_events_in_range env fn actionName w :
  fair env ->
  exists delta,
    trace (snd (executeTransaction env fn actionName w)) = (trace w ++ delta)%list
    /\ Forall (executor_event env fn (attempts w)) delta.
Proof.
  intros Hfair. unfold executeTransaction.
  destruct (loop_trace env fn actionName (Z.to_nat MAX_RETRIES) 1 w)
    as (delta & Ht & Hf & _).
  exists delta. split; [exact Ht|].
  eapply Forall_impl; [|exact Hf]. intros e (i & Hi & He).
  exists i. split; [exact Hi | apply (attempt_step_fair env fn _ e Hfair He)].
Qed.

Lemma executor_events_in_range_witness :
  exists delta,
    trace (snd (executeTransaction Demo.fourthTime (Wrap 7) "Wrap #1" Demo.ready))
    = (trace Demo.ready ++ delta)%list
    /\ Forall (executor_event Demo.fourthTime (Wrap 7) (attempts Demo.ready)) delta.
Proof.
  apply (executor_events_in_range Demo.fourthTime (Wrap 7) "Wrap #1" Demo.ready).
  apply scripted_fair.
Defined.

(* ================================================================== *)
(** ** One budget for all retriable failures *)

(** X5: the five attempts are shared by rate-limit and network failures.
    When each of the five attempts fails retriably (rate limit, or network
    failure followed by a successful rebuild), the call returns false after
    exactly five iterations and never logs a confirmation; the endpoint
    index has moved one step per network failure, the fifth included: a
    network failure on the last attempt still switches the endpoint and
    rebuilds the connection before the call gives up. *)
Theorem retriable_failures_share_budget env fn actionName w :
  connected w ->
  (forall i, (i < Z.to_nat MAX_RETRIES)%nat -> retriable env (node env (attempts w + i))) ->
  exists w',
    executeTransaction env fn actionName w = (Ok false, w')
    /\ attempts w' = (attempts w + Z.to_nat MAX_RETRIES)%nat
    /\ currentRpcIndex w'
       = index_after env (attempts w) (Z.to_nat MAX_RETRIES) (currentRpcIndex w)
    /\ confirmations (trace w') = confirmations (trace w)
    /\ connected w'.
Proof.
  intros Hc Hall.
  pose proof (executor_confirms env fn actionName w) as Hconf.
  unfold executeTransaction in *.
  change (Z.to_nat MAX_RETRIES) with (4 + 1)%nat in *.
  destruct (retries env fn actionName 4 1 1 w Hc) as (w4 & Heq & Hc4 & Ha4 & Hi4).
  { unfold MAX_RETRIES. lia. }
  { intros i Hi. apply Hall. lia. }
  rewrite Heq in *. clear Heq. change (1 + Z.of_nat 4) with 5 in *.
  rewrite attempt_loop_step in * by (unfold MAX_RETRIES; lia).
  pose proof (Hall 4%nat ltac:(lia)) as H5. rewrite <- Ha4 in H5.
  assert (Hidx : index_after env (attempts w) (4 + 1) (currentRpcIndex w)
                 = index_after env (attempts w4) 1 (currentRpcIndex w4)).
  { rewrite Hi4, Ha4. clear. generalize (currentRpcIndex w). generalize (attempts w).
    intros s i. simpl. replace (s + 4)%nat with (S (S (S (S s)))) by lia. reflexivity. }
  rewrite Hidx. clear Hidx.
  pose proof (outcome_cases (node env (attempts w4))) as Ho.
  destruct H5 as [Hr|[Hn Hf]]; simpl index_after; rewrite ?Hr, ?Hn in *.
  - destruct Ho as (e & He & Hrate).
    destruct (iteration_raises env 5 fn actionName w4 Hc4 e He)
      as (w5 & Hit & Hi5 & Ha5 & _ & _ & Hc5 & _).
    rewrite Hit in *.
    destruct (on_error_rate_giveup env 5 actionName (node env (attempts w4)) e w5 Hrate)
      as (w' & Hlast & Hst & _).
    { unfold MAX_RETRIES. lia. }
    rewrite Hlast in *. simpl in Hconf.
    pose proof Hst as (Hi' & _ & _ & _ & _ & Ha' & _).
    exists w'. split; [reflexivity|]. split; [lia|]. split; [congruence|].
    split; [lia | apply (steady_connected w5 w' Hst Hc5)].
  - destruct Ho as (e & He & Hrate & Hnet).
    destruct (iteration_raises env 5 fn actionName w4 Hc4 e He)
      as (w5 & Hit & Hi5 & Ha5 & _ & _ & Hc5 & _).
    rewrite Hit in *.
    pose proof (on_error_network env 5 actionName (node env (attempts w4)) e w5 Hrate Hnet)
      as Hstep. cbv zeta in Hstep.
    destruct (on_error_network_ok env 5 actionName (node env (attempts w4)) e w5 Hrate Hnet Hf)
      as (w' & Hlast & Hc' & _).
    rewrite Hlast in *. simpl in Hconf, Hstep. destruct Hstep as (Hi' & Ha' & _).
    exists w'. split; [reflexivity|]. split; [lia|].
    split; [unfold advance; congruence|]. split; [lia | exact Hc'].
Qed.

Lemma retriable_failures_share_budget_witness :
  exists w',
    executeTransaction
      (Demo.scripted (repeat (Demo.rejected Demo.networkError Demo.filesOk) 5) (Ok 0))
      (Wrap 7) "Wrap #1" Demo.ready = (Ok false, w')
    /\ attempts w' = 5%nat
    /\ currentRpcIndex w' = 2
    /\ confirmations (trace w') = 0%nat
    /\ connected w'.
Proof.
  apply (retriable_failures_share_budget
           (Demo.scripted (repeat (Demo.rejected Demo.networkError Demo.filesOk) 5) (Ok 0))
           (Wrap 7) "Wrap #1" Demo.ready ready_connected).
  intros i Hi. change (Z.to_nat MAX_RETRIES) with 5%nat in Hi. right.
  do 5 (destruct i as [|i];
        [split; reflexivity|]).
  lia.
Defined.

(** X6: before the first [initializeConnections()] the provider handle is
    undefined, and a call of [executeTransaction] fails at once: reading the
    handle raises a TypeError inside the [try] block, the catch block treats
    it as fatal, and the call returns false after one iteration without
    querying the fee or submitting anything. *)
Theorem executor_needs_connection env fn actionName w :
  provider w = None ->
  exists text,
    executeTransaction env fn actionName w
    = (Ok false,
       emit (Console ERROR (FatalDuring actionName (Some text))) (tick_attempts w)).
Proof.
  intros Hp. destruct w as [i [p|] wl mc wc d c n r t]; [discriminate Hp|].
  eexists. unfold executeTransaction. change (Z.to_nat MAX_RETRIES) with 5%nat.
  rewrite attempt_loop_step by (unfold MAX_RETRIES; lia).
  rewrite iteration_unfold. cbv zeta. reflexivity.
Qed.

Lemma executor_needs_connection_witness :
  exists text,
    executeTransaction Demo.calm (Wrap 7) "Wrap #1" boot
    = (Ok false, emit (Console ERROR (FatalDuring "Wrap #1" (Some text))) (tick_attempts boot)).
Proof.
  apply (executor_needs_connection Demo.calm (Wrap 7) "Wrap #1" boot). reflexivity.
Defined.

(* ================================================================== *)
(** ** Building the connection *)

(** X7: [initializeConnections] returns normally exactly when nothing on
    its way throws: the wallet constructor accepts the key, both ABI files
    load and the contract constructor accepts both ABIs.  Then all four
    handles are bound to the endpoint at the current index (an entry of
    RPC_URLS whenever the index is valid), the index has not moved and the
    two setup lines are printed.  Otherwise the call throws the first
    exception met, after it has printed the first line and replaced the
    provider; when that exception comes from the second contract, the first
    contract has already been replaced and the second is the old one. *)
Theorem connect_binds_all_handles env files w :
  (rebuild_fault env files = None ->
   exists w',
     initializeConnections env files w = (Ok tt, w')
     /\ bound_to (RPC_URLS_at (currentRpcIndex w)) w'
     /\ connected w'
     /\ currentRpcIndex w' = currentRpcIndex w
     /\ trace w'
        = (trace w ++ [ Console LOG (SetupConnecting (RPC_URLS_at (currentRpcIndex w)));
                        Console LOG SetupConnected ])%list
     /\ (valid_index w ->
         exists url, RPC_URLS_at (currentRpcIndex w) = Some url /\ In url RPC_URLS))
  /\ (forall e,
        rebuild_fault env files = Some e ->
        exists w',
          initializeConnections env files w = (Throw e, w')
          /\ provider w' = Some {| providerUrl := RPC_URLS_at (currentRpcIndex w) |}
          /\ currentRpcIndex w' = currentRpcIndex w
          /\ trace w'
             = (trace w
                ++ [ Console LOG (SetupConnecting (RPC_URLS_at (currentRpcIndex w))) ])%list)
  /\ (forall e mintContractABI wrapperContractABI,
        ethers_Wallet env (PRIVATE_KEY env) = None ->
        files "./abi/mintContract.json" = Ok mintContractABI ->
        files "./abi/wrapperContract.json" = Ok wrapperContractABI ->
        ethers_Contract env MINT_CONTRACT_ADDRESS mintContractABI = None ->
        ethers_Contract env WRAPPER_CONTRACT_ADDRESS wrapperContractABI = Some e ->
        exists w',
          initializeConnections env files w = (Throw e, w')
          /\ (exists c, mintContract w' = Some c /\ contractAbi c = mintContractABI
                        /\ contractRunner c
                           = {| walletProvider :=
                                  {| providerUrl := RPC_URLS_at (currentRpcIndex w) |} |})
          /\ wrapperContract w' = wrapperContract w).
Proof.
  destruct w as [i p wl mc wc d c n r t]. split; [|split].
  - intros Hf. unfold rebuild_fault in Hf.
    unfold initializeConnections. run_frame.
    rebuild_cases env files; try discriminate Hf. run_frame.
    eexists. split; [reflexivity|].
    split; [unfold bound_to; simpl; repeat split; try reflexivity; eexists; reflexivity|].
    split; [unfold connected; simpl; repeat split; discriminate|].
    split; [reflexivity|].
    split; [cbv [trace]; rewrite <- app_assoc; reflexivity|].
    unfold valid_index. simpl. change RPC_URLS_length with 3. intros Hv.
    assert (Hi : i = 0 \/ i = 1 \/ i = 2) by lia.
    destruct Hi as [->|[->| ->]]; eexists; (split; [reflexivity|]); simpl; auto.
  - intros e Hf. unfold rebuild_fault in Hf.
    unfold initializeConnections. run_frame.
    rebuild_cases env files; run_frame; try discriminate Hf;
      injection Hf as ->; eexists; repeat split.
  - intros e abi1 abi2 Hw H1 H2 Hc1 Hc2.
    unfold initializeConnections. run_frame.
    rewrite Hw, H1, H2, Hc1, Hc2. run_frame.
    eexists. split; [reflexivity|]. split; [|reflexivity].
    eexists. repeat split.
Qed.

Lemma connect_binds_all_handles_witness :
  exists w',
    initializeConnections Demo.calm Demo.filesOk boot = (Ok tt, w')
    /\ bound_to (Some "https://sepolia.base.org") w'.
Proof.
  destruct (proj1 (connect_binds_all_handles Demo.calm Demo.filesOk boot) eq_refl)
    as (w' & Hrun & Hb & _).
  exists w'. split; [exact Hrun | exact Hb].
Defined.

(** The key of the README's example is rejected by the wallet constructor:
    the first [initializeConnections()] throws before any file is read. *)
Example placeholder_key_is_rejected :
  fst (initializeConnections Demo.placeholder Demo.filesOk boot) = Throw Demo.invalidKey
  /\ wallet (snd (initializeConnections Demo.placeholder Demo.filesOk boot)) = None.
Proof. split; reflexivity. Qed.

(** X8: when loading an ABI file throws, [initializeConnections] throws
    that exception with the connection half rebuilt: the provider and the
    wallet already point at the endpoint of the current index, while both
    contract handles are still the previous ones (bound to the previous
    wallet); "Connection successful" is not printed. *)
Theorem failed_connect_leaves_old_contracts env files w e :
  load_failure env files = Some e ->
  exists w',
    initializeConnections env files w = (Throw e, w')
    /\ provider w' = Some {| providerUrl := RPC_URLS_at (currentRpcIndex w) |}
    /\ wallet w'
       = Some {| walletProvider := {| providerUrl := RPC_URLS_at (currentRpcIndex w) |} |}
    /\ mintContract w' = mintContract w
    /\ wrapperContract w' = wrapperContract w
    /\ currentRpcIndex w' = currentRpcIndex w
    /\ trace w'
       = (trace w ++ [ Console LOG (SetupConnecting (RPC_URLS_at (currentRpcIndex w))) ])%list.
Proof.
  unfold load_failure. intros Hl. destruct w as [i p wl mc wc d c n r t].
  unfold initializeConnections. run_frame.
  destruct (ethers_Wallet env (PRIVATE_KEY env)); [discriminate Hl|]. run_frame.
  destruct (files "./abi/mintContract.json") as [abi1|e1]; run_frame.
  - destruct (files "./abi/wrapperContract.json") as [abi2|e2]; [discriminate Hl|].
    injection Hl as ->. run_frame. eexists. repeat split.
  - injection Hl as ->. eexists. repeat split.
Qed.

Lemma failed_connect_leaves_old_contracts_witness :
  exists e w',
    initializeConnections Demo.calm Demo.filesGone (set_currentRpcIndex 1 Demo.ready)
    = (Throw e, w')
    /\ provider w' = Some {| providerUrl := Some "https://base-sepolia.drpc.org" |}
    /\ mintContract w' = mintContract Demo.ready.
Proof.
  eexists.
  destruct (failed_connect_leaves_old_contracts Demo.calm Demo.filesGone
              (set_currentRpcIndex 1 Demo.ready) _ eq_refl)
    as (w' & Hrun & Hp & _ & Hm & _).
  exists w'. split; [exact Hrun|]. split; [exact Hp | exact Hm].
Defined.

(* ================================================================== *)
(** ** The precondition checks absorb everything *)

(** X9: neither precondition check ever throws, whatever the state and
    the environment: a failed read, an undefined handle and even an
    exception leaving [executeTransaction] (a failover whose rebuild throws)
    all end in the [catch] of the check, which returns false. *)
Theorem checks_never_throw env w :
  (exists b w', checkAndMintIfNeeded env w = (Ok b, w'))
  /\ (exists b w', checkAndApproveIfNeeded env w = (Ok b, w')).
Proof.
  split.
  - unfold checkAndMintIfNeeded, bind at 1, print, modify, try_catch.
    match goal with |- context [match ?body ?w0 with _ => _ end] =>
      destruct (body w0) as [[b|e] w1] end; unfold bind, ret; simpl; eauto.
  - unfold checkAndApproveIfNeeded, bind at 1, print, modify, try_catch.
    match goal with |- context [match ?body ?w0 with _ => _ end] =>
      destruct (body w0) as [[b|e] w1] end; unfold bind, ret; simpl; eauto.
Qed.

(* ================================================================== *)
(** ** The value of a token identifier, in any length *)

(** X10: for any requested length [n], draws in [0, 1) and a timestamp of
    at least five digits, [getRandomTokenID(n)] returns (it does not throw)
    an integer [id] with [0 <= id < 10^(n+5)] whose remainder modulo 100000
    is the timestamp's; it consumes exactly [n] draws and one clock reading
    and leaves the trace as it was. *)
Theorem token_id_value env n w :
  (forall i, (i < n)%nat -> unit_draw (draws env (drawn w + i))) ->
  10000 <= clock env (clockReads w) ->
  exists id w',
    getRandomTokenID env n w = (Ok id, w')
    /\ 0 <= id < 10 ^ (Z.of_nat n + 5)
    /\ id mod 100000 = clock env (clockReads w) mod 100000
    /\ drawn w' = (drawn w + n)%nat
    /\ clockReads w' = S (clockReads w)
    /\ trace w' = trace w
    /\ attempts w' = attempts w.
Proof.
  intros Hdraws Hnow.
  destruct (drawn_digits_shape env n (drawn w) Hdraws) as [Hlen Hdig].
  destruct (toString_timestamp _ Hnow) as [Hts Hts5].
  pose proof (suffix_value _ Hnow) as Hsv.
  set (ds := drawn_digits env (drawn w) n) in *.
  set (suffix := Js.slice_last 5 (Js.toString (clock env (clockReads w)))) in *.
  assert (Hsl : String.length suffix = 5%nat)
    by (unfold suffix, Js.slice_last; apply length_substring; lia).
  assert (Hsd : all_digits suffix = true)
    by (unfold suffix, Js.slice_last; apply all_digits_substring; exact Hts).
  assert (Htd : all_digits (ds ++ suffix) = true)
    by (rewrite all_digits_append, Hdig, Hsd; reflexivity).
  assert (Hbig : Js.parseBigInt (ds ++ suffix) = Some (decimal_value (ds ++ suffix) 0))
    by (rewrite parseBigInt_digits by exact Htd; apply digits_value_spec; exact Htd).
  exists (decimal_value (ds ++ suffix) 0), (tick_clock (Nat.iter n tick_drawn w)).
  split.
  { rewrite getRandomTokenID_unfold. cbv zeta. fold ds. fold suffix.
    rewrite Hbig. reflexivity. }
  pose proof (decimal_value_bound (ds ++ suffix) Htd) as Hb.
  rewrite length_append, Hlen, Hsl in Hb.
  replace (Z.of_nat (n + 5)) with (Z.of_nat n + 5) in Hb by lia.
  split; [exact Hb|]. split.
  { rewrite decimal_value_append, decimal_value_shift, Hsl, Hsv.
    change (10 ^ Z.of_nat 5) with 100000.
    rewrite Z.add_comm, Z.mod_add by lia. apply Z.mod_mod. lia. }
  destruct (iter_tick_drawn n w) as (Hc & Ha & Ht & Hd). simpl.
  repeat split; congruence.
Qed.

Lemma leadingZero_fair : fair Demo.leadingZero.
Proof.
  intros [|n]; [|exact unit_draw_half].
  split; [unfold is_double, Qeq; vm_compute; reflexivity|].
  split; [unfold Qle | unfold Qlt]; simpl; lia.
Qed.

Lemma token_id_value_witness :
  exists id w',
    getRandomTokenID Demo.leadingZero 18 Demo.ready = (Ok id, w')
    /\ 0 <= id < 10 ^ 23
    /\ id mod 100000 = 12345.
Proof.
  destruct (token_id_value Demo.leadingZero 18 Demo.ready)
    as (id & w' & Hrun & Hb & Hm & _).
  { intros i _. apply leadingZero_fair. }
  { simpl. lia. }
  exists id, w'. split; [exact Hrun|]. split; [exact Hb | exact Hm].
Defined.

(* ================================================================== *)
(** ** The daily cycle *)

Lemma token_id_frame env n w :
  trace (snd (getRandomTokenID env n w)) = trace w
  /\ attempts (snd (getRandomTokenID env n w)) = attempts w.
Proof.
  rewrite getRandomTokenID_unfold. cbv zeta.
  destruct (iter_tick_drawn n w) as (_ & Ha & Ht & _).
  destruct (Js.parseBigInt _); simpl; auto.
Qed.

Lemma confirmations_snoc t e :
  confirmations (t ++ [e]) = (confirmations t + (if is_confirmation e then 1 else 0))%nat.
Proof.
  rewrite confirmations_app. unfold confirmations at 2. simpl.
  destruct (is_confirmation e); reflexivity.
Qed.

(** The outermost call whose result a hypothesis examines. *)
(** X11: the pair loop of [runDailyCycle] counts confirmed transactions.
    When the loop returns, [txCounter] has grown by exactly the number of
    confirmations logged meanwhile (each wrap and each unwrap that returned
    true), which is at most two per pair. *)
Theorem daily_counter_counts_confirmations env :
  forall fuel i dailyPairGoal txCounter w txCounter' w',
    pair_loop env fuel i dailyPairGoal txCounter w = (Ok txCounter', w') ->
    Z.of_nat (confirmations (trace w'))
    = Z.of_nat (confirmations (trace w)) + (txCounter' - txCounter)
    /\ 0 <= txCounter' - txCounter <= 2 * Z.of_nat fuel.
Proof.
  induction fuel as [|fuel IH]; intros i goal c w c' w' H.
  - injection H as <- <-. lia.
  - cbn [pair_loop] in H. destruct (i <=? goal); [|injection H as <- <-; lia].
    unfold bind, print, modify in H.
    pose proof (token_id_frame env 18 (emit (Console LOG (ExecutingPair i goal)) w))
      as [Htok _].
    next_call H. simpl in Htok.
    pose proof (executor_confirms env (Wrap r) ("Wrap #" ++ Js.toString i) w0) as Hwrap.
    next_call H. simpl in Hwrap.
    destruct r0.
    + (* wrap confirmed *)
      rewrite randomDelay_run in H. unfold sleep, modify in H. cbv beta iota in H.
      match type of H with
      | context [executeTransaction env (Unwrap r) ?nm ?wx] =>
          pose proof (executor_confirms env (Unwrap r) nm wx) as Hun
      end.
      next_call H. simpl in Hun.
      assert (Hrest : exists wz, pair_loop env fuel (i + 1) goal
                                   (if r0 then c + 1 + 1 else c + 1) wz = (Ok c', w')
                                 /\ confirmations (trace wz) = confirmations (trace w2)).
      { unfold ret in H. destruct (i <? goal).
        - rewrite randomDelay_run in H. eexists. split; [exact H|].
          simpl. rewrite confirmations_snoc. simpl. apply Nat.add_0_r.
        - eexists. split; [exact H | reflexivity]. }
      destruct Hrest as (wz & Hloop & Hz).
      apply IH in Hloop.
      rewrite Hz, Hun, confirmations_snoc, Hwrap, Htok, confirmations_snoc in Hloop.
      cbv [is_confirmation] in Hloop.
      destruct r0; lia.
    + (* wrap failed: no unwrap *)
      unfold ret in H.
      assert (Hrest : exists wz, pair_loop env fuel (i + 1) goal c wz = (Ok c', w')
                                 /\ confirmations (trace wz) = confirmations (trace w1)).
      { destruct (i <? goal).
        - rewrite randomDelay_run in H. eexists. split; [exact H|].
          simpl. rewrite confirmations_snoc. simpl. apply Nat.add_0_r.
        - eexists. split; [exact H | reflexivity]. }
      destruct Hrest as (wz & Hloop & Hz).
      apply IH in Hloop. rewrite Hz, Hwrap, Htok, confirmations_snoc in Hloop.
      cbv [is_confirmation] in Hloop. lia.
Qed.

Lemma daily_counter_counts_confirmations_witness :
  exists txCounter w',
    pair_loop Demo.calm 3 1 3 0 Demo.ready = (Ok txCounter, w')
    /\ Z.of_nat (confirmations (trace w')) = txCounter
    /\ txCounter = 6.
Proof.
  exists 6, (snd (pair_loop Demo.calm 3 1 3 0 Demo.ready)).
  assert (H : pair_loop Demo.calm 3 1 3 0 Demo.ready
              = (Ok 6, snd (pair_loop Demo.calm 3 1 3 0 Demo.ready)))
    by (vm_compute; reflexivity).
  split; [exact H|]. split; [|reflexivity].
  destruct (daily_counter_counts_confirmations Demo.calm 3 1 3 0 Demo.ready _ _ H) as [Hc _].
  rewrite Hc. vm_compute. reflexivity.
Defined.

(** What every call of the executor does, read off its result. *)
Lemma executor_call_facts env fn actionName w r w' :
  executeTransaction env fn actionName w = (r, w') ->
  (attempts w < attempts w')%nat
  /\ (exists k, submitted (trace w') = (submitted (trace w) ++ repeat fn k)%list)
  /\ (exists delta, trace w' = (trace w ++ delta)%list)
  /\ confirmations (trace w')
     = (confirmations (trace w) + match r with Ok true => 1 | _ => 0 end)%nat
  /\ clockReads w' = clockReads w
  /\ reads w' = reads w.
Proof.
  intros H.
  pose proof (executor_accounts env fn actionName w) as Hb.
  pose proof (executor_confirms env fn actionName w) as Hc.
  assert (Ht : exists delta,
             trace (snd (executeTransaction env fn actionName w)) = (trace w ++ delta)%list).
  { unfold executeTransaction.
    destruct (loop_trace env fn actionName (Z.to_nat MAX_RETRIES) 1 w) as (delta & Hd & _).
    exists delta. exact Hd. }
  cbv zeta in Hb. rewrite H in Hb, Hc, Ht. cbn [fst snd] in Hb, Hc, Ht.
  destruct Hb as ((Hlt & _) & Hr & Hk & k & _ & Hs).
  split; [exact Hlt|]. split; [exists k; exact Hs|]. split; [exact Ht|].
  split; [exact Hc|]. split; [exact Hk | exact Hr].
Qed.

(** X12: [runDailyCycle] always runs both preparation transactions, Daily
    Mint first and Daily Approve next, the approve also when the mint has
    already failed; and when either of them returns false the cycle ends
    there: it prints "Preparation phase failed", returns normally and has
    submitted nothing but mints and approves (no wrap, no unwrap).  With a
    draw in [0, 1) the pair goal it announced lies between 25 and 51: in
    double precision [randomDelay(25, 50)] gives 51 for the largest draw. *)
Theorem failed_preparation_skips_pairs env w m w1 a w2 :
  executeTransaction env (Mint (100 * 10 ^ 18)) "Daily Mint" (cycle_opened env w)
  = (Ok m, w1) ->
  executeTransaction env (Approve WRAPPER_CONTRACT_ADDRESS MaxUint256) "Daily Approve" w1
  = (Ok a, w2) ->
  (m && a)%bool = false ->
  let goal := delay_of (draws env (drawn w)) 25 50 in
  runDailyCycle env w = (Ok tt, emit (Console ERROR PreparationFailed) w2)
  /\ (attempts w1 < attempts w2)%nat
  /\ (exists k1 k2,
        submitted (trace (emit (Console ERROR PreparationFailed) w2))
        = (submitted (trace w)
           ++ repeat (Mint (100 * 10 ^ 18)) k1
           ++ repeat (Approve WRAPPER_CONTRACT_ADDRESS MaxUint256) k2)%list)
  /\ In (Console LOG (DailyGoal (goal * 2) goal)) (trace w2)
  /\ (unit_draw (draws env (drawn w)) -> 25 <= goal <= 51).
Proof.
  intros Hm Ha Hfail. cbv zeta.
  destruct (executor_call_facts _ _ _ _ _ _ Hm) as (_ & (k1 & Hs1) & (d1 & Hd1) & _).
  destruct (executor_call_facts _ _ _ _ _ _ Ha) as (Hlt & (k2 & Hs2) & (d2 & Hd2) & _).
  split; [|split; [exact Hlt|split; [|split]]].
  - unfold runDailyCycle. unfold bind, print, modify, Date_now.
    rewrite randomDelay_run. cbv beta iota.
    unfold cycle_opened in Hm.
    destruct w as [i p wl mc wc d c n r t]. run_frame.
    rewrite Hm. cbv beta iota. rewrite Ha. cbv beta iota.
    destruct m, a; try discriminate Hfail; reflexivity.
  - exists k1, k2. cbn [trace emit]. rewrite submitted_snoc, Hs2, Hs1. unfold cycle_opened.
    cbn [trace emit tick_drawn tick_clock]. rewrite !submitted_snoc. cbv beta iota.
    now rewrite !List.app_nil_r, <- app_assoc.
  - rewrite Hd2, Hd1. apply in_or_app. left. apply in_or_app. left.
    unfold cycle_opened. cbn [trace emit tick_drawn tick_clock].
    apply in_or_app. left. apply in_or_app. right. left. reflexivity.
  - intros Hr. apply (delay_site _ 25 50 51);
      [exact Hr | lia | lia | lia | vm_compute; reflexivity].
Qed.

Lemma failed_preparation_skips_pairs_witness :
  exists w',
    runDailyCycle Demo.fatalFirst Demo.ready = (Ok tt, w')
    /\ submitted (trace w')
       = [Mint (100 * 10 ^ 18); Approve WRAPPER_CONTRACT_ADDRESS MaxUint256].
Proof.
  assert (H1 : executeTransaction Demo.fatalFirst (Mint (100 * 10 ^ 18)) "Daily Mint"
                 (cycle_opened Demo.fatalFirst Demo.ready)
               = (Ok false,
                  snd (executeTransaction Demo.fatalFirst (Mint (100 * 10 ^ 18)) "Daily Mint"
                         (cycle_opened Demo.fatalFirst Demo.ready))))
    by (vm_compute; reflexivity).
  assert (H2 : executeTransaction Demo.fatalFirst
                 (Approve WRAPPER_CONTRACT_ADDRESS MaxUint256) "Daily Approve"
                 (snd (executeTransaction Demo.fatalFirst (Mint (100 * 10 ^ 18)) "Daily Mint"
                         (cycle_opened Demo.fatalFirst Demo.ready)))
               = (Ok true,
                  snd (executeTransaction Demo.fatalFirst
                         (Approve WRAPPER_CONTRACT_ADDRESS MaxUint256) "Daily Approve"
                         (snd (executeTransaction Demo.fatalFirst (Mint (100 * 10 ^ 18))
                                 "Daily Mint" (cycle_opened Demo.fatalFirst Demo.ready))))))
    by (vm_compute; reflexivity).
  pose proof (failed_preparation_skips_pairs _ _ _ _ _ _ H1 H2 eq_refl) as H.
  cbv zeta in H. destruct H as (Hrun & _).
  eexists. split; [exact Hrun | vm_compute; reflexivity].
Defined.

(* ================================================================== *)
(** ** The continuous loop *)

Lemma check_mint_facts env w r w' :
  checkAndMintIfNeeded env w = (r, w') ->
  exists k g,
    submitted (trace w') = (submitted (trace w) ++ repeat (Mint MINT_AMOUNT) k)%list
    /\ confirmations (trace w') = (confirmations (trace w) + g)%nat
    /\ (g <= 1)%nat
    /\ (r <> Ok true -> g = 0%nat)
    /\ (exists b, r = Ok b).
Proof.
  assert (Hquiet : forall t e k,
             match e with Submitted _ _ _ => False | _ => True end ->
             is_confirmation e = false ->
             submitted t = (submitted (trace w) ++ repeat (Mint MINT_AMOUNT) k)%list ->
             submitted (t ++ [e]) = (submitted (trace w) ++ repeat (Mint MINT_AMOUNT) k)%list).
  { intros t e k He _ Hs. rewrite submitted_snoc, Hs. destruct e; try contradiction;
      now rewrite List.app_nil_r. }
  unfold checkAndMintIfNeeded, view.
  destruct w as [i p [wl|] [mc|] wc d c n rd t]; run_frame.
  2-4: intros [= <- <-]; exists 0%nat, 0%nat; cbn [trace];
    rewrite !submitted_snoc, !confirmations_snoc; cbv beta iota; cbv [is_confirmation];
    rewrite !List.app_nil_r, !Nat.add_0_r;
    (split; [reflexivity|]); (split; [reflexivity|]); (split; [lia|]);
    (split; [reflexivity | eauto]).
  destruct (chain env rd) as [balance|e]; run_frame.
  2:{ intros [= <- <-]. exists 0%nat, 0%nat. cbn [trace].
      rewrite !submitted_snoc, !confirmations_snoc. cbv beta iota. cbv [is_confirmation].
      rewrite !List.app_nil_r, !Nat.add_0_r.
      split; [reflexivity|]. split; [reflexivity|]. split; [lia|].
      split; [reflexivity | eauto]. }
  destruct (balance =? 0); run_frame.
  2:{ intros [= <- <-]. exists 0%nat, 0%nat. cbn [trace].
      rewrite !submitted_snoc, !confirmations_snoc. cbv beta iota. cbv [is_confirmation].
      rewrite !List.app_nil_r, !Nat.add_0_r.
      split; [reflexivity|]. split; [reflexivity|]. split; [lia|].
      split; [intros H; exfalso; apply H; reflexivity | eauto]. }
  match goal with |- context [executeTransaction env ?fn ?nm ?w0] =>
    destruct (executeTransaction env fn nm w0) as [[b|e] w1] eqn:Hex;
    apply executor_call_facts in Hex;
    destruct Hex as (_ & (k & Hs) & _ & Hc & _)
  end; cbn [trace] in Hs, Hc;
    rewrite !submitted_snoc in Hs; rewrite !confirmations_snoc in Hc;
    cbv beta iota in Hs; cbv [is_confirmation] in Hc;
    rewrite !List.app_nil_r in Hs; rewrite !Nat.add_0_r in Hc.
  - intros [= <- <-]. exists k, (if b then 1 else 0)%nat.
    split; [exact Hs|]. split; [exact Hc|].
    split; [destruct b; lia|]. split; [|eauto].
    destruct b; [intros H; exfalso; apply H; reflexivity | reflexivity].
  - intros [= <- <-]. exists k, 0%nat. cbv [trace]. cbv [trace] in Hs, Hc.
    rewrite submitted_snoc, confirmations_snoc, Hs, Hc. cbv [is_confirmation].
    rewrite List.app_nil_r, !Nat.add_0_r.
    split; [reflexivity|]. split; [reflexivity|]. split; [lia|].
    split; [reflexivity | eauto].
Qed.

Lemma note_bind {B} lvl n (k : unit -> Proc B) s :
  pbind (note lvl n) k s
  = k tt {| world := world s;
            journal := (journal s
                        ++ [ {| stamp := List.length (trace (world s));
                                level := lvl; notice := n |} ])%list |}.
Proof. reflexivity. Qed.

Lemma perform_bind {A B} (m : M A) (k : A -> Proc B) s :
  pbind (perform m) k s
  = match m (world s) with
    | (Ok a, w) => k a {| world := w; journal := journal s |}
    | (Throw e, w) => (Raised e, {| world := w; journal := journal s |})
    end.
Proof. unfold pbind, perform. destruct (m (world s)) as [[a|e] w]; reflexivity. Qed.

Lemma sleep_then_return {A} ms (a : A) s :
  pbind (perform (sleep ms)) (fun _ => pret a) s
  = (Returned a, {| world := emit (Slept ms) (world s); journal := journal s |}).
Proof. reflexivity. Qed.

Lemma sleep_run ms w : sleep ms w = (Ok tt, emit (Slept ms) w).
Proof. reflexivity. Qed.

Lemma pair_turn_counter env n s n' s' :
  pair_turn env n s = (Returned n', s') -> n' = n \/ n' = n + 1.
Proof.
  intros H. unfold pair_turn in H.
  repeat (first [rewrite note_bind in H | progress cbv beta in H]).
  rewrite perform_bind in H. cbv [Date_now] in H. cbv beta iota in H.
  repeat (first [rewrite note_bind in H | progress cbv beta in H]).
  rewrite perform_bind in H.
  destruct (checkAndMintIfNeeded env _) as [[[]|e] w1]; try discriminate H;
    cbv [negb] in H; cbv beta iota in H.
  2:{ rewrite note_bind in H. cbv beta in H. rewrite sleep_then_return in H.
      injection H as <- _. left. reflexivity. }
  rewrite perform_bind in H.
  destruct (getRandomTokenID env 18 _) as [[id|e] w2]; [|discriminate H].
  rewrite note_bind in H. cbv beta in H. rewrite perform_bind in H.
  destruct (executeTransaction env (Wrap id) _ _) as [[[]|e] w3]; try discriminate H.
  2:{ rewrite note_bind in H. cbv beta in H. rewrite sleep_then_return in H.
      injection H as <- _. left. reflexivity. }
  rewrite perform_bind, randomDelay_run in H.
  rewrite note_bind in H. cbv beta in H. rewrite perform_bind, sleep_run in H.
  rewrite perform_bind in H.
  destruct (executeTransaction env (Unwrap id) _ _) as [[[]|e] w4]; try discriminate H.
  2:{ rewrite note_bind in H. cbv beta in H. rewrite sleep_then_return in H.
      injection H as <- _. left. reflexivity. }
  cbv zeta in H. rewrite note_bind in H. cbv beta in H.
  rewrite perform_bind, randomDelay_run in H.
  rewrite note_bind in H. cbv beta in H. rewrite sleep_then_return in H.
  injection H as <- _. right. reflexivity.
Qed.

Lemma last_notice_snoc j e : last_notice (j ++ [e]) = Some (notice e).
Proof. unfold last_notice. rewrite List.rev_unit. reflexivity. Qed.

(** X13: one turn of the continuous loop.  Under draws in [0, 1), a turn
    that comes back submits mints, then wraps, then unwraps of one and the
    same token id, and ends with a sleep.  The notice it printed last tells
    which of four kinds it is, and the kinds exclude one another: the mint
    check failed (no wrap, no unwrap, no confirmation, sleep of 120000 ms,
    counter kept); the wrap failed (no unwrap, 60000 ms, counter kept); the
    wrap was confirmed and the unwrap failed (60000 ms, counter kept); wrap
    and unwrap were both confirmed (counter plus one, sleep of the
    announced delay, between 300000 and 600001 ms: in double precision the
    largest draw gives one more than the 600000 asked for).  [g], at most
    1, counts the confirmation of a mint made by the balance check. *)
Theorem pair_turn_outcomes env n s n' s' :
  fair env ->
  pair_turn env n s = (Returned n', s') ->
  exists k0 k1 k2 id g d t,
    submitted (trace (world s'))
    = (submitted (trace (world s))
       ++ repeat (Mint MINT_AMOUNT) k0 ++ repeat (Wrap id) k1 ++ repeat (Unwrap id) k2)%list
    /\ trace (world s') = (t ++ [Slept d])%list
    /\ (g <= 1)%nat
    /\ match last_notice (journal s') with
       | Some MintCheckFailed =>
           n' = n /\ d = 120000 /\ k1 = 0%nat /\ k2 = 0%nat /\ g = 0%nat
           /\ confirmations (trace (world s')) = confirmations (trace (world s))
       | Some WrapFailed =>
           n' = n /\ d = 60000 /\ k2 = 0%nat
           /\ confirmations (trace (world s')) = (confirmations (trace (world s)) + g)%nat
       | Some UnwrapFailed =>
           n' = n /\ d = 60000
           /\ confirmations (trace (world s'))
              = (confirmations (trace (world s)) + g + 1)%nat
       | Some (WaitingForNextPair mainDelay) =>
           n' = n + 1 /\ mainDelay = d /\ 300000 <= d <= 600001
           /\ confirmations (trace (world s'))
              = (confirmations (trace (world s)) + g + 2)%nat
       | _ => False
       end.
Proof.
  intros Hfair H. unfold pair_turn in H.
  repeat (first [rewrite note_bind in H | progress cbv beta in H]); rewrite perform_bind in H.
  cbv [Date_now] in H. cbv beta iota in H.
  repeat (first [rewrite note_bind in H | progress cbv beta in H]); rewrite perform_bind in H.
  cbn [world journal] in H.
  destruct (checkAndMintIfNeeded env (tick_clock (world s))) as [[ready|e] w1] eqn:Hm;
    [|discriminate H].
  apply check_mint_facts in Hm.
  destruct Hm as (k0 & g & Hs0 & Hc0 & Hg & Hfalse & _).
  cbn [trace tick_clock] in Hs0, Hc0.
  destruct ready; cbv [negb] in H; cbv beta iota in H.
  2:{ repeat (first [rewrite note_bind in H | progress cbv beta in H]);
        rewrite sleep_then_return in H. injection H as <- <-.
      cbn [world journal trace emit]. rewrite last_notice_snoc. cbn [notice].
      exists k0, 0%nat, 0%nat, 0, 0%nat, 120000, (trace w1).
      rewrite submitted_snoc, confirmations_snoc. cbv beta iota. cbv [is_confirmation].
      cbn [repeat app]. rewrite !List.app_nil_r, Nat.add_0_r.
      split; [exact Hs0|]. split; [reflexivity|]. split; [lia|].
      rewrite Hc0, (Hfalse ltac:(discriminate)), Nat.add_0_r. repeat split. }
  rewrite perform_bind in H. cbn [world journal] in H.
  pose proof (token_id_frame env 18 w1) as (Hidt & _).
  destruct (getRandomTokenID env 18 w1) as [[id|e] w2]; [|discriminate H].
  cbn [snd] in Hidt.
  repeat (first [rewrite note_bind in H | progress cbv beta in H]); rewrite perform_bind in H.
  cbn [world journal] in H.
  match type of H with context [executeTransaction env ?fn ?nm ?w0] =>
    destruct (executeTransaction env fn nm w0) as [[wrapped|e] w3] eqn:Hw;
      [|discriminate H]
  end.
  apply executor_call_facts in Hw. destruct Hw as (_ & (k1 & Hs1) & _ & Hc1 & _).
  rewrite Hidt, Hs0 in Hs1. rewrite Hidt, Hc0 in Hc1.
  destruct wrapped.
  2:{ repeat (first [rewrite note_bind in H | progress cbv beta in H]);
        rewrite sleep_then_return in H. injection H as <- <-.
      cbn [world journal trace emit]. rewrite last_notice_snoc. cbn [notice].
      exists k0, k1, 0%nat, id, g, 60000, (trace w3).
      rewrite submitted_snoc, confirmations_snoc. cbv beta iota. cbv [is_confirmation].
      cbn [repeat app]. rewrite !List.app_nil_r, !Nat.add_0_r.
      split; [rewrite Hs1, <- app_assoc; reflexivity|].
      split; [reflexivity|]. split; [exact Hg|].
      rewrite Hc1, Nat.add_0_r. repeat split. }
  rewrite perform_bind, randomDelay_run in H.
  repeat (first [rewrite note_bind in H | progress cbv beta in H]);
    rewrite perform_bind, sleep_run in H.
  rewrite perform_bind in H. cbn [world journal] in H.
  match type of H with context [executeTransaction env ?fn ?nm ?w0] =>
    destruct (executeTransaction env fn nm w0) as [[unwrapped|e] w4] eqn:Hu;
      [|discriminate H]
  end.
  apply executor_call_facts in Hu. destruct Hu as (_ & (k2 & Hs2) & _ & Hc2 & _).
  cbn [trace emit tick_drawn] in Hs2, Hc2.
  rewrite submitted_snoc in Hs2. rewrite confirmations_snoc in Hc2.
  cbv beta iota in Hs2. cbv [is_confirmation] in Hc2.
  rewrite List.app_nil_r, Hs1 in Hs2. rewrite Nat.add_0_r, Hc1 in Hc2.
  destruct unwrapped.
  2:{ repeat (first [rewrite note_bind in H | progress cbv beta in H]);
        rewrite sleep_then_return in H. injection H as <- <-.
      cbn [world journal trace emit]. rewrite last_notice_snoc. cbn [notice].
      exists k0, k1, k2, id, g, 60000, (trace w4).
      rewrite submitted_snoc, confirmations_snoc. cbv beta iota. cbv [is_confirmation].
      rewrite !List.app_nil_r, !Nat.add_0_r.
      split; [rewrite Hs2, <- !app_assoc; reflexivity|].
      split; [reflexivity|]. split; [exact Hg|].
      rewrite Hc2, Nat.add_0_r. repeat split. }
  cbv zeta in H.
  repeat (first [rewrite note_bind in H | progress cbv beta in H]);
    rewrite perform_bind, randomDelay_run in H.
  repeat (first [rewrite note_bind in H | progress cbv beta in H]);
    rewrite sleep_then_return in H. injection H as <- <-.
  cbn [world journal trace emit tick_drawn]. rewrite last_notice_snoc. cbn [notice].
  eexists k0, k1, k2, id, g, _, (trace w4).
  rewrite submitted_snoc, confirmations_snoc. cbv beta iota. cbv [is_confirmation].
  rewrite !List.app_nil_r, !Nat.add_0_r.
  split; [rewrite Hs2, <- !app_assoc; reflexivity|].
  split; [reflexivity|]. split; [exact Hg|].
  split; [reflexivity|]. split; [reflexivity|].
  split; [|rewrite Hc2, <- Nat.add_assoc; reflexivity].
  apply (delay_site _ (300 * 1000) (600 * 1000) 600001);
    [apply Hfair | lia | lia | lia | vm_compute; reflexivity].
Qed.

Lemma pair_turn_outcomes_witness :
  exists s' d t,
    pair_turn Demo.calm 0 {| world := Demo.ready; journal := [] |} = (Returned 1, s')
    /\ trace (world s') = (t ++ [Slept d])%list
    /\ last_notice (journal s') = Some (WaitingForNextPair d)
    /\ 300000 <= d <= 600001.
Proof.
  assert (H : pair_turn Demo.calm 0 {| world := Demo.ready; journal := [] |}
              = (Returned 1,
                 snd (pair_turn Demo.calm 0 {| world := Demo.ready; journal := [] |})))
    by (vm_compute; reflexivity).
  destruct (pair_turn_outcomes _ _ _ _ _ calm_fair H)
    as (k0 & k1 & k2 & id & g & d & t & _ & Ht & _ & Hkind).
  exists (snd (pair_turn Demo.calm 0 {| world := Demo.ready; journal := [] |})), d, t.
  split; [exact H|]. split; [exact Ht|].
  destruct (last_notice _) as [[]|]; try contradiction;
    try (destruct Hkind as (Hn & _); discriminate Hn).
  destruct Hkind as (_ & -> & Hd & _). split; [reflexivity | exact Hd].
Defined.

(* ================================================================== *)
(** ** What can end the scripts *)

Section Throws.

Context {A B : Type} (P : Js.Error -> Prop).

Lemma throws_bind (m : M A) (k : A -> M B) :
  throws_only P m -> (forall a, throws_only P (k a)) -> throws_only P (bind m k).
Proof.
  intros Hm Hk w e w' H. unfold bind in H.
  destruct (m w) as [[a|e0] w1] eqn:E.
  - exact (Hk a _ _ _ H).
  - injection H as <- <-. exact (Hm _ _ _ E).
Qed.

Lemma throws_ret (a : A) : throws_only P (ret a).
Proof. intros w e w' H. discriminate H. Qed.

Lemma throws_modify (f : World -> World) : throws_only P (modify f).
Proof. intros w e w' H. discriminate H. Qed.

Lemma throws_catch (m : M A) (handler : Js.Error -> M A) :
  (forall e, throws_only P (handler e)) -> throws_only P (try_catch m handler).
Proof.
  intros Hh w e w' H. unfold try_catch in H.
  destruct (m w) as [[a|e0] w1]; [discriminate H | exact (Hh _ _ _ _ H)].
Qed.

Lemma raises_bind (m : Proc A) (k : A -> Proc B) :
  raises_only P m -> (forall a, raises_only P (k a)) -> raises_only P (pbind m k).
Proof.
  intros Hm Hk s e s' H. unfold pbind in H.
  destruct (m s) as [[a|e0|c] s1] eqn:E.
  - exact (Hk a _ _ _ H).
  - injection H as <- <-. exact (Hm _ _ _ E).
  - discriminate H.
Qed.

Lemma raises_perform (m : M A) : throws_only P m -> raises_only P (perform m).
Proof.
  intros Hm s e s' H. unfold perform in H.
  destruct (m (world s)) as [[a|e0] w1] eqn:E; [discriminate H|].
  injection H as <- _. exact (Hm _ _ _ E).
Qed.

Lemma raises_pret (a : A) : raises_only P (pret a).
Proof. intros s e s' H. discriminate H. Qed.

Lemma raises_exit code : raises_only P (@process_exit A code).
Proof. intros s e s' H. discriminate H. Qed.

End Throws.

Lemma raises_note P lvl n : raises_only P (note lvl n).
Proof. intros s e s' H. discriminate H. Qed.

Section Exits.

Context {A B : Type} (Q : Z -> Session -> Prop).

Lemma exits_bind (m : Proc A) (k : A -> Proc B) :
  exits_only Q m -> (forall a, exits_only Q (k a)) -> exits_only Q (pbind m k).
Proof.
  intros Hm Hk s c s' H. unfold pbind in H.
  destruct (m s) as [[a|e0|c0] s1] eqn:E.
  - exact (Hk a _ _ _ H).
  - discriminate H.
  - injection H as <- <-. exact (Hm _ _ _ E).
Qed.

Lemma exits_perform (m : M A) : exits_only Q (perform m).
Proof.
  intros s c s' H. unfold perform in H.
  destruct (m (world s)) as [[a|e0] w1]; discriminate H.
Qed.

Lemma exits_pret (a : A) : exits_only Q (pret a).
Proof. intros s c s' H. discriminate H. Qed.

End Exits.

Lemma exits_note Q lvl n : exits_only Q (note lvl n).
Proof. intros s c s' H. discriminate H. Qed.

Lemma connect_throws env files :
  throws_only (fun e => rebuild_fault env files = Some e)
              (initializeConnections env files).
Proof.
  intros w e w'. unfold initializeConnections, rebuild_fault. run.
  rebuild_cases env files; try discriminate; intros [= <- _]; reflexivity.
Qed.

Lemma connect_fails env files w e :
  rebuild_fault env files = Some e ->
  exists w', initializeConnections env files w = (Throw e, w').
Proof.
  unfold initializeConnections, rebuild_fault. run.
  rebuild_cases env files; try discriminate; intros [= <-]; eexists; reflexivity.
Qed.

Lemma executor_throws env fn actionName :
  throws_only (connect_failure env) (executeTransaction env fn actionName).
Proof.
  intros w e w' H. unfold executeTransaction in H.
  destruct (loop_throws env fn actionName _ _ _ _ _ H) as (i & _ & Ho & Hf).
  right. eauto.
Qed.

Lemma token_id_throws env n P :
  fair env -> timed env -> throws_only P (getRandomTokenID env n).
Proof.
  intros Hfair Htimed w e w' H. exfalso.
  destruct (drawn_digits_shape env n (drawn w) (fun i _ => Hfair _)) as [_ Hdig].
  destruct (toString_timestamp _ (Htimed (clockReads w))) as [Hts _].
  rewrite getRandomTokenID_unfold in H. cbv zeta in H.
  assert (Htd : all_digits (drawn_digits env (drawn w) n
                            ++ Js.slice_last 5 (Js.toString (clock env (clockReads w))))
                = true).
  { rewrite all_digits_append, Hdig. unfold Js.slice_last.
    rewrite all_digits_substring by exact Hts. reflexivity. }
  rewrite parseBigInt_digits, digits_value_spec in H by exact Htd.
  discriminate H.
Qed.

Lemma randomDelay_throws env min max P : throws_only P (randomDelay env min max).
Proof. intros w e w' H. rewrite randomDelay_run in H. discriminate H. Qed.

Lemma Date_now_throws env P : throws_only P (Date_now env).
Proof. intros w e w' H. discriminate H. Qed.

Lemma print_throws lvl line P : throws_only P (print lvl line).
Proof. apply throws_modify. Qed.

Lemma sleep_throws ms P : throws_only P (sleep ms).
Proof. apply throws_modify. Qed.

#[global] Hint Resolve throws_ret print_throws sleep_throws randomDelay_throws
  Date_now_throws executor_throws throws_bind : quiet.
#[global] Hint Extern 1 (throws_only _ (if ?b then _ else _)) => destruct b : quiet.
#[global] Hint Extern 1 (throws_only _ (let _ := _ in _)) => cbv zeta : quiet.
#[global] Hint Extern 1 (throws_only _ ((fun _ => _) _)) => cbv beta : quiet.

Lemma pair_loop_throws env :
  fair env -> timed env ->
  forall fuel i dailyPairGoal txCounter,
    throws_only (connect_failure env) (pair_loop env fuel i dailyPairGoal txCounter).
Proof.
  intros Hfair Htimed. induction fuel as [|fuel IH]; intros i goal c; cbn [pair_loop].
  - apply throws_ret.
  - destruct (i <=? goal); [|apply throws_ret].
    apply throws_bind; [apply throws_modify | intros _].
    apply throws_bind; [apply token_id_throws; assumption | intros randomID].
    apply throws_bind; [apply executor_throws | intros wrapSuccess].
    cbv zeta. apply throws_bind; [auto 30 with quiet nocore | intros c'].
    apply throws_bind; [auto 30 with quiet nocore | intros _]. apply IH.
Qed.

Lemma cycle_throws env :
  fair env -> timed env -> throws_only (connect_failure env) (runDailyCycle env).
Proof.
  intros Hfair Htimed. unfold runDailyCycle.
  do 7 (apply throws_bind; [auto 30 with quiet nocore | intros ?]; cbv zeta).
  apply throws_bind; [auto 30 with quiet nocore | intros mintSuccess].
  apply throws_bind; [auto 30 with quiet nocore | intros approveSuccess].
  destruct (negb mintSuccess || negb approveSuccess)%bool; [apply throws_modify|].
  apply throws_bind; [auto 30 with quiet nocore | intros _].
  apply throws_bind; [apply pair_loop_throws; assumption | intros txCounter].
  apply throws_modify.
Qed.

Lemma main_throws env days :
  fair env -> timed env -> throws_only (connect_failure env) (main env days).
Proof.
  intros Hfair Htimed. unfold main. apply throws_bind.
  - intros w e w' H. left. exact (connect_throws _ _ _ _ _ H).
  - intros _. induction days as [|days IH]; cbn [daily_loop]; [apply throws_ret|].
    apply throws_bind; [|intros _; exact IH].
    unfold daily_iteration.
    apply throws_bind; [auto 30 with quiet nocore | intros startTime].
    apply throws_bind; [apply cycle_throws; assumption | intros _].
    auto 30 with quiet nocore.
Qed.

Lemma check_mint_throws env P : throws_only P (checkAndMintIfNeeded env).
Proof.
  unfold checkAndMintIfNeeded.
  apply throws_bind; [apply throws_modify | intros _].
  apply throws_catch. intros e.
  apply throws_bind; [apply throws_modify | intros _]. apply throws_ret.
Qed.

Lemma check_approve_throws env P : throws_only P (checkAndApproveIfNeeded env).
Proof.
  unfold checkAndApproveIfNeeded.
  apply throws_bind; [apply throws_modify | intros _].
  apply throws_catch. intros e.
  apply throws_bind; [apply throws_modify | intros _]. apply throws_ret.
Qed.

Lemma scripted_timed l balance : timed (Demo.scripted l balance).
Proof. intros n. cbn [Demo.scripted clock]. lia. Qed.

Lemma pair_turn_raises env n :
  fair env -> timed env -> raises_only (connect_failure env) (pair_turn env n).
Proof.
  intros Hfair Htimed. unfold pair_turn.
  apply raises_bind; [apply raises_note | intros _].
  apply raises_bind; [apply raises_perform, Date_now_throws | intros now].
  apply raises_bind; [apply raises_note | intros _].
  apply raises_bind; [apply raises_note | intros _].
  apply raises_bind; [apply raises_perform, check_mint_throws | intros readyToWrap].
  assert (Hsleep : forall ms, raises_only (connect_failure env) (perform (sleep ms)))
    by (intros ms; apply raises_perform, throws_modify).
  assert (Hdelay : forall a b, raises_only (connect_failure env) (perform (randomDelay env a b)))
    by (intros a b; apply raises_perform, randomDelay_throws).
  destruct (negb readyToWrap).
  { apply raises_bind; [apply raises_note | intros _].
    apply raises_bind; [apply Hsleep | intros _]. apply raises_pret. }
  apply raises_bind; [apply raises_perform, token_id_throws; assumption | intros randomID].
  apply raises_bind; [apply raises_note | intros _].
  apply raises_bind; [apply raises_perform, executor_throws | intros wrapSuccess].
  destruct wrapSuccess.
  2:{ apply raises_bind; [apply raises_note | intros _].
      apply raises_bind; [apply Hsleep | intros _]. apply raises_pret. }
  apply raises_bind; [apply Hdelay | intros interTxDelay].
  apply raises_bind; [apply raises_note | intros _].
  apply raises_bind; [apply Hsleep | intros _].
  apply raises_bind; [apply raises_perform, executor_throws | intros unwrapSuccess].
  destruct unwrapSuccess.
  2:{ apply raises_bind; [apply raises_note | intros _].
      apply raises_bind; [apply Hsleep | intros _]. apply raises_pret. }
  cbv zeta.
  apply raises_bind; [apply raises_note | intros _].
  apply raises_bind; [apply Hdelay | intros mainDelay].
  apply raises_bind; [apply raises_note | intros _].
  apply raises_bind; [apply Hsleep | intros _]. apply raises_pret.
Qed.

#[global] Hint Resolve exits_pret exits_perform exits_note exits_bind : quiet.
#[global] Hint Extern 1 (exits_only _ (if ?b then _ else _)) => destruct b : quiet.
#[global] Hint Extern 1 (exits_only _ (let _ := _ in _)) => cbv zeta : quiet.
#[global] Hint Extern 1 (exits_only _ ((fun _ => _) _)) => cbv beta : quiet.

Lemma pair_turn_exits env n Q : exits_only Q (pair_turn env n).
Proof. unfold pair_turn. auto 40 with quiet nocore. Qed.

Lemma pair_turns_raises env :
  fair env -> timed env ->
  forall turns n, raises_only (connect_failure env) (pair_turns env turns n).
Proof.
  intros Hfair Htimed. induction turns as [|turns IH]; intros n; cbn [pair_turns].
  - apply raises_pret.
  - apply raises_bind; [apply pair_turn_raises; assumption | intros n'; apply IH].
Qed.

Lemma pair_turns_exits env Q : forall turns n, exits_only Q (pair_turns env turns n).
Proof.
  induction turns as [|turns IH]; intros n; cbn [pair_turns].
  - apply exits_pret.
  - apply exits_bind; [apply pair_turn_exits | intros n'; apply IH].
Qed.

Lemma pair_turns_count env :
  forall turns n s n' s',
    pair_turns env turns n s = (Returned n', s') -> n <= n' <= n + Z.of_nat turns.
Proof.
  induction turns as [|turns IH]; intros n s n' s' H; cbn [pair_turns] in H.
  - injection H as <- _. lia.
  - unfold pbind in H. destruct (pair_turn env n s) as [[m|e|c] s1] eqn:E;
      try discriminate H.
    apply IH in H. destruct (pair_turn_counter _ _ _ _ _ E); lia.
Qed.

Lemma continuous_main_raises env turns :
  fair env -> timed env -> raises_only (connect_failure env) (continuous_main env turns).
Proof.
  intros Hfair Htimed. unfold continuous_main.
  apply raises_bind.
  { apply raises_perform. intros w e w' H. left. exact (connect_throws _ _ _ _ _ H). }
  intros _. apply raises_bind; [apply raises_note | intros _].
  apply raises_bind; [apply raises_perform, check_approve_throws | intros setupSuccess].
  apply raises_bind.
  { destruct (negb setupSuccess); [|apply raises_pret].
    apply raises_bind; [apply raises_note | intros _].
    apply raises_bind; [apply raises_perform, throws_modify | intros _].
    apply raises_exit. }
  intros _. apply raises_bind; [apply raises_note | intros _].
  apply pair_turns_raises; assumption.
Qed.

Lemma continuous_main_exits env turns :
  exits_only (fun code s => code = 1 /\ approval_failed s) (continuous_main env turns).
Proof.
  unfold continuous_main.
  apply exits_bind; [apply exits_perform | intros _].
  apply exits_bind; [apply exits_note | intros _].
  apply exits_bind; [apply exits_perform | intros setupSuccess].
  apply exits_bind.
  { destruct (negb setupSuccess); [|apply exits_pret].
    intros s code s' H. injection H as <- <-. split; [reflexivity|].
    exists (journal s), (trace (world s)). split; reflexivity. }
  intros _. apply exits_bind; [apply exits_note | intros _].
  apply pair_turns_exits.
Qed.

Lemma configuration_refuses env s :
  key_missing (PRIVATE_KEY env) = true ->
  exists s', configuration env s = (Exited 1, s') /\ key_reported s s'.
Proof.
  intros Hk. unfold configuration. rewrite Hk. eexists. split; [reflexivity|].
  split; reflexivity.
Qed.

Lemma configuration_passes env s :
  key_missing (PRIVATE_KEY env) = false -> configuration env s = (Returned tt, s).
Proof. intros Hk. unfold configuration. rewrite Hk. reflexivity. Qed.

(** X14: how the batch-mode script ends.  With draws in [0, 1) and a
    timestamp of at least five digits, the script (the configuration check,
    then [main().catch(...)]) either is still running after the observed
    days, or the process has exited with code 1, for one of two reasons:
    PRIVATE_KEY is missing (reported at once, nothing else done), or an
    uncaught exception was reported, which is the exception of an
    [initializeConnections()] that failed (the wallet constructor rejecting
    the key, an ABI file that cannot be read, the contract constructor
    rejecting an ABI), at startup or while a failover rebuilt the
    connection.  Both do end the script: a missing key always, a failing
    first [initializeConnections()] always.  No failed transaction, rate
    limit or network error ends it, and the promise is never left
    rejected. *)
Theorem batch_script_ending env days s r s' :
  fair env -> timed env ->
  batch_script env days s = (r, s') ->
  (key_missing (PRIVATE_KEY env) = true -> r = Exited 1 /\ key_reported s s')
  /\ (key_missing (PRIVATE_KEY env) = false ->
      forall e, rebuild_fault env (startupFiles env) = Some e ->
                r = Exited 1 /\ reported e s')
  /\ (r = Returned tt
      \/ (r = Exited 1
          /\ (key_reported s s' \/ exists e, connect_failure env e /\ reported e s'))).
Proof.
  intros Hfair Htimed H. unfold batch_script, pbind in H.
  destruct (key_missing (PRIVATE_KEY env)) eqn:Hk.
  - destruct (configuration_refuses env s Hk) as (s1 & Hc & Hrep).
    rewrite Hc in H. injection H as <- <-.
    split; [auto|]. split; [discriminate|]. right. auto.
  - rewrite (configuration_passes env s Hk) in H.
    unfold batch_entry, on_rejection, perform in H.
    split; [discriminate|]. split.
    + intros _ e He. unfold main, bind in H.
      destruct (connect_fails env (startupFiles env) (world s) e He) as (w1 & Hrun).
      rewrite Hrun in H. injection H as <- <-.
      split; [reflexivity|]. exists (journal s). reflexivity.
    + destruct (main env days (world s)) as [[[]|e] w1] eqn:E.
      * injection H as <- _. left. reflexivity.
      * injection H as <- <-. right. split; [reflexivity|]. right.
        exists e. split; [exact (main_throws env days Hfair Htimed _ _ _ E)|].
        exists (journal s). reflexivity.
Qed.

Lemma placeholder_fair : fair Demo.placeholder.
Proof. intros n. exact unit_draw_half. Qed.

Lemma placeholder_timed : timed Demo.placeholder.
Proof. intros n. cbn [Demo.placeholder clock]. lia. Qed.

Lemma batch_script_ending_witness :
  fst (batch_script Demo.placeholder 1 launch) = Exited 1
  /\ reported Demo.invalidKey (snd (batch_script Demo.placeholder 1 launch)).
Proof.
  apply (proj1 (proj2 (batch_script_ending Demo.placeholder 1 launch
                         (fst (batch_script Demo.placeholder 1 launch))
                         (snd (batch_script Demo.placeholder 1 launch))
                         placeholder_fair placeholder_timed (surjective_pairing _)))).
  - reflexivity.
  - reflexivity.
Defined.

(** The batch script on a disk whose ABI files vanish at the first
    failover, and without a key. *)
Example batch_script_endings :
  fst (batch_script Demo.brokenDisk 1 launch) = Exited 1
  /\ fst (batch_script Demo.objectAbi 1 launch) = Exited 1
  /\ fst (batch_script Demo.keyless 1 launch) = Exited 1
  /\ trace (world (snd (batch_script Demo.keyless 1 launch))) = [].
Proof. repeat split; vm_compute; reflexivity. Qed.

(** X15: how the continuous-mode script ends.  With draws in [0, 1) and a
    timestamp of at least five digits, the script (the configuration check,
    then [main().catch(...)]) either is still running after the observed
    turns of the loop, with a count of completed pairs between 0 and the
    number of turns, or the process has exited with code 1, for one of
    three reasons: PRIVATE_KEY is missing (reported at once, nothing else
    done); the initial approval failed (announced on console.error and
    followed by a sleep of 60000 ms); or an uncaught exception was
    reported, which is the exception of an [initializeConnections()] that
    failed (key rejected, ABI file unreadable, ABI rejected), at startup or
    while a failover rebuilt the connection.  A missing key and a failing
    first [initializeConnections()] always end the script.  The promise is
    never left rejected, and no failed transaction inside the loop exits. *)
Theorem continuous_script_ending env turns s r s' :
  fair env -> timed env ->
  continuous_script env turns s = (r, s') ->
  (key_missing (PRIVATE_KEY env) = true -> r = Exited 1 /\ key_reported s s')
  /\ (key_missing (PRIVATE_KEY env) = false ->
      forall e, rebuild_fault env (startupFiles env) = Some e ->
                r = Exited 1 /\ reported e s')
  /\ ((exists n, r = Returned n /\ 0 <= n <= Z.of_nat turns)
      \/ (r = Exited 1
          /\ (key_reported s s' \/ approval_failed s'
              \/ exists e, connect_failure env e /\ reported e s'))).
Proof.
  intros Hfair Htimed H. unfold continuous_script, pbind in H.
  destruct (key_missing (PRIVATE_KEY env)) eqn:Hk.
  - destruct (configuration_refuses env s Hk) as (s1 & Hc & Hrep).
    rewrite Hc in H. injection H as <- <-.
    split; [auto|]. split; [discriminate|]. right. auto.
  - rewrite (configuration_passes env s Hk) in H.
    unfold continuous_entry, on_rejection in H.
    split; [discriminate|]. split.
    + intros _ e He. unfold continuous_main in H. rewrite perform_bind in H.
      destruct (connect_fails env (startupFiles env) (world s) e He) as (w1 & Hrun).
      rewrite Hrun in H. injection H as <- <-.
      split; [reflexivity|]. eexists. reflexivity.
    + destruct (continuous_main env turns s) as [[n|e|code] s1] eqn:E.
      * injection H as <- <-. left. exists n. split; [reflexivity|].
        unfold continuous_main in E.
        repeat (first [rewrite note_bind in E | progress cbv beta in E]).
        unfold pbind at 1 in E.
        destruct (perform (initializeConnections env (startupFiles env)) s)
          as [[[]|e|c] s2]; try discriminate E.
        repeat (first [rewrite note_bind in E | progress cbv beta in E]).
        unfold pbind at 1 in E.
        destruct (perform (checkAndApproveIfNeeded env) _) as [[b|e|c] s3];
          try discriminate E.
        unfold pbind at 1 in E.
        destruct b; cbv [negb] in E; cbv beta iota in E; [|discriminate E].
        unfold pret at 1 in E.
        repeat (first [rewrite note_bind in E | progress cbv beta in E]).
        apply pair_turns_count in E. lia.
      * injection H as <- <-. right. split; [reflexivity|]. right; right.
        exists e. split; [exact (continuous_main_raises env turns Hfair Htimed _ _ _ E)|].
        exists (journal s1). reflexivity.
      * injection H as <- <-.
        destruct (continuous_main_exits env turns _ _ _ E) as [-> Hq].
        right. split; [reflexivity|]. right; left. exact Hq.
Qed.

Lemma continuous_script_ending_witness :
  fst (continuous_script Demo.placeholder 1 launch) = Exited 1
  /\ reported Demo.invalidKey (snd (continuous_script Demo.placeholder 1 launch)).
Proof.
  apply (proj1 (proj2 (continuous_script_ending Demo.placeholder 1 launch
                         (fst (continuous_script Demo.placeholder 1 launch))
                         (snd (continuous_script Demo.placeholder 1 launch))
                         placeholder_fair placeholder_timed (surjective_pairing _)))).
  - reflexivity.
  - reflexivity.
Defined.

(** The continuous script when the chain cannot be read (the initial
    approval fails), and without a key. *)
Example continuous_script_endings :
  fst (continuous_script Demo.unreachable 1 launch) = Exited 1
  /\ last_notice (journal (snd (continuous_script Demo.unreachable 1 launch)))
     = Some InitialApprovalFailed
  /\ fst (continuous_script Demo.keyless 1 launch) = Exited 1
  /\ last_notice (journal (snd (continuous_script Demo.keyless 1 launch)))
     = Some MissingPrivateKey
  /\ fst (continuous_script Demo.calm 2 launch) = Returned 2.
Proof. repeat split; vm_compute; reflexivity. Qed.
